(** * wlroots xdg-shell: the configure handshake and the popup grab chain

    A shallow embedding of [types/wlr_xdg_shell.c].  Objects that the C code
    reaches through pointers live in finite maps keyed by their address;
    protocol errors, wire events and compositor signals are collected in the
    list of [event]s every handler returns.

    Conventions.
    - [uint32_t] and [int32_t] values are integers of [Z]; conversions and
      wrap-around are written out with [to_uint32] and [to_int32].  Signed
      overflow is taken to wrap (two's complement).
    - A handler returns [None] where the C code aborts on an [assert] or
      reaches through a pointer that does not point to a live object.
    - The outcome of a heap allocation whose result the C code tests
      ([calloc], [wl_resource_create], [wl_array_add]) is a parameter of the
      handler that allocates. Logging is left out. *)

From stdpp Require Import gmap list.
From Stdlib Require Import ZArith Lia Sorted.

Open Scope Z_scope.

(** ** Machine integers *)

Definition uint32_t := Z.
Definition int32_t := Z.

Definition to_uint32 (z : Z) : uint32_t := z mod 2 ^ 32.
Definition to_int32 (z : Z) : int32_t := (z + 2 ^ 31) mod 2 ^ 32 - 2 ^ 31.

Definition in_int32 (z : Z) : Prop := - 2 ^ 31 <= z < 2 ^ 31.
Definition in_uint32 (z : Z) : Prop := 0 <= z < 2 ^ 32.

(** Addresses of heap objects. A pointer that may be NULL is an [option ptr]. *)
Definition ptr := positive.
Bind Scope positive_scope with ptr.

(** ** Boxes and the positioner *)

(** [struct wlr_box]: four [int] fields. *)
Record wlr_box := mk_box {
  box_x : int32_t;
  box_y : int32_t;
  box_width : int32_t;
  box_height : int32_t;
}.

Inductive xdg_positioner_anchor :=
| XDG_POSITIONER_ANCHOR_NONE
| XDG_POSITIONER_ANCHOR_TOP
| XDG_POSITIONER_ANCHOR_BOTTOM
| XDG_POSITIONER_ANCHOR_LEFT
| XDG_POSITIONER_ANCHOR_RIGHT
| XDG_POSITIONER_ANCHOR_TOP_LEFT
| XDG_POSITIONER_ANCHOR_BOTTOM_LEFT
| XDG_POSITIONER_ANCHOR_TOP_RIGHT
| XDG_POSITIONER_ANCHOR_BOTTOM_RIGHT.

Inductive xdg_positioner_gravity :=
| XDG_POSITIONER_GRAVITY_NONE
| XDG_POSITIONER_GRAVITY_TOP
| XDG_POSITIONER_GRAVITY_BOTTOM
| XDG_POSITIONER_GRAVITY_LEFT
| XDG_POSITIONER_GRAVITY_RIGHT
| XDG_POSITIONER_GRAVITY_TOP_LEFT
| XDG_POSITIONER_GRAVITY_BOTTOM_LEFT
| XDG_POSITIONER_GRAVITY_TOP_RIGHT
| XDG_POSITIONER_GRAVITY_BOTTOM_RIGHT.

(** [XDG_POSITIONER_CONSTRAINT_ADJUSTMENT_NONE] of the protocol header. *)
Definition XDG_POSITIONER_CONSTRAINT_ADJUSTMENT_NONE : uint32_t := 0.

(** [struct wlr_xdg_positioner] (its [resource] is not needed here). *)
Record wlr_xdg_positioner := mk_positioner {
  anchor_rect : wlr_box;
  anchor : xdg_positioner_anchor;
  gravity : xdg_positioner_gravity;
  constraint_adjustment : uint32_t;
  size_width : int32_t;
  size_height : int32_t;
  offset_x : int32_t;
  offset_y : int32_t;
}.

(** [a + b] and [a - b] on [int]. *)
Definition add32 (a b : int32_t) : int32_t := to_int32 (a + b).
Definition sub32 (a b : int32_t) : int32_t := to_int32 (a - b).

(** [xdg_positioner_get_geometry]; the [surface] and [parent] arguments are
    not read by the C function. *)
Definition xdg_positioner_get_geometry (positioner : wlr_xdg_positioner)
  : wlr_box :=
  let a := anchor_rect positioner in
  let x := offset_x positioner in
  let y := offset_y positioner in
  let w := size_width positioner in
  let h := size_height positioner in
  let y :=
    match anchor positioner with
    | XDG_POSITIONER_ANCHOR_TOP
    | XDG_POSITIONER_ANCHOR_TOP_LEFT
    | XDG_POSITIONER_ANCHOR_TOP_RIGHT => add32 y (box_y a)
    | XDG_POSITIONER_ANCHOR_BOTTOM
    | XDG_POSITIONER_ANCHOR_BOTTOM_LEFT
    | XDG_POSITIONER_ANCHOR_BOTTOM_RIGHT =>
        add32 y (add32 (box_y a) (box_height a))
    | _ => add32 y (add32 (box_y a) (box_height a ÷ 2))
    end in
  let x :=
    match anchor positioner with
    | XDG_POSITIONER_ANCHOR_LEFT
    | XDG_POSITIONER_ANCHOR_TOP_LEFT
    | XDG_POSITIONER_ANCHOR_BOTTOM_LEFT => add32 x (box_x a)
    | XDG_POSITIONER_ANCHOR_RIGHT
    | XDG_POSITIONER_ANCHOR_TOP_RIGHT
    | XDG_POSITIONER_ANCHOR_BOTTOM_RIGHT =>
        add32 x (add32 (box_x a) (box_width a))
    | _ => add32 x (add32 (box_x a) (box_width a ÷ 2))
    end in
  let y :=
    match gravity positioner with
    | XDG_POSITIONER_GRAVITY_TOP
    | XDG_POSITIONER_GRAVITY_TOP_LEFT
    | XDG_POSITIONER_GRAVITY_TOP_RIGHT => sub32 y h
    | XDG_POSITIONER_GRAVITY_BOTTOM
    | XDG_POSITIONER_GRAVITY_BOTTOM_LEFT
    | XDG_POSITIONER_GRAVITY_BOTTOM_RIGHT => y
    | _ => sub32 y (h ÷ 2)
    end in
  let x :=
    match gravity positioner with
    | XDG_POSITIONER_GRAVITY_LEFT
    | XDG_POSITIONER_GRAVITY_TOP_LEFT
    | XDG_POSITIONER_GRAVITY_BOTTOM_LEFT => sub32 x w
    | XDG_POSITIONER_GRAVITY_RIGHT
    | XDG_POSITIONER_GRAVITY_TOP_RIGHT
    | XDG_POSITIONER_GRAVITY_BOTTOM_RIGHT => x
    | _ => sub32 x (w ÷ 2)
    end in
  let geometry := mk_box x y w h in
  if constraint_adjustment positioner
     =? XDG_POSITIONER_CONSTRAINT_ADJUSTMENT_NONE
  then geometry
  else geometry.

(** The positioner of the centred-popup scenario. *)
Definition positioner_10_in_100 : wlr_xdg_positioner :=
  mk_positioner (mk_box 0 0 100 100)
    XDG_POSITIONER_ANCHOR_NONE XDG_POSITIONER_GRAVITY_NONE 0 10 10 0 0.

(** The centred geometry, first in the [int] arithmetic of the C code and
    then, the sums staying inside [int], as integers. *)
Definition positioner_centered_spec (p : wlr_xdg_positioner) : Prop :=
  let a := anchor_rect p in
  xdg_positioner_get_geometry p
  = mk_box (sub32 (add32 (box_x a) (box_width a ÷ 2)) (size_width p ÷ 2))
           (sub32 (add32 (box_y a) (box_height a ÷ 2)) (size_height p ÷ 2))
           (size_width p) (size_height p) /\
  (in_int32 (box_x a + box_width a ÷ 2) ->
   in_int32 (box_y a + box_height a ÷ 2) ->
   in_int32 (box_x a + box_width a ÷ 2 - size_width p ÷ 2) ->
   in_int32 (box_y a + box_height a ÷ 2 - size_height p ÷ 2) ->
   xdg_positioner_get_geometry p
   = mk_box (box_x a + box_width a ÷ 2 - size_width p ÷ 2)
            (box_y a + box_height a ÷ 2 - size_height p ÷ 2)
            (size_width p) (size_height p)).

(** ** Errors, signals and events *)

(** The wire object an error is posted on or an event is sent to, named by
    the object that holds it: [surface->resource],
    [surface->toplevel_state->resource], [surface->popup_state->resource],
    [client->resource] (the xdg_wm_base) and the resource of a wl_surface. *)
Inductive wl_resource :=
| xdg_surface_resource (surface : ptr)
| xdg_toplevel_resource (surface : ptr)
| xdg_popup_resource (surface : ptr)
| xdg_client_resource (client : ptr)
| wl_surface_resource (wlr_surface : ptr).

(** The error codes of xdg-shell-protocol.h that the file posts. *)
Inductive xdg_error :=
| XDG_WM_BASE_ERROR_ROLE
| XDG_WM_BASE_ERROR_NOT_THE_TOPMOST_POPUP
| XDG_WM_BASE_ERROR_INVALID_SURFACE_STATE
| XDG_WM_BASE_ERROR_INVALID_POSITIONER
| XDG_SURFACE_ERROR_NOT_CONSTRUCTED
| XDG_SURFACE_ERROR_UNCONFIGURED_BUFFER
| XDG_POPUP_ERROR_INVALID_GRAB
| XDG_POSITIONER_ERROR_INVALID_INPUT.

(** The entries of the states array of xdg_toplevel.configure. *)
Inductive xdg_toplevel_state :=
| XDG_TOPLEVEL_STATE_MAXIMIZED
| XDG_TOPLEVEL_STATE_FULLSCREEN
| XDG_TOPLEVEL_STATE_RESIZING
| XDG_TOPLEVEL_STATE_ACTIVATED.

(** The signals of [surface->events] and [shell->events] that the modelled
    handlers emit, each with the surface it is emitted for; the fullscreen
    request carries the rest of its event struct. *)
Inductive wlr_signal :=
| events_request_maximize (surface : ptr)
| events_request_fullscreen (surface : ptr) (fullscreen : bool)
    (output : option ptr)
| events_request_minimize (surface : ptr)
| events_destroy (surface : ptr)
| events_new_surface (surface : ptr).

(** What a handler does to the outside: errors and events on the wire and
    signals to the compositor. [wl_client_post_no_memory] names the
    [wlr_xdg_client] whose connection is told. *)
Inductive event :=
| wl_resource_post_error (resource : wl_resource) (code : xdg_error)
| wl_resource_post_no_memory (resource : wl_resource)
| wl_client_post_no_memory (client : ptr)
| wlr_signal_emit_safe (signal : wlr_signal)
| xdg_toplevel_send_configure (resource : wl_resource)
    (width height : uint32_t) (states : list xdg_toplevel_state)
| xdg_popup_send_configure (resource : wl_resource) (x y width height : int32_t)
| xdg_surface_send_configure (resource : wl_resource) (serial : uint32_t)
| xdg_wm_base_send_ping (resource : wl_resource) (serial : uint32_t)
| xdg_popup_send_popup_done (resource : wl_resource).

(** ** The surface and its role state *)

(** Modelled from the spec: the struct declarations of
    include/wlr/types/wlr_xdg_shell.h are not part of the sources; the
    records below have the fields of the specification's data model that
    the C code reads and writes. The sizes of a toplevel state are
    [uint32_t], as the variables the code copies them into. *)
Record wlr_xdg_toplevel_state := mk_toplevel_state {
  st_maximized : bool;
  st_fullscreen : bool;
  st_resizing : bool;
  st_activated : bool;
  st_width : uint32_t;
  st_height : uint32_t;
  st_max_width : uint32_t;
  st_max_height : uint32_t;
  st_min_width : uint32_t;
  st_min_height : uint32_t;
}.

(** [struct wlr_xdg_toplevel]: [next] holds the client's requests and the
    acknowledged configure, [pending] the compositor's requests, [current]
    the committed state. *)
Record wlr_xdg_toplevel := mk_toplevel {
  toplevel_parent : option ptr;
  toplevel_added : bool;
  next : wlr_xdg_toplevel_state;
  pending : wlr_xdg_toplevel_state;
  current : wlr_xdg_toplevel_state;
}.

(** [struct wlr_xdg_popup]. *)
Record wlr_xdg_popup := mk_popup {
  popup_parent : ptr;
  popup_committed : bool;
  popup_seat : option ptr;
  popup_geometry : wlr_box;
}.

Inductive wlr_xdg_surface_role :=
| WLR_XDG_SURFACE_ROLE_NONE
| WLR_XDG_SURFACE_ROLE_TOPLEVEL
| WLR_XDG_SURFACE_ROLE_POPUP.

(** [surface->role] together with the role state it selects
    ([surface->toplevel_state] or [surface->popup_state]). *)
Inductive role_state :=
| role_none
| role_toplevel (toplevel_state : wlr_xdg_toplevel)
| role_popup (popup_state : wlr_xdg_popup).

(** [struct wlr_xdg_surface_configure]. *)
Record wlr_xdg_surface_configure := mk_configure {
  cfg_serial : uint32_t;
  cfg_state : wlr_xdg_toplevel_state;
}.

(** [struct wlr_xdg_surface]. [client] is the address of its
    [wlr_xdg_client], [surface] the address of the underlying
    [wlr_surface], [popups] the list of its popups, [configure_idle] the
    idle event source if one is pending, [configure_list] the queue with
    its head first. The resource is named after the surface (see
    [wl_resource]); title, app id and user data are not needed here. *)
Record wlr_xdg_surface := mk_surface {
  client : ptr;
  surface : ptr;
  role_data : role_state;
  popups : list ptr;
  added : bool;
  configured : bool;
  configure_serial : uint32_t;
  configure_idle : option ptr;
  configure_next_serial : uint32_t;
  configure_list : list wlr_xdg_surface_configure;
  has_next_geometry : bool;
  next_geometry : wlr_box;
  geometry : wlr_box;
}.

Definition role (s : wlr_xdg_surface) : wlr_xdg_surface_role :=
  match role_data s with
  | role_none => WLR_XDG_SURFACE_ROLE_NONE
  | role_toplevel _ => WLR_XDG_SURFACE_ROLE_TOPLEVEL
  | role_popup _ => WLR_XDG_SURFACE_ROLE_POPUP
  end.

(** Field updates. *)
Definition set_st_size (w h : uint32_t) (st : wlr_xdg_toplevel_state) :=
  mk_toplevel_state (st_maximized st) (st_fullscreen st) (st_resizing st)
    (st_activated st) w h (st_max_width st) (st_max_height st)
    (st_min_width st) (st_min_height st).
Definition set_st_max_size (w h : uint32_t) (st : wlr_xdg_toplevel_state) :=
  mk_toplevel_state (st_maximized st) (st_fullscreen st) (st_resizing st)
    (st_activated st) (st_width st) (st_height st) w h
    (st_min_width st) (st_min_height st).
Definition set_st_min_size (w h : uint32_t) (st : wlr_xdg_toplevel_state) :=
  mk_toplevel_state (st_maximized st) (st_fullscreen st) (st_resizing st)
    (st_activated st) (st_width st) (st_height st)
    (st_max_width st) (st_max_height st) w h.
Definition set_st_maximized (b : bool) (st : wlr_xdg_toplevel_state) :=
  mk_toplevel_state b (st_fullscreen st) (st_resizing st)
    (st_activated st) (st_width st) (st_height st)
    (st_max_width st) (st_max_height st) (st_min_width st) (st_min_height st).
Definition set_st_fullscreen (b : bool) (st : wlr_xdg_toplevel_state) :=
  mk_toplevel_state (st_maximized st) b (st_resizing st)
    (st_activated st) (st_width st) (st_height st)
    (st_max_width st) (st_max_height st) (st_min_width st) (st_min_height st).

Definition set_st_resizing (b : bool) (st : wlr_xdg_toplevel_state) :=
  mk_toplevel_state (st_maximized st) (st_fullscreen st) b
    (st_activated st) (st_width st) (st_height st)
    (st_max_width st) (st_max_height st) (st_min_width st) (st_min_height st).
Definition set_st_activated (b : bool) (st : wlr_xdg_toplevel_state) :=
  mk_toplevel_state (st_maximized st) (st_fullscreen st) (st_resizing st)
    b (st_width st) (st_height st)
    (st_max_width st) (st_max_height st) (st_min_width st) (st_min_height st).

Definition set_next (st : wlr_xdg_toplevel_state) (t : wlr_xdg_toplevel) :=
  mk_toplevel (toplevel_parent t) (toplevel_added t) st (pending t) (current t).
Definition set_pending (st : wlr_xdg_toplevel_state) (t : wlr_xdg_toplevel) :=
  mk_toplevel (toplevel_parent t) (toplevel_added t) (next t) st (current t).
Definition set_current (st : wlr_xdg_toplevel_state) (t : wlr_xdg_toplevel) :=
  mk_toplevel (toplevel_parent t) (toplevel_added t) (next t) (pending t) st.
Definition set_toplevel_added (b : bool) (t : wlr_xdg_toplevel) :=
  mk_toplevel (toplevel_parent t) b (next t) (pending t) (current t).

Definition set_popup_committed (b : bool) (p : wlr_xdg_popup) :=
  mk_popup (popup_parent p) b (popup_seat p) (popup_geometry p).
Definition set_popup_seat (seat : option ptr) (p : wlr_xdg_popup) :=
  mk_popup (popup_parent p) (popup_committed p) seat (popup_geometry p).

Definition set_role_data (r : role_state) (s : wlr_xdg_surface) :=
  mk_surface (client s) (surface s) r (popups s) (added s) (configured s)
    (configure_serial s) (configure_idle s) (configure_next_serial s)
    (configure_list s) (has_next_geometry s) (next_geometry s) (geometry s).
Definition set_popups (l : list ptr) (s : wlr_xdg_surface) :=
  mk_surface (client s) (surface s) (role_data s) l (added s) (configured s)
    (configure_serial s) (configure_idle s) (configure_next_serial s)
    (configure_list s) (has_next_geometry s) (next_geometry s) (geometry s).
Definition set_added (b : bool) (s : wlr_xdg_surface) :=
  mk_surface (client s) (surface s) (role_data s) (popups s) b (configured s)
    (configure_serial s) (configure_idle s) (configure_next_serial s)
    (configure_list s) (has_next_geometry s) (next_geometry s) (geometry s).
Definition set_configured (b : bool) (s : wlr_xdg_surface) :=
  mk_surface (client s) (surface s) (role_data s) (popups s) (added s) b
    (configure_serial s) (configure_idle s) (configure_next_serial s)
    (configure_list s) (has_next_geometry s) (next_geometry s) (geometry s).
Definition set_configure_serial (n : uint32_t) (s : wlr_xdg_surface) :=
  mk_surface (client s) (surface s) (role_data s) (popups s) (added s)
    (configured s) n (configure_idle s) (configure_next_serial s)
    (configure_list s) (has_next_geometry s) (next_geometry s) (geometry s).
Definition set_configure_idle (i : option ptr) (s : wlr_xdg_surface) :=
  mk_surface (client s) (surface s) (role_data s) (popups s) (added s)
    (configured s) (configure_serial s) i (configure_next_serial s)
    (configure_list s) (has_next_geometry s) (next_geometry s) (geometry s).
Definition set_configure_next_serial (n : uint32_t) (s : wlr_xdg_surface) :=
  mk_surface (client s) (surface s) (role_data s) (popups s) (added s)
    (configured s) (configure_serial s) (configure_idle s) n
    (configure_list s) (has_next_geometry s) (next_geometry s) (geometry s).
Definition set_configure_list (l : list wlr_xdg_surface_configure)
    (s : wlr_xdg_surface) :=
  mk_surface (client s) (surface s) (role_data s) (popups s) (added s)
    (configured s) (configure_serial s) (configure_idle s)
    (configure_next_serial s) l (has_next_geometry s) (next_geometry s)
    (geometry s).
Definition set_has_next_geometry (b : bool) (s : wlr_xdg_surface) :=
  mk_surface (client s) (surface s) (role_data s) (popups s) (added s)
    (configured s) (configure_serial s) (configure_idle s)
    (configure_next_serial s) (configure_list s) b (next_geometry s)
    (geometry s).
Definition set_next_geometry (b : wlr_box) (s : wlr_xdg_surface) :=
  mk_surface (client s) (surface s) (role_data s) (popups s) (added s)
    (configured s) (configure_serial s) (configure_idle s)
    (configure_next_serial s) (configure_list s) (has_next_geometry s) b
    (geometry s).
Definition set_geometry (b : wlr_box) (s : wlr_xdg_surface) :=
  mk_surface (client s) (surface s) (role_data s) (popups s) (added s)
    (configured s) (configure_serial s) (configure_idle s)
    (configure_next_serial s) (configure_list s) (has_next_geometry s)
    (next_geometry s) b.

(** ** The display, its event loop and the underlying surface *)

(** libwayland's display as the handlers use it: the serial counter and the
    idle sources of its event loop, each with the address of the source and
    the surface given as user data (the callback is always
    [wlr_xdg_surface_send_configure]); [next_source] is the address the
    next source is created at. *)
Record wl_display := mk_display {
  display_serial : uint32_t;
  idle : list (ptr * ptr);
  next_source : ptr;
}.

(** [wl_display_next_serial]: increments the counter and returns it. *)
Definition wl_display_next_serial (d : wl_display) : uint32_t * wl_display :=
  let n := to_uint32 (display_serial d + 1) in
  (n, mk_display n (idle d) (next_source d)).

(** [wl_event_loop_add_idle], whose result the C code does not test. *)
Definition wl_event_loop_add_idle (d : wl_display) (data : ptr)
  : ptr * wl_display :=
  (next_source d,
   mk_display (display_serial d) (idle d ++ [(next_source d, data)])
     (Pos.succ (next_source d))).

(** [wl_event_source_remove] on an idle source. *)
Definition wl_event_source_remove (d : wl_display) (source : ptr)
  : wl_display :=
  mk_display (display_serial d)
    (filter (fun e => fst e <> source) (idle d)) (next_source d).

(** Modelled from the spec: the generic surface primitive (wlr_surface.c) is
    not part of the sources. The record has what the handlers read from it,
    the result of [wlr_surface_has_buffer] and the committed pixel
    dimensions [current->width] and [current->height], and what they
    register on it: the role-committed callback data and the destroy
    listeners. *)
Record wlr_surface := mk_wlr_surface {
  has_buffer : bool;
  current_width : int32_t;
  current_height : int32_t;
  role_committed : option ptr;
  destroy_listeners : list ptr;
}.

(** Modelled from the spec: [wlr_surface_has_buffer] tells whether the
    surface has a buffer attached. *)
Definition wlr_surface_has_buffer (b : wlr_surface) : bool := has_buffer b.

(** ** Acknowledging a configure *)

(** [wlr_xdg_toplevel_ack_configure]. *)
Definition wlr_xdg_toplevel_ack_configure (t : wlr_xdg_toplevel)
    (configure : wlr_xdg_surface_configure) : wlr_xdg_toplevel :=
  let t := set_next (cfg_state configure) t in
  set_pending (set_st_size 0 0 (pending t)) t.

(** The [wl_list_for_each_safe] loop of [xdg_surface_ack_configure]: the
    queue that is left, and the entry that was found. *)
Fixpoint ack_configure_loop (serial : uint32_t)
    (l : list wlr_xdg_surface_configure)
  : list wlr_xdg_surface_configure * option wlr_xdg_surface_configure :=
  match l with
  | [] => ([], None)
  | configure :: tl =>
      if cfg_serial configure <? serial then ack_configure_loop serial tl
      else if cfg_serial configure =? serial then (tl, Some configure)
      else (configure :: tl, None)
  end.

(** [xdg_surface_ack_configure]; [self] is the address of the surface [s]. *)
Definition xdg_surface_ack_configure (self : ptr) (s : wlr_xdg_surface)
    (serial : uint32_t) : wlr_xdg_surface * list event :=
  match role s with
  | WLR_XDG_SURFACE_ROLE_NONE =>
      (s, [wl_resource_post_error (xdg_surface_resource self)
             XDG_SURFACE_ERROR_NOT_CONSTRUCTED])
  | _ =>
      let '(l, found) := ack_configure_loop serial (configure_list s) in
      let s := set_configure_list l s in
      match found with
      | None =>
          (s, [wl_resource_post_error (xdg_client_resource (client s))
                 XDG_WM_BASE_ERROR_INVALID_SURFACE_STATE])
      | Some configure =>
          let s :=
            match role_data s with
            | role_toplevel t =>
                set_role_data
                  (role_toplevel (wlr_xdg_toplevel_ack_configure t configure)) s
            | _ => s
            end in
          let s := set_configured true s in
          let s := set_configure_serial serial s in
          (s, [])
      end
  end.

(** [xdg_surface_set_window_geometry]. *)
Definition xdg_surface_set_window_geometry (self : ptr) (s : wlr_xdg_surface)
    (x y width height : int32_t) : wlr_xdg_surface * list event :=
  match role s with
  | WLR_XDG_SURFACE_ROLE_NONE =>
      (s, [wl_resource_post_error (xdg_surface_resource self)
             XDG_SURFACE_ERROR_NOT_CONSTRUCTED])
  | _ =>
      let s := set_has_next_geometry true s in
      (set_next_geometry (mk_box x y width height) s, [])
  end.

(** ** Scheduling and sending a configure *)

(** [wlr_xdg_surface_toplevel_state_compare], for the toplevel [state] of the
    surface [s] over the underlying surface [base]. *)
Definition wlr_xdg_surface_toplevel_state_compare (base : wlr_surface)
    (s : wlr_xdg_surface) (state : wlr_xdg_toplevel) : bool :=
  if negb (configured s) then false
  else
    let '(configured_state, configured_width, configured_height) :=
      match last (configure_list s) with
      | None =>
          (current state, to_uint32 (current_width base),
           to_uint32 (current_width base))
      | Some configure =>
          (cfg_state configure, st_width (cfg_state configure),
           st_height (cfg_state configure))
      end in
    if negb (Bool.eqb (st_activated (pending state))
                      (st_activated configured_state)) then false
    else if negb (Bool.eqb (st_fullscreen (pending state))
                           (st_fullscreen configured_state)) then false
    else if negb (Bool.eqb (st_maximized (pending state))
                           (st_maximized configured_state)) then false
    else if negb (Bool.eqb (st_resizing (pending state))
                           (st_resizing configured_state)) then false
    else if (st_width (pending state) =? configured_width)
            && (st_height (pending state) =? configured_height) then true
    else if (st_width (pending state) =? 0)
            && (st_height (pending state) =? 0) then true
    else false.

(** [wl_array_add] of one state: [array_add_ok n] tells whether the array
    that holds [n] entries can take one more. *)
Definition wl_array_add (array_add_ok : nat -> bool)
    (states : list xdg_toplevel_state) (v : xdg_toplevel_state)
  : option (list xdg_toplevel_state) :=
  if array_add_ok (length states) then Some (states ++ [v]) else None.

(** [wlr_xdg_toplevel_send_configure]: the entry [configure] with the pending
    state copied into it, and what is sent. The fallback sizes are [int]s
    read into [uint32_t] variables. *)
Definition wlr_xdg_toplevel_send_configure (array_add_ok : nat -> bool)
    (self : ptr) (s : wlr_xdg_surface) (t : wlr_xdg_toplevel)
    (configure : wlr_xdg_surface_configure)
  : wlr_xdg_surface_configure * list event :=
  let configure := mk_configure (cfg_serial configure) (pending t) in
  let add (b : bool) (v : xdg_toplevel_state) states :=
    if b then wl_array_add array_add_ok states v else Some states in
  let states :=
    states ← add (st_maximized (pending t)) XDG_TOPLEVEL_STATE_MAXIMIZED [];
    states ← add (st_fullscreen (pending t)) XDG_TOPLEVEL_STATE_FULLSCREEN
               states;
    states ← add (st_resizing (pending t)) XDG_TOPLEVEL_STATE_RESIZING states;
    add (st_activated (pending t)) XDG_TOPLEVEL_STATE_ACTIVATED states in
  match states with
  | None =>
      (configure, [wl_resource_post_no_memory (xdg_toplevel_resource self)])
  | Some states =>
      let width := st_width (pending t) in
      let height := st_height (pending t) in
      let '(width, height) :=
        if (width =? 0) || (height =? 0)
        then (to_uint32 (box_width (geometry s)),
              to_uint32 (box_height (geometry s)))
        else (width, height) in
      (configure,
       [xdg_toplevel_send_configure (xdg_toplevel_resource self)
          width height states])
  end.


(** A zeroed [struct wlr_xdg_toplevel_state], as [calloc] leaves it. *)
Definition zero_toplevel_state : wlr_xdg_toplevel_state :=
  mk_toplevel_state false false false false 0 0 0 0 0 0.

(** [wlr_xdg_surface_send_configure], the idle callback. [calloc_ok] is the
    outcome of allocating the queue entry. The entry is linked at the tail
    of the queue before the role fills it in. *)
Definition wlr_xdg_surface_send_configure (calloc_ok : bool)
    (array_add_ok : nat -> bool) (self : ptr) (s : wlr_xdg_surface)
  : option (wlr_xdg_surface * list event) :=
  let s := set_configure_idle None s in
  if negb calloc_ok then Some (s, [wl_client_post_no_memory (client s)])
  else
    let configure :=
      mk_configure (configure_next_serial s) zero_toplevel_state in
    match role_data s with
    | role_none => None
    | role_toplevel t =>
        let '(configure, evs) :=
          wlr_xdg_toplevel_send_configure array_add_ok self s t configure in
        Some (set_configure_list (configure_list s ++ [configure]) s,
              evs ++ [xdg_surface_send_configure (xdg_surface_resource self)
                        (cfg_serial configure)])
    | role_popup p =>
        Some (set_configure_list (configure_list s ++ [configure]) s,
              [xdg_popup_send_configure (xdg_popup_resource self)
                 (box_x (popup_geometry p)) (box_y (popup_geometry p))
                 (box_width (popup_geometry p)) (box_height (popup_geometry p));
               xdg_surface_send_configure (xdg_surface_resource self)
                 (cfg_serial configure)])
    end.

(** The [pending_same] flag that [wlr_xdg_surface_schedule_configure]
    computes in its switch over the role; [None] is the failed assertion. *)
Definition pending_same (base : wlr_surface) (s : wlr_xdg_surface)
  : option bool :=
  match role_data s with
  | role_none => None
  | role_toplevel t => Some (wlr_xdg_surface_toplevel_state_compare base s t)
  | role_popup _ => Some false
  end.

(** [wlr_xdg_surface_schedule_configure]: the surface, the display and the
    serial it returns. *)
Definition wlr_xdg_surface_schedule_configure (self : ptr)
    (base : wlr_surface) (s : wlr_xdg_surface) (d : wl_display)
  : option (wlr_xdg_surface * wl_display * uint32_t) :=
  same ← pending_same base s;
  match configure_idle s with
  | Some source =>
      if negb same then Some (s, d, configure_next_serial s)
      else
        let d := wl_event_source_remove d source in
        Some (set_configure_idle None s, d, 0)
  | None =>
      if same then Some (s, d, 0)
      else
        let '(serial, d) := wl_display_next_serial d in
        let s := set_configure_next_serial serial s in
        let '(source, d) := wl_event_loop_add_idle d self in
        let s := set_configure_idle (Some source) s in
        Some (s, d, configure_next_serial s)
  end.

(** The compositor's mutators of the pending state. Each asserts the
    toplevel role, writes its field of [pending] and schedules a
    configure. *)
Definition with_pending (f : wlr_xdg_toplevel_state -> wlr_xdg_toplevel_state)
    (self : ptr) (base : wlr_surface) (s : wlr_xdg_surface) (d : wl_display)
  : option (wlr_xdg_surface * wl_display * uint32_t) :=
  match role_data s with
  | role_toplevel t =>
      wlr_xdg_surface_schedule_configure self base
        (set_role_data (role_toplevel (set_pending (f (pending t)) t)) s) d
  | _ => None
  end.

Definition wlr_xdg_toplevel_set_size (width height : uint32_t) :=
  with_pending (set_st_size width height).
Definition wlr_xdg_toplevel_set_activated (activated : bool) :=
  with_pending (set_st_activated activated).
Definition wlr_xdg_toplevel_set_maximized (maximized : bool) :=
  with_pending (set_st_maximized maximized).
Definition wlr_xdg_toplevel_set_fullscreen (fullscreen : bool) :=
  with_pending (set_st_fullscreen fullscreen).
Definition wlr_xdg_toplevel_set_resizing (resizing : bool) :=
  with_pending (set_st_resizing resizing).

(** ** The commit path *)

(** [wlr_xdg_surface_toplevel_committed]. *)
Definition wlr_xdg_surface_toplevel_committed (self : ptr)
    (base : wlr_surface) (s : wlr_xdg_surface) (t : wlr_xdg_toplevel)
    (d : wl_display) : option (wlr_xdg_surface * wl_display) :=
  if negb (wlr_surface_has_buffer base) && negb (toplevel_added t) then
    '(s, d, _) ← wlr_xdg_surface_schedule_configure self base s d;
    Some (set_role_data (role_toplevel (set_toplevel_added true t)) s, d)
  else if negb (wlr_surface_has_buffer base) then Some (s, d)
  else Some (set_role_data (role_toplevel (set_current (next t) t)) s, d).

(** [wlr_xdg_surface_popup_committed]. *)
Definition wlr_xdg_surface_popup_committed (self : ptr)
    (base : wlr_surface) (s : wlr_xdg_surface) (p : wlr_xdg_popup)
    (d : wl_display) : option (wlr_xdg_surface * wl_display) :=
  if negb (popup_committed p) then
    '(s, d, _) ← wlr_xdg_surface_schedule_configure self base s d;
    Some (set_role_data (role_popup (set_popup_committed true p)) s, d)
  else Some (s, d).

(** [handle_wlr_surface_committed], the role-committed callback of the
    underlying surface [base]. *)
Definition handle_wlr_surface_committed (self : ptr) (base : wlr_surface)
    (s : wlr_xdg_surface) (d : wl_display)
  : option (wlr_xdg_surface * wl_display * list event) :=
  if wlr_surface_has_buffer base && negb (configured s) then
    Some (s, d, [wl_resource_post_error (xdg_surface_resource self)
                   XDG_SURFACE_ERROR_UNCONFIGURED_BUFFER])
  else
    let s :=
      if has_next_geometry s
      then set_geometry (next_geometry s) (set_has_next_geometry false s)
      else s in
    '(s, d, evs) ←
      match role_data s with
      | role_none =>
          Some (s, d, [wl_resource_post_error (xdg_surface_resource self)
                         XDG_SURFACE_ERROR_NOT_CONSTRUCTED])
      | role_toplevel t =>
          '(s, d) ← wlr_xdg_surface_toplevel_committed self base s t d;
          Some (s, d, [])
      | role_popup p =>
          '(s, d) ← wlr_xdg_surface_popup_committed self base s p d;
          Some (s, d, [])
      end;
    if configured s && negb (added s)
    then Some (set_added true s, d,
               evs ++ [wlr_signal_emit_safe (events_new_surface self)])
    else Some (s, d, evs).

(** ** Toplevel requests that change state *)

(** The handlers receive the xdg_toplevel resource, whose user data is the
    surface; they read [surface->toplevel_state] without a test, so they are
    defined on toplevels only. *)
Definition with_next (f : wlr_xdg_toplevel_state -> wlr_xdg_toplevel_state)
    (s : wlr_xdg_surface) : option wlr_xdg_surface :=
  match role_data s with
  | role_toplevel t =>
      Some (set_role_data (role_toplevel (set_next (f (next t)) t)) s)
  | _ => None
  end.

Definition xdg_toplevel_protocol_set_max_size (self : ptr)
    (s : wlr_xdg_surface) (width height : int32_t)
  : option (wlr_xdg_surface * list event) :=
  s ← with_next (set_st_max_size (to_uint32 width) (to_uint32 height)) s;
  Some (s, []).

Definition xdg_toplevel_protocol_set_min_size (self : ptr)
    (s : wlr_xdg_surface) (width height : int32_t)
  : option (wlr_xdg_surface * list event) :=
  s ← with_next (set_st_min_size (to_uint32 width) (to_uint32 height)) s;
  Some (s, []).

Definition xdg_toplevel_protocol_set_maximized (self : ptr)
    (s : wlr_xdg_surface) : option (wlr_xdg_surface * list event) :=
  s ← with_next (set_st_maximized true) s;
  Some (s, [wlr_signal_emit_safe (events_request_maximize self)]).

Definition xdg_toplevel_protocol_unset_maximized (self : ptr)
    (s : wlr_xdg_surface) : option (wlr_xdg_surface * list event) :=
  s ← with_next (set_st_maximized false) s;
  Some (s, [wlr_signal_emit_safe (events_request_maximize self)]).

Definition xdg_toplevel_protocol_set_fullscreen (self : ptr)
    (s : wlr_xdg_surface) (output : option ptr)
  : option (wlr_xdg_surface * list event) :=
  s ← with_next (set_st_fullscreen true) s;
  Some (s, [wlr_signal_emit_safe (events_request_fullscreen self true output)]).

Definition xdg_toplevel_protocol_unset_fullscreen (self : ptr)
    (s : wlr_xdg_surface) : option (wlr_xdg_surface * list event) :=
  s ← with_next (set_st_fullscreen false) s;
  Some (s, [wlr_signal_emit_safe (events_request_fullscreen self false None)]).

Definition xdg_toplevel_protocol_set_minimized (self : ptr)
    (s : wlr_xdg_surface) : option (wlr_xdg_surface * list event) :=
  Some (s, [wlr_signal_emit_safe (events_request_minimize self)]).


(** ** Seats, grab chains, clients and the shell *)

(** The grab a seat has installed for its pointer or its keyboard: the
    seat's default grab, the [pointer_grab] or [keyboard_grab] member of the
    shell's [wlr_xdg_popup_grab] of the named seat, or a grab of somebody
    else. *)
Inductive seat_grab :=
| default_grab
| xdg_popup_grab (grab_of_seat : ptr)
| foreign_grab (g : ptr).

Global Instance seat_grab_eq_dec : EqDecision seat_grab.
Proof. solve_decision. Defined.

(** Modelled from the spec: the seat subsystem (wlr_seat.c) is not part of
    the sources. A seat holds the grab installed on its pointer and on its
    keyboard; starting a grab installs it, ending a grab puts the default
    grab back and cancels the grab that was installed. *)
Record wlr_seat := mk_seat {
  pointer_state_grab : seat_grab;
  keyboard_state_grab : seat_grab;
}.

(** [struct wlr_xdg_popup_grab]: [grab_client] is NULL until the first grab,
    [grab_popups] has the topmost popup first. *)
Record wlr_xdg_popup_grab := mk_popup_grab {
  grab_client : option ptr;
  grab_seat : ptr;
  grab_popups : list ptr;
}.

(** [struct wlr_xdg_client]: [wl_client] is its [client] member, the
    connection; [ping_timer] is NULL or the timer source with the delay it
    is armed for (0 when disarmed). *)
Record wlr_xdg_client := mk_client {
  wl_client : ptr;
  surfaces : list ptr;
  ping_serial : uint32_t;
  ping_timer : option Z;
}.

(** The shell with the objects its handlers reach: the xdg surfaces, the
    underlying surfaces, the clients and the seats by address,
    [shell->popup_grabs] with the most recently created chain first,
    [shell->ping_timeout] and the display. *)
Record xdg_world := mk_world {
  xdg_surfaces : gmap ptr wlr_xdg_surface;
  wlr_surfaces : gmap ptr wlr_surface;
  xdg_clients : gmap ptr wlr_xdg_client;
  seats : gmap ptr wlr_seat;
  popup_grabs : list wlr_xdg_popup_grab;
  ping_timeout : Z;
  display : wl_display;
}.

Definition set_xdg_surfaces (m : gmap ptr wlr_xdg_surface) (w : xdg_world) :=
  mk_world m (wlr_surfaces w) (xdg_clients w) (seats w) (popup_grabs w)
    (ping_timeout w) (display w).
Definition set_wlr_surfaces (m : gmap ptr wlr_surface) (w : xdg_world) :=
  mk_world (xdg_surfaces w) m (xdg_clients w) (seats w) (popup_grabs w)
    (ping_timeout w) (display w).
Definition set_xdg_clients (m : gmap ptr wlr_xdg_client) (w : xdg_world) :=
  mk_world (xdg_surfaces w) (wlr_surfaces w) m (seats w) (popup_grabs w)
    (ping_timeout w) (display w).
Definition set_seats (m : gmap ptr wlr_seat) (w : xdg_world) :=
  mk_world (xdg_surfaces w) (wlr_surfaces w) (xdg_clients w) m (popup_grabs w)
    (ping_timeout w) (display w).
Definition set_popup_grabs (l : list wlr_xdg_popup_grab) (w : xdg_world) :=
  mk_world (xdg_surfaces w) (wlr_surfaces w) (xdg_clients w) (seats w) l
    (ping_timeout w) (display w).
Definition set_display (d : wl_display) (w : xdg_world) :=
  mk_world (xdg_surfaces w) (wlr_surfaces w) (xdg_clients w) (seats w)
    (popup_grabs w) (ping_timeout w) d.

(** [xdg_popup_grab_get_topmost]. *)
Definition xdg_popup_grab_get_topmost (grab : wlr_xdg_popup_grab)
  : option ptr :=
  match grab_popups grab with
  | popup :: _ => Some popup
  | [] => None
  end.

(** The search loop of [xdg_shell_popup_grab_from_seat]. *)
Fixpoint popup_grab_lookup (grabs : list wlr_xdg_popup_grab) (seat : ptr)
  : option wlr_xdg_popup_grab :=
  match grabs with
  | [] => None
  | xdg_grab :: grabs =>
      if decide (grab_seat xdg_grab = seat) then Some xdg_grab
      else popup_grab_lookup grabs seat
  end.

(** [xdg_shell_popup_grab_from_seat]: the chain of the seat, created empty
    at the head of [shell->popup_grabs] when the shell has none; [None] is
    the NULL it returns when that allocation fails. *)
Definition xdg_shell_popup_grab_from_seat (calloc_ok : bool)
    (grabs : list wlr_xdg_popup_grab) (seat : ptr)
  : option (list wlr_xdg_popup_grab * wlr_xdg_popup_grab) :=
  match popup_grab_lookup grabs seat with
  | Some xdg_grab => Some (grabs, xdg_grab)
  | None =>
      if calloc_ok then
        let xdg_grab := mk_popup_grab None seat [] in
        Some (xdg_grab :: grabs, xdg_grab)
      else None
  end.

(** Writing through the pointer that [xdg_shell_popup_grab_from_seat]
    returned: the first chain of the seat is replaced. *)
Fixpoint popup_grab_update (grabs : list wlr_xdg_popup_grab) (seat : ptr)
    (f : wlr_xdg_popup_grab -> wlr_xdg_popup_grab)
  : list wlr_xdg_popup_grab :=
  match grabs with
  | [] => []
  | xdg_grab :: grabs =>
      if decide (grab_seat xdg_grab = seat) then f xdg_grab :: grabs
      else xdg_grab :: popup_grab_update grabs seat f
  end.

(** [wl_list_remove] of a popup's [grab_link]: the popup leaves the chain it
    is linked in. *)
Definition grab_link_remove (popup : ptr) (grabs : list wlr_xdg_popup_grab)
  : list wlr_xdg_popup_grab :=
  map (fun g => mk_popup_grab (grab_client g) (grab_seat g)
                  (filter (fun q => q <> popup) (grab_popups g))) grabs.

(** Modelled from the spec: [wlr_seat_pointer_start_grab] and
    [wlr_seat_keyboard_start_grab] install the grab on the seat. *)
Definition wlr_seat_pointer_start_grab (st : wlr_seat) (g : seat_grab) :=
  mk_seat g (keyboard_state_grab st).
Definition wlr_seat_keyboard_start_grab (st : wlr_seat) (g : seat_grab) :=
  mk_seat (pointer_state_grab st) g.

(** [xdg_pointer_grab_end], which is what [xdg_pointer_grab_cancel] runs:
    every popup of the chain is told it is done. Its closing call of
    [wlr_seat_pointer_end_grab] finds the default grab installed and does
    nothing. *)
Definition xdg_pointer_grab_end (grab : wlr_xdg_popup_grab) : list event :=
  map (fun popup => xdg_popup_send_popup_done (xdg_popup_resource popup))
    (grab_popups grab).

(** Modelled from the spec: [wlr_seat_pointer_end_grab] and
    [wlr_seat_keyboard_end_grab], on the seat of the chain [grab] while that
    chain's grab is the one installed, put the default grab back and cancel
    the chain's grab; cancelling the keyboard grab ends the keyboard grab
    once more, to no effect. *)
Definition wlr_seat_pointer_end_grab (st : wlr_seat)
    (grab : wlr_xdg_popup_grab) : wlr_seat * list event :=
  (mk_seat default_grab (keyboard_state_grab st), xdg_pointer_grab_end grab).
Definition wlr_seat_keyboard_end_grab (st : wlr_seat) : wlr_seat :=
  mk_seat (pointer_state_grab st) default_grab.


(** ** Popup grabs *)

(** [xdg_popup_protocol_grab] for the popup at [self] and the seat of the
    seat resource; [calloc_ok] is the outcome of allocating the seat's chain
    if the shell has none. The serial is not read. *)
Definition xdg_popup_protocol_grab (calloc_ok : bool) (w : xdg_world)
    (self seat : ptr) (serial : uint32_t) : option (xdg_world * list event) :=
  s ← xdg_surfaces w !! self;
  match role_data s with
  | role_popup p =>
      if popup_committed p then
        Some (w, [wl_resource_post_error (xdg_popup_resource self)
                    XDG_POPUP_ERROR_INVALID_GRAB])
      else
        c ← xdg_clients w !! client s;
        '(grabs, popup_grab) ←
          xdg_shell_popup_grab_from_seat calloc_ok (popup_grabs w) seat;
        let w := set_popup_grabs grabs w in
        let topmost := xdg_popup_grab_get_topmost popup_grab in
        parent ← xdg_surfaces w !! popup_parent p;
        let parent_is_toplevel :=
          match role parent with
          | WLR_XDG_SURFACE_ROLE_TOPLEVEL => true
          | _ => false
          end in
        if (bool_decide (topmost = None) && negb parent_is_toplevel)
           || (bool_decide (topmost <> None)
               && bool_decide (topmost <> Some (popup_parent p)))
        then
          Some (w, [wl_resource_post_error (xdg_client_resource (client s))
                      XDG_WM_BASE_ERROR_NOT_THE_TOPMOST_POPUP])
        else
          st ← seats w !! seat;
          let grabs :=
            popup_grab_update grabs seat
              (fun g => mk_popup_grab (Some (wl_client c)) (grab_seat g)
                          (self :: grab_popups g)) in
          let s :=
            set_role_data (role_popup (set_popup_seat (Some seat) p)) s in
          let st := wlr_seat_pointer_start_grab st (xdg_popup_grab seat) in
          let st := wlr_seat_keyboard_start_grab st (xdg_popup_grab seat) in
          Some (set_seats (<[seat := st]> (seats w))
                  (set_xdg_surfaces (<[self := s]> (xdg_surfaces w))
                     (set_popup_grabs grabs w)),
                [])
  | _ => None
  end.

(** ** Destroying a surface *)

(** The part of [xdg_surface_destroy] that takes a popup with a seat out of
    its grab chain. *)
Definition xdg_surface_destroy_grab (calloc_ok : bool) (w : xdg_world)
    (self : ptr) (s : wlr_xdg_surface) (seat : ptr)
  : option (xdg_world * list event) :=
  _ ← xdg_clients w !! client s;
  '(grabs, grab) ←
    xdg_shell_popup_grab_from_seat calloc_ok (popup_grabs w) seat;
  let topmost := xdg_popup_grab_get_topmost grab in
  let evs :=
    if decide (topmost = Some self) then []
    else [wl_resource_post_error (xdg_client_resource (client s))
            XDG_WM_BASE_ERROR_NOT_THE_TOPMOST_POPUP] in
  let grabs := grab_link_remove self grabs in
  let w := set_popup_grabs grabs w in
  grab ← popup_grab_lookup grabs seat;
  match grab_popups grab with
  | [] =>
      st ← seats w !! seat;
      let '(st, evs_pointer) :=
        if decide (pointer_state_grab st = xdg_popup_grab seat)
        then wlr_seat_pointer_end_grab st grab else (st, []) in
      let st :=
        if decide (keyboard_state_grab st = xdg_popup_grab seat)
        then wlr_seat_keyboard_end_grab st else st in
      Some (set_seats (<[seat := st]> (seats w)) w, evs ++ evs_pointer)
  | _ => Some (w, evs)
  end.

(** [xdg_surface_destroy]. The three [wl_list_remove]s at its end unlink the
    surface from lists whose heads live in the parent popup's surface, in
    the client and in the underlying surface, so these must be live. *)
Definition xdg_surface_destroy (calloc_ok : bool) (w : xdg_world)
    (self : ptr) : option (xdg_world * list event) :=
  s ← xdg_surfaces w !! self;
  let w :=
    match configure_idle s with
    | Some source =>
        set_display (wl_event_source_remove (display w) source) w
    | None => w
    end in
  '(w, evs) ←
    match role_data s with
    | role_popup p =>
        '(w, evs) ←
          match popup_seat p with
          | Some seat => xdg_surface_destroy_grab calloc_ok w self s seat
          | None => Some (w, [])
          end;
        parent ← xdg_surfaces w !! popup_parent p;
        let parent :=
          set_popups (filter (fun x => x <> self) (popups parent)) parent in
        Some (set_xdg_surfaces
                (<[popup_parent p := parent]> (xdg_surfaces w)) w, evs)
    | _ => Some (w, [])
    end;
  c ← xdg_clients w !! client s;
  base ← wlr_surfaces w !! surface s;
  let w := set_xdg_surfaces (delete self (xdg_surfaces w)) w in
  let c :=
    mk_client (wl_client c) (filter (fun x => x <> self) (surfaces c))
      (ping_serial c) (ping_timer c) in
  let w := set_xdg_clients (<[client s := c]> (xdg_clients w)) w in
  let base :=
    mk_wlr_surface (has_buffer base) (current_width base)
      (current_height base) None
      (filter (fun x => x <> self) (destroy_listeners base)) in
  let w := set_wlr_surfaces (<[surface s := base]> (wlr_surfaces w)) w in
  Some (w, wlr_signal_emit_safe (events_destroy self) :: evs).

(** Destroying the surfaces of a list one after the other. *)
Fixpoint xdg_surface_destroy_all (calloc_ok : bool) (w : xdg_world)
    (l : list ptr) : option (xdg_world * list event) :=
  match l with
  | [] => Some (w, [])
  | self :: l =>
      '(w, evs) ← xdg_surface_destroy calloc_ok w self;
      '(w, evs') ← xdg_surface_destroy_all calloc_ok w l;
      Some (w, evs ++ evs')
  end.

(** ** Creating a surface *)

(** The outcomes of the allocations of [xdg_shell_get_xdg_surface]: the
    address of the new surface, or NULL, and whether its two boxes and its
    resource could be created. *)
Record surface_alloc := mk_surface_alloc {
  alloc_surface : option ptr;
  alloc_geometry : bool;
  alloc_next_geometry : bool;
  alloc_resource : bool;
}.

(** [xdg_shell_get_xdg_surface] for the client at [client] over the
    underlying surface at [surface_resource]. When the underlying surface
    has a buffer the resource just created is destroyed again, before it
    got a destructor. *)
Definition xdg_shell_get_xdg_surface (a : surface_alloc) (w : xdg_world)
    (client surface_resource : ptr) : option (xdg_world * list event) :=
  match alloc_surface a with
  | None => Some (w, [wl_client_post_no_memory client])
  | Some self =>
      if negb (alloc_geometry a) then
        Some (w, [wl_client_post_no_memory client])
      else if negb (alloc_next_geometry a) then
        Some (w, [wl_client_post_no_memory client])
      else if negb (alloc_resource a) then
        Some (w, [wl_client_post_no_memory client])
      else
        base ← wlr_surfaces w !! surface_resource;
        if wlr_surface_has_buffer base then
          Some (w, [wl_resource_post_error
                      (wl_surface_resource surface_resource)
                      XDG_SURFACE_ERROR_UNCONFIGURED_BUFFER])
        else
          c ← xdg_clients w !! client;
          let s :=
            mk_surface client surface_resource role_none [] false false 0
              None 0 [] false (mk_box 0 0 0 0) (mk_box 0 0 0 0) in
          let base :=
            mk_wlr_surface (has_buffer base) (current_width base)
              (current_height base) (Some self)
              (destroy_listeners base ++ [self]) in
          let c :=
            mk_client (wl_client c) (self :: surfaces c) (ping_serial c)
              (ping_timer c) in
          Some (set_xdg_clients (<[client := c]> (xdg_clients w))
                  (set_wlr_surfaces
                     (<[surface_resource := base]> (wlr_surfaces w))
                     (set_xdg_surfaces (<[self := s]> (xdg_surfaces w)) w)),
                [])
  end.

(** ** Ping and pong *)

(** [wlr_xdg_surface_ping]. *)
Definition wlr_xdg_surface_ping (w : xdg_world) (self : ptr)
  : option (xdg_world * list event) :=
  s ← xdg_surfaces w !! self;
  c ← xdg_clients w !! client s;
  if negb (ping_serial c =? 0) then Some (w, [])
  else
    let '(serial, d) := wl_display_next_serial (display w) in
    _ ← ping_timer c;
    let c := mk_client (wl_client c) (surfaces c) serial
               (Some (ping_timeout w)) in
    Some (set_xdg_clients (<[client s := c]> (xdg_clients w))
            (set_display d w),
          [xdg_wm_base_send_ping (xdg_client_resource (client s)) serial]).

(** [xdg_shell_pong]. *)
Definition xdg_shell_pong (w : xdg_world) (client : ptr) (serial : uint32_t)
  : option (xdg_world * list event) :=
  c ← xdg_clients w !! client;
  if negb (ping_serial c =? serial) then Some (w, [])
  else
    _ ← ping_timer c;
    let c := mk_client (wl_client c) (surfaces c) 0 (Some 0) in
    Some (set_xdg_clients (<[client := c]> (xdg_clients w)) w, []).


(** ** Requests and calls on the shell *)

(** Running a handler of one surface on the surface stored at [self]. *)
Definition on_surface (w : xdg_world) (self : ptr)
    (f : wlr_xdg_surface -> option (wlr_xdg_surface * list event))
  : option (xdg_world * list event) :=
  s ← xdg_surfaces w !! self;
  '(s, evs) ← f s;
  Some (set_xdg_surfaces (<[self := s]> (xdg_surfaces w)) w, evs).

(** Running a handler that also reads the underlying surface and uses the
    display. *)
Definition on_surface_display (w : xdg_world) (self : ptr)
    (f : wlr_surface -> wlr_xdg_surface -> wl_display ->
         option (wlr_xdg_surface * wl_display * list event))
  : option (xdg_world * list event) :=
  s ← xdg_surfaces w !! self;
  base ← wlr_surfaces w !! surface s;
  '(s, d, evs) ← f base s (display w);
  Some (set_display d (set_xdg_surfaces (<[self := s]> (xdg_surfaces w)) w),
        evs).

(** The client requests of the interface tables ([xdg_shell_impl],
    [xdg_surface_implementation], [xdg_toplevel_implementation],
    [xdg_popup_implementation]), the commit callback, the compositor's
    calls, and the event loop running its first idle source (it calls the
    source's callback and then removes the source), as far as they are
    modelled. A request carries the outcomes of the allocations its handler
    makes. *)
Inductive xdg_request :=
| get_xdg_surface (a : surface_alloc) (client surface_resource : ptr)
| pong (client : ptr) (serial : uint32_t)
| surface_destroy (calloc_ok : bool) (self : ptr)
| ack_configure (self : ptr) (serial : uint32_t)
| set_window_geometry (self : ptr) (x y width height : int32_t)
| surface_committed (self : ptr)
| set_max_size (self : ptr) (width height : int32_t)
| set_min_size (self : ptr) (width height : int32_t)
| set_maximized (self : ptr)
| unset_maximized (self : ptr)
| set_fullscreen (self : ptr) (output : option ptr)
| unset_fullscreen (self : ptr)
| set_minimized (self : ptr)
| popup_grab (calloc_ok : bool) (self seat : ptr) (serial : uint32_t)
| dispatch_idle (calloc_ok : bool) (array_add_ok : nat -> bool)
| toplevel_set_size (self : ptr) (width height : uint32_t)
| toplevel_set_activated (self : ptr) (activated : bool)
| toplevel_set_maximized (self : ptr) (maximized : bool)
| toplevel_set_fullscreen (self : ptr) (fullscreen : bool)
| toplevel_set_resizing (self : ptr) (resizing : bool)
| surface_ping (self : ptr).

Definition without_events {A B : Type} (r : option (A * B * uint32_t))
  : option (A * B * list event) :=
  '(a, b, _) ← r; Some (a, b, []).

Definition xdg_shell_dispatch (r : xdg_request) (w : xdg_world)
  : option (xdg_world * list event) :=
  match r with
  | get_xdg_surface a client surface_resource =>
      xdg_shell_get_xdg_surface a w client surface_resource
  | pong client serial => xdg_shell_pong w client serial
  | surface_destroy calloc_ok self => xdg_surface_destroy calloc_ok w self
  | ack_configure self serial =>
      on_surface w self
        (fun s => Some (xdg_surface_ack_configure self s serial))
  | set_window_geometry self x y width height =>
      on_surface w self
        (fun s =>
           Some (xdg_surface_set_window_geometry self s x y width height))
  | surface_committed self =>
      on_surface_display w self (handle_wlr_surface_committed self)
  | set_max_size self width height =>
      on_surface w self
        (fun s => xdg_toplevel_protocol_set_max_size self s width height)
  | set_min_size self width height =>
      on_surface w self
        (fun s => xdg_toplevel_protocol_set_min_size self s width height)
  | set_maximized self =>
      on_surface w self (xdg_toplevel_protocol_set_maximized self)
  | unset_maximized self =>
      on_surface w self (xdg_toplevel_protocol_unset_maximized self)
  | set_fullscreen self output =>
      on_surface w self
        (fun s => xdg_toplevel_protocol_set_fullscreen self s output)
  | unset_fullscreen self =>
      on_surface w self (xdg_toplevel_protocol_unset_fullscreen self)
  | set_minimized self =>
      on_surface w self (xdg_toplevel_protocol_set_minimized self)
  | popup_grab calloc_ok self seat serial =>
      xdg_popup_protocol_grab calloc_ok w self seat serial
  | dispatch_idle calloc_ok array_add_ok =>
      match idle (display w) with
      | [] => Some (w, [])
      | (source, self) :: _ =>
          '(w, evs) ←
            on_surface w self
              (wlr_xdg_surface_send_configure calloc_ok array_add_ok self);
          Some (set_display (wl_event_source_remove (display w) source) w,
                evs)
      end
  | toplevel_set_size self width height =>
      on_surface_display w self
        (fun base s d =>
           without_events
             (wlr_xdg_toplevel_set_size width height self base s d))
  | toplevel_set_activated self activated =>
      on_surface_display w self
        (fun base s d =>
           without_events
             (wlr_xdg_toplevel_set_activated activated self base s d))
  | toplevel_set_maximized self maximized =>
      on_surface_display w self
        (fun base s d =>
           without_events
             (wlr_xdg_toplevel_set_maximized maximized self base s d))
  | toplevel_set_fullscreen self fullscreen =>
      on_surface_display w self
        (fun base s d =>
           without_events
             (wlr_xdg_toplevel_set_fullscreen fullscreen self base s d))
  | toplevel_set_resizing self resizing =>
      on_surface_display w self
        (fun base s d =>
           without_events
             (wlr_xdg_toplevel_set_resizing resizing self base s d))
  | surface_ping self => wlr_xdg_surface_ping w self
  end.

(** Requests handled one after the other, their events in order. *)
Fixpoint xdg_shell_run (rs : list xdg_request) (w : xdg_world)
  : option (xdg_world * list event) :=
  match rs with
  | [] => Some (w, [])
  | r :: rs =>
      '(w, evs) ← xdg_shell_dispatch r w;
      '(w, evs') ← xdg_shell_run rs w;
      Some (w, evs ++ evs')
  end.


(** ** Statements about the configure handshake *)

Definition invalid_surface_state (s : wlr_xdg_surface) : event :=
  wl_resource_post_error (xdg_client_resource (client s))
    XDG_WM_BASE_ERROR_INVALID_SURFACE_STATE.

(** What acknowledging [serial] does to the queue [discarded ++ rest], where
    [discarded] are the entries the walk drops and [rest] starts with the
    entry that ends it. *)
Definition ack_configure_outcome (self : ptr) (s : wlr_xdg_surface)
    (serial : uint32_t) (discarded rest : list wlr_xdg_surface_configure)
  : Prop :=
  let '(s', evs) := xdg_surface_ack_configure self s serial in
  match rest with
  | configure :: rest' =>
      if cfg_serial configure =? serial then
        evs = [] /\ configure_list s' = rest' /\
        configured s' = true /\ configure_serial s' = serial
      else
        evs = [invalid_surface_state s] /\ configure_list s' = rest /\
        configured s' = configured s /\
        configure_serial s' = configure_serial s
  | [] =>
      evs = [invalid_surface_state s] /\ configure_list s' = [] /\
      configured s' = configured s /\
      configure_serial s' = configure_serial s
  end.

Definition ack_configure_spec (self : ptr) (s : wlr_xdg_surface)
    (serial : uint32_t) : Prop :=
  exists discarded rest,
    configure_list s = discarded ++ rest /\
    Forall (fun c => cfg_serial c < serial) discarded /\
    (forall c rest', rest = c :: rest' -> serial <= cfg_serial c) /\
    ack_configure_outcome self s serial discarded rest /\
    ((forall c, In c (configure_list s) -> cfg_serial c <> serial) ->
     snd (xdg_surface_ack_configure self s serial) = [invalid_surface_state s]
     /\ configure_list (fst (xdg_surface_ack_configure self s serial)) = rest).

(** The four flags of two toplevel states agree. *)
Definition same_flags (a b : wlr_xdg_toplevel_state) : Prop :=
  st_activated a = st_activated b /\ st_fullscreen a = st_fullscreen b /\
  st_maximized a = st_maximized b /\ st_resizing a = st_resizing b.

(** What [wlr_xdg_surface_schedule_configure] does, given the value [same]
    of its [pending_same] flag. *)
Definition schedule_configure_outcome (self : ptr) (s : wlr_xdg_surface)
    (d : wl_display) (same : bool)
  : wlr_xdg_surface * wl_display * uint32_t :=
  match configure_idle s, same with
  | Some source, false => (s, d, configure_next_serial s)
  | Some source, true =>
      (set_configure_idle None s,
       mk_display (display_serial d)
         (filter (fun e => fst e <> source) (idle d)) (next_source d),
       0)
  | None, true => (s, d, 0)
  | None, false =>
      let serial := to_uint32 (display_serial d + 1) in
      (set_configure_idle (Some (next_source d))
         (set_configure_next_serial serial s),
       mk_display serial (idle d ++ [(next_source d, self)])
         (Pos.succ (next_source d)),
       serial)
  end.

Definition schedule_configure_spec (self : ptr) (base : wlr_surface)
    (s : wlr_xdg_surface) (d : wl_display) : Prop :=
  exists same : bool,
    pending_same base s = Some same /\
    wlr_xdg_surface_schedule_configure self base s d
      = Some (schedule_configure_outcome self s d same) /\
    (role s = WLR_XDG_SURFACE_ROLE_POPUP -> same = false) /\
    (configured s = false -> same = false) /\
    (forall t configure,
        role_data s = role_toplevel t -> configured s = true ->
        last (configure_list s) = Some configure ->
        (same = true <->
         same_flags (pending t) (cfg_state configure) /\
         ((st_width (pending t) = st_width (cfg_state configure) /\
           st_height (pending t) = st_height (cfg_state configure))
          \/ (st_width (pending t) = 0 /\ st_height (pending t) = 0)))).

(** The comparison as the specification words it, for a configured toplevel
    with an empty queue: the pending state against the current state joined
    with the pixel dimensions of the underlying surface, width against
    width and height against height, a pending (0,0) counting as same. *)
Definition toplevel_state_compare_spec (base : wlr_surface)
    (state : wlr_xdg_toplevel) : bool :=
  Bool.eqb (st_activated (pending state)) (st_activated (current state))
  && Bool.eqb (st_fullscreen (pending state)) (st_fullscreen (current state))
  && Bool.eqb (st_maximized (pending state)) (st_maximized (current state))
  && Bool.eqb (st_resizing (pending state)) (st_resizing (current state))
  && (((st_width (pending state) =? to_uint32 (current_width base))
       && (st_height (pending state) =? to_uint32 (current_height base)))
      || ((st_width (pending state) =? 0)
          && (st_height (pending state) =? 0))).



(** ** Example objects *)

Definition state_800x600 : wlr_xdg_toplevel_state :=
  mk_toplevel_state false false false false 800 600 0 0 0 0.

Definition configure_n (n : uint32_t) : wlr_xdg_surface_configure :=
  mk_configure n state_800x600.

(** A toplevel that was never configured and has nothing pending. *)
Definition toplevel_fresh : wlr_xdg_toplevel :=
  mk_toplevel None false zero_toplevel_state zero_toplevel_state
    zero_toplevel_state.

Definition surface_fresh : wlr_xdg_surface :=
  mk_surface 10 101 (role_toplevel toplevel_fresh) [] false false 0 None 0 []
    false (mk_box 0 0 0 0) (mk_box 0 0 0 0).

(** A configured toplevel with the configures 3, 4 and 5 outstanding. *)
Definition surface_345 : wlr_xdg_surface :=
  mk_surface 10 101 (role_toplevel toplevel_fresh) [] true true 2 None 5
    [configure_n 3; configure_n 4; configure_n 5]
    false (mk_box 0 0 0 0) (mk_box 0 0 800 600).

(** A configured toplevel with an empty queue whose pending size is the size
    of its committed buffer, 800 by 600. *)
Definition toplevel_800x600 : wlr_xdg_toplevel :=
  mk_toplevel None true state_800x600 state_800x600 state_800x600.

Definition surface_800x600 : wlr_xdg_surface :=
  mk_surface 10 101 (role_toplevel toplevel_800x600) [] true true 2 None 2 []
    false (mk_box 0 0 0 0) (mk_box 0 0 800 600).

(** The same toplevel asked to become 800 by 800. *)
Definition toplevel_800x800 : wlr_xdg_toplevel :=
  mk_toplevel None true state_800x600 (set_st_size 800 800 state_800x600)
    state_800x600.

Definition surface_800x800 : wlr_xdg_surface :=
  set_role_data (role_toplevel toplevel_800x800) surface_800x600.

Definition base_empty : wlr_surface :=
  mk_wlr_surface false 0 0 (Some 1%positive) [1%positive].
Definition base_800x600 : wlr_surface :=
  mk_wlr_surface true 800 600 (Some 1%positive) [1%positive].

Definition display_0 : wl_display := mk_display 0 [] 1%positive.

(** A toplevel whose pending width is 0 and whose pending height is 600. *)
Definition toplevel_0x600 : wlr_xdg_toplevel :=
  mk_toplevel None true state_800x600
    (mk_toplevel_state false false false false 0 600 0 0 0 0) state_800x600.

Definition surface_0x600 : wlr_xdg_surface :=
  mk_surface 10 101 (role_toplevel toplevel_0x600) [] true true 2 None 2 []
    false (mk_box 0 0 0 0) (mk_box 0 0 800 480).




(** ** Statements about the toplevel requests *)

(** The request [r] on the toplevel [t] of the surface [s] succeeded, emitted
    [evs], rewrote [next] with [f] and left [pending] and [current] alone. *)
Definition updates_next_only (s : wlr_xdg_surface) (t : wlr_xdg_toplevel)
    (f : wlr_xdg_toplevel_state -> wlr_xdg_toplevel_state)
    (evs : list event) (r : option (wlr_xdg_surface * list event)) : Prop :=
  exists s' t',
    r = Some (s', evs) /\ role_data s' = role_toplevel t' /\
    next t' = f (next t) /\ pending t' = pending t /\ current t' = current t.

Definition state_requests_spec (self : ptr) (s : wlr_xdg_surface)
    (t : wlr_xdg_toplevel) : Prop :=
  updates_next_only s t (set_st_maximized true)
    [wlr_signal_emit_safe (events_request_maximize self)]
    (xdg_toplevel_protocol_set_maximized self s) /\
  updates_next_only s t (set_st_maximized false)
    [wlr_signal_emit_safe (events_request_maximize self)]
    (xdg_toplevel_protocol_unset_maximized self s) /\
  (forall output,
     updates_next_only s t (set_st_fullscreen true)
       [wlr_signal_emit_safe (events_request_fullscreen self true output)]
       (xdg_toplevel_protocol_set_fullscreen self s output)) /\
  updates_next_only s t (set_st_fullscreen false)
    [wlr_signal_emit_safe (events_request_fullscreen self false None)]
    (xdg_toplevel_protocol_unset_fullscreen self s) /\
  (forall width height,
     updates_next_only s t
       (set_st_max_size (to_uint32 width) (to_uint32 height)) []
       (xdg_toplevel_protocol_set_max_size self s width height)) /\
  (forall width height,
     updates_next_only s t
       (set_st_min_size (to_uint32 width) (to_uint32 height)) []
       (xdg_toplevel_protocol_set_min_size self s width height)) /\
  xdg_toplevel_protocol_set_minimized self s
    = Some (s, [wlr_signal_emit_safe (events_request_minimize self)]).


(** ** Example shell: a toplevel and two nested popups *)

(** The toplevel T at address 1, the popup P1 at 2 with parent T and the
    popup P2 at 3 with parent P1, all of the client at 10, over the
    underlying surfaces 101, 102 and 103; one seat at 20; no grab yet. T is
    configured, the popups are not, and the surfaces 101 and 103 have a
    buffer, as has 104, which has no xdg_surface. *)
Definition surface_T : wlr_xdg_surface :=
  mk_surface 10%positive 101%positive (role_toplevel toplevel_800x600)
    [2%positive] true true 2 None 2 [] false (mk_box 0 0 0 0)
    (mk_box 0 0 800 600).

Definition popup_of (parent : ptr) : wlr_xdg_popup :=
  mk_popup parent false None (mk_box 45 45 10 10).

Definition surface_P1 : wlr_xdg_surface :=
  mk_surface 10%positive 102%positive (role_popup (popup_of 1%positive))
    [3%positive] false false 0 None 0 [] false (mk_box 0 0 0 0)
    (mk_box 0 0 0 0).

Definition surface_P2 : wlr_xdg_surface :=
  mk_surface 10%positive 103%positive (role_popup (popup_of 2%positive))
    [] false false 0 None 0 [] false (mk_box 0 0 0 0) (mk_box 0 0 0 0).

Definition base_of (self : ptr) (buffer : bool) : wlr_surface :=
  mk_wlr_surface buffer 0 0 (Some self) [self].

Definition client_10 : wlr_xdg_client :=
  mk_client 11%positive [3%positive; 2%positive; 1%positive] 0 (Some 0).

Definition world_0 : xdg_world :=
  mk_world
    {[ 1%positive := surface_T; 2%positive := surface_P1;
       3%positive := surface_P2 ]}
    {[ 101%positive := base_of 1 true; 102%positive := base_of 2 false;
       103%positive := base_of 3 true; 104%positive := base_of 4 true ]}
    {[ 10%positive := client_10 ]}
    {[ 20%positive := mk_seat default_grab default_grab ]}
    [] 10000 display_0.

(** The same shell while a ping with serial 7 is outstanding. *)
Definition world_pinged : xdg_world :=
  set_xdg_clients
    {[ 10%positive :=
         mk_client 11%positive [3%positive; 2%positive; 1%positive] 7
           (Some 10000) ]}
    world_0.


(** A shell with one client whose only surface is the fresh toplevel. *)
Definition world_fresh : xdg_world :=
  mk_world {[ 1%positive := surface_fresh ]} {[ 101%positive := base_empty ]}
    {[ 10%positive := mk_client 11%positive [1%positive] 0 (Some 0) ]}
    ∅ [] 10000 display_0.

(** ** Statements about popup grabs *)

(** The popups of the seat's chain, topmost first; none when the shell has
    no chain for the seat. *)
Definition chain_popups (grabs : list wlr_xdg_popup_grab) (seat : ptr)
  : list ptr :=
  match popup_grab_lookup grabs seat with
  | Some grab => grab_popups grab
  | None => []
  end.


Definition not_the_topmost_popup (s : wlr_xdg_surface) : event :=
  wl_resource_post_error (xdg_client_resource (client s))
    XDG_WM_BASE_ERROR_NOT_THE_TOPMOST_POPUP.


(** The seat's chain can be had: it exists or its allocation succeeds. *)
Definition chain_available (calloc_ok : bool) (w : xdg_world) (seat : ptr)
  : Prop :=
  calloc_ok = true \/ is_Some (popup_grab_lookup (popup_grabs w) seat).



(** ** Statements about destroying popups *)

(** The popup at [self] with state [p] is alive at the surface [s], holds
    a grab of [seat], and its client, its underlying surface and its parent
    are alive. *)
Definition live_grabbed_popup (w : xdg_world) (seat self : ptr)
    (s : wlr_xdg_surface) (p : wlr_xdg_popup) : Prop :=
  xdg_surfaces w !! self = Some s /\ role_data s = role_popup p /\
  popup_seat p = Some seat /\
  is_Some (xdg_clients w !! client s) /\
  is_Some (wlr_surfaces w !! surface s) /\
  is_Some (xdg_surfaces w !! popup_parent p).

(** The popups of [l] are the seat's chain, topmost first, each a live
    popup holding a grab of the seat whose parent is not above it in the
    chain. *)
Definition chain_wf (w : xdg_world) (seat : ptr) (l : list ptr) : Prop :=
  chain_popups (popup_grabs w) seat = l /\
  NoDup l /\
  is_Some (seats w !! seat) /\
  forall above q below, l = above ++ q :: below ->
    exists s p,
      live_grabbed_popup w seat q s p /\ ~ In (popup_parent p) above.

Definition is_not_the_topmost_popup (e : event) : Prop :=
  exists resource,
    e = wl_resource_post_error resource XDG_WM_BASE_ERROR_NOT_THE_TOPMOST_POPUP.

Definition popup_destroy_spec (calloc_ok : bool) : Prop :=
  (forall w self s p seat,
     live_grabbed_popup w seat self s p ->
     is_Some (seats w !! seat) ->
     chain_available calloc_ok w seat ->
     head (chain_popups (popup_grabs w) seat) <> Some self ->
     exists w' evs,
       xdg_surface_destroy calloc_ok w self = Some (w', evs) /\
       In (not_the_topmost_popup s) evs) /\
  (forall w seat l,
     chain_wf w seat l ->
     exists w' evs,
       xdg_surface_destroy_all calloc_ok w l = Some (w', evs) /\
       (forall e, In e evs -> ~ is_not_the_topmost_popup e) /\
       chain_popups (popup_grabs w') seat = []).

(** The example shell after P1 and then P2 took a grab of the seat. *)
Definition popup_grabbed (parent : ptr) : wlr_xdg_popup :=
  mk_popup parent false (Some 20%positive) (mk_box 45 45 10 10).

Definition world_grabbed : xdg_world :=
  mk_world
    {[ 1%positive := surface_T;
       2%positive := set_role_data (role_popup (popup_grabbed 1)) surface_P1;
       3%positive := set_role_data (role_popup (popup_grabbed 2)) surface_P2 ]}
    (wlr_surfaces world_0) (xdg_clients world_0)
    {[ 20%positive :=
         mk_seat (xdg_popup_grab 20%positive) (xdg_popup_grab 20%positive) ]}
    [mk_popup_grab (Some 11%positive) 20%positive [3%positive; 2%positive]]
    10000 display_0.


(** ** Statements about buffers on unconfigured surfaces *)

Definition unconfigured_buffer (resource : wl_resource) : event :=
  wl_resource_post_error resource XDG_SURFACE_ERROR_UNCONFIGURED_BUFFER.

(** The two situations in which a buffer is rejected: an xdg_surface is
    created (its allocations succeeding) over an underlying surface that has
    a buffer, which is an error on that surface's resource; a surface that
    is not configured is committed with a buffer, which is an error on the
    xdg_surface's resource. *)
Definition buffer_rejected (r : xdg_request) (w : xdg_world)
    (resource : wl_resource) : Prop :=
  match r with
  | get_xdg_surface a client surface_resource =>
      is_Some (alloc_surface a) /\ alloc_geometry a = true /\
      alloc_next_geometry a = true /\ alloc_resource a = true /\
      exists base,
        wlr_surfaces w !! surface_resource = Some base /\
        has_buffer base = true /\
        resource = wl_surface_resource surface_resource
  | surface_committed self =>
      exists s base,
        xdg_surfaces w !! self = Some s /\
        wlr_surfaces w !! surface s = Some base /\
        has_buffer base = true /\ configured s = false /\
        resource = xdg_surface_resource self
  | _ => False
  end.

(** In the two situations the error is all that happens; nothing else
    posts the error; and a surface only becomes configured by an
    ack_configure on it. *)
Definition unconfigured_buffer_spec : Prop :=
  (forall r w resource,
     buffer_rejected r w resource ->
     xdg_shell_dispatch r w = Some (w, [unconfigured_buffer resource])) /\
  (forall r w w' evs resource,
     xdg_shell_dispatch r w = Some (w', evs) ->
     In (unconfigured_buffer resource) evs ->
     buffer_rejected r w resource) /\
  (forall r w w' evs self s s',
     xdg_shell_dispatch r w = Some (w', evs) ->
     xdg_surfaces w !! self = Some s ->
     xdg_surfaces w' !! self = Some s' ->
     configured s = false -> configured s' = true ->
     exists serial, r = ack_configure self serial).

(** * Further definitions *)

(** ** Statements about the order of the queue *)

(** The serials of a queue grow strictly from its head. *)
Definition queue_increasing (l : list wlr_xdg_surface_configure) : Prop :=
  StronglySorted (fun a b => cfg_serial a < cfg_serial b) l.

(** The entries of a queue that come after [serial]. *)
Definition later_than (serial : uint32_t)
    (l : list wlr_xdg_surface_configure) : list wlr_xdg_surface_configure :=
  filter (fun c => serial < cfg_serial c) l.

(** Acknowledging [serial] on an increasing queue: no error exactly when
    the serial is outstanding, and in either case the entries after
    [serial] are what is left. *)
Definition ack_increasing_spec (self : ptr) (s : wlr_xdg_surface)
    (serial : uint32_t) : Prop :=
  let '(s', evs) := xdg_surface_ack_configure self s serial in
  (evs = [] \/ evs = [invalid_surface_state s]) /\
  (evs = [] <->
   exists c, In c (configure_list s) /\ cfg_serial c = serial) /\
  configure_list s' = later_than serial (configure_list s) /\
  queue_increasing (configure_list s') /\
  role s' = role s.

(** ** Statements about scheduling and the handshake *)

(** [wlr_xdg_surface_schedule_configure] called [n] times in a row, as
    within one turn of the event loop. *)
Fixpoint schedule_configure_times (n : nat) (self : ptr) (base : wlr_surface)
    (s : wlr_xdg_surface) (d : wl_display)
  : option (wlr_xdg_surface * wl_display) :=
  match n with
  | O => Some (s, d)
  | S n =>
      '(s, d, _) ← wlr_xdg_surface_schedule_configure self base s d;
      schedule_configure_times n self base s d
  end.

(** No idle source of the display has the address the next one will get. *)
Definition next_source_fresh (d : wl_display) : Prop :=
  Forall (fun e => fst e <> next_source d) (idle d).

(** A size is set and then set back to [w0] by [h0], with no idle task
    pending before: the first call reserves the next serial and adds the
    idle task, the second cancels it and returns 0; the queue, the role
    state and the idle sources are as they were. *)
Definition set_size_undone_spec (self : ptr) (base : wlr_surface)
    (s : wlr_xdg_surface) (d : wl_display) (w h w0 h0 : uint32_t) : Prop :=
  exists s1 d1 s2 d2,
    wlr_xdg_toplevel_set_size w h self base s d
    = Some (s1, d1, to_uint32 (display_serial d + 1)) /\
    idle d1 = idle d ++ [(next_source d, self)] /\
    wlr_xdg_toplevel_set_size w0 h0 self base s1 d1 = Some (s2, d2, 0) /\
    role_data s2 = role_data s /\ configure_idle s2 = None /\
    configure_list s2 = configure_list s /\ idle d2 = idle d.

(** A configure is sent by the idle task, acknowledged with its serial and
    committed with a buffer: the pending state of the time it was sent is
    the current state, and the queue is empty. *)
Definition handshake_spec (array_add_ok : nat -> bool) (self : ptr)
    (base : wlr_surface) (s : wlr_xdg_surface) (t : wlr_xdg_toplevel)
    (d : wl_display) : Prop :=
  exists s1 evs1 s2 s3 evs3 t3,
    wlr_xdg_surface_send_configure true array_add_ok self s = Some (s1, evs1)
    /\ xdg_surface_ack_configure self s1 (configure_next_serial s) = (s2, [])
    /\ handle_wlr_surface_committed self base s2 d = Some (s3, d, evs3)
    /\ role_data s3 = role_toplevel t3
    /\ current t3 = pending t /\ next t3 = pending t
    /\ pending t3 = set_st_size 0 0 (pending t)
    /\ configure_list s3 = [] /\ configured s3 = true
    /\ configure_serial s3 = configure_next_serial s.

(** The window geometry is set and the surface committed: the request
    leaves the geometry alone, a commit that is not rejected applies it,
    and a rejected commit keeps it for the next one. *)
Definition window_geometry_spec (self : ptr) (base : wlr_surface)
    (s : wlr_xdg_surface) (d : wl_display) (x y width height : int32_t)
  : Prop :=
  exists s1,
    xdg_surface_set_window_geometry self s x y width height = (s1, []) /\
    geometry s1 = geometry s /\
    (has_buffer base && negb (configured s) = true ->
     exists evs,
       handle_wlr_surface_committed self base s1 d = Some (s1, d, evs) /\
       has_next_geometry s1 = true /\
       next_geometry s1 = mk_box x y width height) /\
    (has_buffer base && negb (configured s) = false ->
     exists s2 d2 evs,
       handle_wlr_surface_committed self base s1 d = Some (s2, d2, evs) /\
       geometry s2 = mk_box x y width height /\
       has_next_geometry s2 = false).


(** ** The invariant of the configure queues *)

(** The queue of a surface against the display: the serials grow strictly
    and were all handed out by the display; while an idle task is pending,
    the serial reserved for it was handed out too and is greater than every
    serial in the queue. *)
Definition surface_queue_inv (s : wlr_xdg_surface) (d : wl_display) : Prop :=
  queue_increasing (configure_list s) /\
  Forall (fun c => cfg_serial c <= display_serial d) (configure_list s) /\
  (is_Some (configure_idle s) ->
   Forall (fun c => cfg_serial c < configure_next_serial s)
     (configure_list s) /\
   configure_next_serial s <= display_serial d).

(** The idle sources of the event loop have distinct addresses below the
    address of the next source. *)
Definition sources_wf (d : wl_display) : Prop :=
  NoDup (fst <$> idle d) /\
  Forall (fun e => (fst e < next_source d)%positive) (idle d).

(** Every surface keeps [surface_queue_inv], and every idle source is the
    pending idle task of the live surface it was added for. *)
Definition queue_inv_on (m : gmap ptr wlr_xdg_surface) (d : wl_display)
  : Prop :=
  0 <= display_serial d /\
  sources_wf d /\
  (forall self s, m !! self = Some s -> surface_queue_inv s d) /\
  (forall source self, In (source, self) (idle d) ->
     exists s, m !! self = Some s /\ configure_idle s = Some source).

(** The invariant on the surfaces and the display of a shell. *)
Definition world_queue_inv (w : xdg_world) : Prop :=
  queue_inv_on (xdg_surfaces w) (display w).

(** How a handler of one surface may move the queue fields and the display:
    not at all, by cancelling the idle task, or by reserving a serial and
    adding an idle task. *)
Definition queue_step (self : ptr) (s : wlr_xdg_surface) (d : wl_display)
    (s' : wlr_xdg_surface) (d' : wl_display) : Prop :=
  configure_list s' = configure_list s /\
  ((configure_idle s' = configure_idle s /\
    configure_next_serial s' = configure_next_serial s /\ d' = d)
   \/ (exists source,
         configure_idle s = Some source /\ configure_idle s' = None /\
         configure_next_serial s' = configure_next_serial s /\
         d' = wl_event_source_remove d source)
   \/ (configure_idle s = None /\
       configure_idle s' = Some (next_source d) /\
       configure_next_serial s' = to_uint32 (display_serial d + 1) /\
       d' = mk_display (to_uint32 (display_serial d + 1))
              (idle d ++ [(next_source d, self)])
              (Pos.succ (next_source d)))).

(** The surface a request creates, if its allocation succeeds, is at an
    address that holds no surface. *)
Definition fresh_surface (r : xdg_request) (w : xdg_world) : Prop :=
  match r with
  | get_xdg_surface a _ _ =>
      match alloc_surface a with
      | Some self => xdg_surfaces w !! self = None
      | None => True
      end
  | _ => True
  end.

(** The idle sources added for the surface at [self]. *)
Definition idle_tasks_of (self : ptr) (d : wl_display) : list (ptr * ptr) :=
  filter (fun e => snd e = self) (idle d).

(** The shell after a request, or the shell itself when the handler does
    not return. *)
Definition dispatched (r : xdg_request) (w : xdg_world) : xdg_world :=
  match xdg_shell_dispatch r w with
  | Some (w', _) => w'
  | None => w
  end.

(** The compositor resizes the toplevel of [world_0]. *)
Definition world_resized : xdg_world :=
  dispatched (toplevel_set_size 1 1024 768) world_0.


(** ** Statements about commits *)

(** What a change of the current state of a toplevel tells: the request was
    a commit of this surface, which was configured and had a buffer, and
    the new current state is the next state. *)
Definition current_by_commit_spec (r : xdg_request) (w : xdg_world)
    (self : ptr) (s : wlr_xdg_surface) (t t' : wlr_xdg_toplevel) : Prop :=
  r = surface_committed self /\
  current t' = next t /\ configured s = true /\
  exists base,
    wlr_surfaces w !! surface s = Some base /\ has_buffer base = true.

(** What a new_surface signal tells: the request was a commit of the
    surface the signal names, which was not announced before and is
    announced and configured after it. *)
Definition new_surface_by_commit_spec (r : xdg_request) (w w' : xdg_world)
    (x : ptr) : Prop :=
  r = surface_committed x /\
  exists s s',
    xdg_surfaces w !! x = Some s /\ added s = false /\
    xdg_surfaces w' !! x = Some s' /\ added s' = true /\
    configured s' = true.

(** An announced surface is not announced again and stays announced. *)
Definition announced_once_spec (w' : xdg_world) (evs : list event)
    (self : ptr) : Prop :=
  ~ In (wlr_signal_emit_safe (events_new_surface self)) evs /\
  forall s', xdg_surfaces w' !! self = Some s' -> added s' = true.

(** The toplevel of [world_0] after a set_maximized request: its next state
    is maximized, its current state is not. *)
Definition world_maximizing : xdg_world :=
  dispatched (set_maximized 1) world_0.

(** The toplevel state of that surface. *)
Definition toplevel_maximizing : wlr_xdg_toplevel :=
  set_next (set_st_maximized true state_800x600) toplevel_800x600.

(** The fresh toplevel of [world_fresh] after its first commit, the idle
    task that sends the first configure, and the ack of that configure. *)
Definition world_acked : xdg_world :=
  dispatched (ack_configure 1 1)
    (dispatched (dispatch_idle true (fun _ => true))
       (dispatched (surface_committed 1) world_fresh)).


(** ** The positioner requests *)

(** Modelled from the spec: the values of the enumerations
    [xdg_positioner_anchor] and [xdg_positioner_gravity] come from the
    generated protocol header xdg-shell-protocol.h, which is not part of
    the sources. They count from 0 in the order of the declaration, the
    BOTTOM_RIGHT enumerators being the greatest. *)
Definition anchor_value (a : xdg_positioner_anchor) : uint32_t :=
  match a with
  | XDG_POSITIONER_ANCHOR_NONE => 0
  | XDG_POSITIONER_ANCHOR_TOP => 1
  | XDG_POSITIONER_ANCHOR_BOTTOM => 2
  | XDG_POSITIONER_ANCHOR_LEFT => 3
  | XDG_POSITIONER_ANCHOR_RIGHT => 4
  | XDG_POSITIONER_ANCHOR_TOP_LEFT => 5
  | XDG_POSITIONER_ANCHOR_BOTTOM_LEFT => 6
  | XDG_POSITIONER_ANCHOR_TOP_RIGHT => 7
  | XDG_POSITIONER_ANCHOR_BOTTOM_RIGHT => 8
  end.

Definition gravity_value (g : xdg_positioner_gravity) : uint32_t :=
  match g with
  | XDG_POSITIONER_GRAVITY_NONE => 0
  | XDG_POSITIONER_GRAVITY_TOP => 1
  | XDG_POSITIONER_GRAVITY_BOTTOM => 2
  | XDG_POSITIONER_GRAVITY_LEFT => 3
  | XDG_POSITIONER_GRAVITY_RIGHT => 4
  | XDG_POSITIONER_GRAVITY_TOP_LEFT => 5
  | XDG_POSITIONER_GRAVITY_BOTTOM_LEFT => 6
  | XDG_POSITIONER_GRAVITY_TOP_RIGHT => 7
  | XDG_POSITIONER_GRAVITY_BOTTOM_RIGHT => 8
  end.

(** The enumerator that a [uint32_t] of the wire is when it is stored in a
    field of the enumeration type. *)
Definition anchor_of_value (n : uint32_t) : option xdg_positioner_anchor :=
  List.find (fun a => anchor_value a =? n)
    [XDG_POSITIONER_ANCHOR_NONE; XDG_POSITIONER_ANCHOR_TOP;
     XDG_POSITIONER_ANCHOR_BOTTOM; XDG_POSITIONER_ANCHOR_LEFT;
     XDG_POSITIONER_ANCHOR_RIGHT; XDG_POSITIONER_ANCHOR_TOP_LEFT;
     XDG_POSITIONER_ANCHOR_BOTTOM_LEFT; XDG_POSITIONER_ANCHOR_TOP_RIGHT;
     XDG_POSITIONER_ANCHOR_BOTTOM_RIGHT].

Definition gravity_of_value (n : uint32_t) : option xdg_positioner_gravity :=
  List.find (fun g => gravity_value g =? n)
    [XDG_POSITIONER_GRAVITY_NONE; XDG_POSITIONER_GRAVITY_TOP;
     XDG_POSITIONER_GRAVITY_BOTTOM; XDG_POSITIONER_GRAVITY_LEFT;
     XDG_POSITIONER_GRAVITY_RIGHT; XDG_POSITIONER_GRAVITY_TOP_LEFT;
     XDG_POSITIONER_GRAVITY_BOTTOM_LEFT; XDG_POSITIONER_GRAVITY_TOP_RIGHT;
     XDG_POSITIONER_GRAVITY_BOTTOM_RIGHT].

(** Field updates of the positioner. *)
Definition set_positioner_size (w h : int32_t) (p : wlr_xdg_positioner) :=
  mk_positioner (anchor_rect p) (anchor p) (gravity p)
    (constraint_adjustment p) w h (offset_x p) (offset_y p).
Definition set_positioner_anchor_rect (b : wlr_box) (p : wlr_xdg_positioner) :=
  mk_positioner b (anchor p) (gravity p) (constraint_adjustment p)
    (size_width p) (size_height p) (offset_x p) (offset_y p).
Definition set_positioner_anchor (a : xdg_positioner_anchor)
    (p : wlr_xdg_positioner) :=
  mk_positioner (anchor_rect p) a (gravity p) (constraint_adjustment p)
    (size_width p) (size_height p) (offset_x p) (offset_y p).
Definition set_positioner_gravity (g : xdg_positioner_gravity)
    (p : wlr_xdg_positioner) :=
  mk_positioner (anchor_rect p) (anchor p) g (constraint_adjustment p)
    (size_width p) (size_height p) (offset_x p) (offset_y p).
Definition set_positioner_constraint_adjustment (c : uint32_t)
    (p : wlr_xdg_positioner) :=
  mk_positioner (anchor_rect p) (anchor p) (gravity p) c
    (size_width p) (size_height p) (offset_x p) (offset_y p).
Definition set_positioner_offset (x y : int32_t) (p : wlr_xdg_positioner) :=
  mk_positioner (anchor_rect p) (anchor p) (gravity p)
    (constraint_adjustment p) (size_width p) (size_height p) x y.

(** The setters of [xdg_positioner_implementation]. Each returns the
    positioner and the error it posts on the positioner's own resource, if
    any. *)
Definition xdg_positioner_protocol_set_size (positioner : wlr_xdg_positioner)
    (width height : int32_t) : wlr_xdg_positioner * option xdg_error :=
  if (width <? 1) || (height <? 1) then
    (positioner, Some XDG_POSITIONER_ERROR_INVALID_INPUT)
  else (set_positioner_size width height positioner, None).

Definition xdg_positioner_protocol_set_anchor_rect
    (positioner : wlr_xdg_positioner) (x y width height : int32_t)
  : wlr_xdg_positioner * option xdg_error :=
  if (width <? 1) || (height <? 1) then
    (positioner, Some XDG_POSITIONER_ERROR_INVALID_INPUT)
  else
    (set_positioner_anchor_rect (mk_box x y width height) positioner, None).

(** A value that passes the test is the value of an enumerator; a negative
    number, which is no [uint32_t], would be the other case of the match. *)
Definition xdg_positioner_protocol_set_anchor
    (positioner : wlr_xdg_positioner) (anchor : uint32_t)
  : wlr_xdg_positioner * option xdg_error :=
  if anchor_value XDG_POSITIONER_ANCHOR_BOTTOM_RIGHT <? anchor then
    (positioner, Some XDG_POSITIONER_ERROR_INVALID_INPUT)
  else
    match anchor_of_value anchor with
    | Some a => (set_positioner_anchor a positioner, None)
    | None => (positioner, None)
    end.

Definition xdg_positioner_protocol_set_gravity
    (positioner : wlr_xdg_positioner) (gravity : uint32_t)
  : wlr_xdg_positioner * option xdg_error :=
  if gravity_value XDG_POSITIONER_GRAVITY_BOTTOM_RIGHT <? gravity then
    (positioner, Some XDG_POSITIONER_ERROR_INVALID_INPUT)
  else
    match gravity_of_value gravity with
    | Some g => (set_positioner_gravity g positioner, None)
    | None => (positioner, None)
    end.

Definition xdg_positioner_protocol_set_constraint_adjustment
    (positioner : wlr_xdg_positioner) (constraint_adjustment : uint32_t)
  : wlr_xdg_positioner * option xdg_error :=
  (set_positioner_constraint_adjustment constraint_adjustment positioner,
   None).

Definition xdg_positioner_protocol_set_offset
    (positioner : wlr_xdg_positioner) (x y : int32_t)
  : wlr_xdg_positioner * option xdg_error :=
  (set_positioner_offset x y positioner, None).

(** The positioner that [calloc] returns. *)
Definition positioner_zero : wlr_xdg_positioner :=
  mk_positioner (mk_box 0 0 0 0) XDG_POSITIONER_ANCHOR_NONE
    XDG_POSITIONER_GRAVITY_NONE 0 0 0 0 0.

(** [xdg_shell_create_positioner] for the connection [wl_client]: the new
    positioner, or none when one of its two allocations fails. *)
Definition xdg_shell_create_positioner (calloc_ok resource_ok : bool)
    (wl_client : ptr) : option wlr_xdg_positioner * list event :=
  if negb calloc_ok then (None, [wl_client_post_no_memory wl_client])
  else if negb resource_ok then (None, [wl_client_post_no_memory wl_client])
  else (Some positioner_zero, []).

(** The requests on a positioner. *)
Inductive positioner_request :=
| positioner_set_size (width height : int32_t)
| positioner_set_anchor_rect (x y width height : int32_t)
| positioner_set_anchor (anchor : uint32_t)
| positioner_set_gravity (gravity : uint32_t)
| positioner_set_constraint_adjustment (constraint_adjustment : uint32_t)
| positioner_set_offset (x y : int32_t).

Definition xdg_positioner_dispatch (r : positioner_request)
    (positioner : wlr_xdg_positioner)
  : wlr_xdg_positioner * option xdg_error :=
  match r with
  | positioner_set_size width height =>
      xdg_positioner_protocol_set_size positioner width height
  | positioner_set_anchor_rect x y width height =>
      xdg_positioner_protocol_set_anchor_rect positioner x y width height
  | positioner_set_anchor anchor =>
      xdg_positioner_protocol_set_anchor positioner anchor
  | positioner_set_gravity gravity =>
      xdg_positioner_protocol_set_gravity positioner gravity
  | positioner_set_constraint_adjustment constraint_adjustment =>
      xdg_positioner_protocol_set_constraint_adjustment positioner
        constraint_adjustment
  | positioner_set_offset x y =>
      xdg_positioner_protocol_set_offset positioner x y
  end.

(** The requests of a list handled one after the other on a positioner;
    the errors are dropped. *)
Definition xdg_positioner_run (rs : list positioner_request)
    (positioner : wlr_xdg_positioner) : wlr_xdg_positioner :=
  fold_left (fun p r => fst (xdg_positioner_dispatch r p)) rs positioner.

(** ** Assigning a role *)

(** The signals of [surface->events] that the handlers of this part emit,
    with what their event structs carry. *)
Inductive wlr_surface_signal :=
| events_new_popup (parent popup : ptr)
| events_ping_timeout (surface : ptr)
| events_request_move (surface seat : ptr) (serial : uint32_t)
| events_request_resize (surface seat : ptr) (serial edges : uint32_t)
| events_request_show_window_menu (surface seat : ptr) (serial : uint32_t)
    (x y : int32_t).

(** What the handlers of this part do to the outside: an [event] as
    before, or one of the signals above. *)
Inductive xdg_event :=
| ev (e : event)
| signal (sg : wlr_surface_signal).

(** The test of [xdg_surface_get_popup] on the positioner. *)
Definition positioner_incomplete (positioner : wlr_xdg_positioner) : bool :=
  (size_width positioner =? 0) || (box_width (anchor_rect positioner) =? 0).

(** Modelled from the spec: [wlr_surface_set_role] (wlr_surface.c, not
    part of the sources) either assigns the role to the underlying surface
    and returns 0, or posts the error it is given on the resource it is
    given and returns a value other than 0; [set_role_ok] tells which. The
    result is whether the returned value is other than 0, and the
    events. *)
Definition wlr_surface_set_role (set_role_ok : bool)
    (error_resource : wl_resource) (error_code : xdg_error)
  : bool * list xdg_event :=
  if set_role_ok then (false, [])
  else (true, [ev (wl_resource_post_error error_resource error_code)]).

(** [xdg_surface_get_popup] for the surface at [self], the parent at
    [parent] and the positioner; [calloc_ok] and [resource_ok] are the
    outcomes of its two allocations. The handler is modelled on a surface
    that has no role yet: on a surface that has one, the C code overwrites
    the pointer to the role state that other lists still link, a state
    this model has no value for ([None]). [None] is also a dead surface,
    underlying surface or parent. *)
Definition xdg_surface_get_popup (set_role_ok calloc_ok resource_ok : bool)
    (w : xdg_world) (self parent : ptr) (positioner : wlr_xdg_positioner)
  : option (xdg_world * list xdg_event) :=
  s ← xdg_surfaces w !! self;
  if positioner_incomplete positioner then
    Some (w, [ev (wl_resource_post_error (xdg_surface_resource self)
                    XDG_WM_BASE_ERROR_INVALID_POSITIONER)])
  else
    _ ← wlr_surfaces w !! surface s;
    let '(failed, evs) :=
      wlr_surface_set_role set_role_ok (xdg_surface_resource self)
        XDG_WM_BASE_ERROR_ROLE in
    if failed then Some (w, evs)
    else
      match role_data s with
      | role_none =>
          if negb calloc_ok then
            Some (w, [ev (wl_resource_post_no_memory
                            (xdg_surface_resource self))])
          else if negb resource_ok then
            Some (w, [ev (wl_resource_post_no_memory
                            (xdg_surface_resource self))])
          else
            let popup :=
              mk_popup parent false None
                (xdg_positioner_get_geometry positioner) in
            let m :=
              <[self := set_role_data (role_popup popup) s]>
                (xdg_surfaces w) in
            p ← m !! parent;
            let m := <[parent := set_popups (self :: popups p) p]> m in
            Some (set_xdg_surfaces m w,
                  [signal (events_new_popup parent self)])
      | _ => None
      end.

(** [xdg_surface_get_toplevel] for the surface at [self], with the same
    outcomes. It sets the role before it creates the toplevel resource;
    when that fails it frees the state the role needs, and as for
    [xdg_surface_get_popup] the model has no value for what is left
    ([None]). *)
Definition xdg_surface_get_toplevel (set_role_ok calloc_ok resource_ok : bool)
    (w : xdg_world) (self : ptr) : option (xdg_world * list xdg_event) :=
  s ← xdg_surfaces w !! self;
  _ ← wlr_surfaces w !! surface s;
  let '(failed, evs) :=
    wlr_surface_set_role set_role_ok (xdg_surface_resource self)
      XDG_WM_BASE_ERROR_ROLE in
  if failed then Some (w, evs)
  else
    match role_data s with
    | role_none =>
        if negb calloc_ok then
          Some (w, [ev (wl_resource_post_no_memory
                          (xdg_surface_resource self))])
        else if negb resource_ok then None
        else
          let toplevel :=
            mk_toplevel None false zero_toplevel_state zero_toplevel_state
              zero_toplevel_state in
          Some (set_xdg_surfaces
                  (<[self := set_role_data (role_toplevel toplevel) s]>
                     (xdg_surfaces w)) w,
                [])
    | _ => None
    end.

(** ** Statements about the positioner *)

(** The positioner at the end of its life as a parameter object: it is
    created for the connection [wl_client] and has handled the requests
    [rs]. *)
Definition positioner_after (calloc_ok resource_ok : bool) (wl_client : ptr)
    (rs : list positioner_request) : option wlr_xdg_positioner :=
  xdg_positioner_run rs
  <$> fst (xdg_shell_create_positioner calloc_ok resource_ok wl_client).

(** Width and height are both 0, as [calloc] left them, or both at least
    1. *)
Definition sizes_set_together (width height : int32_t) : Prop :=
  (width = 0 /\ height = 0) \/ (1 <= width /\ 1 <= height).

(** The invariant of a positioner: its size and the size of its anchor
    rectangle are each set together. *)
Definition positioner_sizes_ok (p : wlr_xdg_positioner) : Prop :=
  sizes_set_together (size_width p) (size_height p) /\
  sizes_set_together (box_width (anchor_rect p)) (box_height (anchor_rect p)).

(** A positioner that passes the test of [xdg_surface_get_popup] has a
    size and an anchor rectangle of at least 1 by 1, and the geometry
    computed from it has the positioner's size. *)
Definition positioner_complete_spec (p : wlr_xdg_positioner) : Prop :=
  1 <= size_width p /\ 1 <= size_height p /\
  1 <= box_width (anchor_rect p) /\ 1 <= box_height (anchor_rect p) /\
  box_width (xdg_positioner_get_geometry p) = size_width p /\
  box_height (xdg_positioner_get_geometry p) = size_height p.

(** A client sets up a popup menu of 200 by 300 below a button; its
    attempts at an empty size and at an anchor beyond the enumeration are
    refused. *)
Definition menu_requests : list positioner_request :=
  [positioner_set_size 200 0;
   positioner_set_size 200 300;
   positioner_set_anchor_rect 10 20 80 24;
   positioner_set_anchor 9;
   positioner_set_anchor (anchor_value XDG_POSITIONER_ANCHOR_BOTTOM_LEFT);
   positioner_set_gravity
     (gravity_value XDG_POSITIONER_GRAVITY_BOTTOM_RIGHT);
   positioner_set_offset 0 2].

(** The positioner these requests leave. *)
Definition menu_positioner : wlr_xdg_positioner :=
  xdg_positioner_run menu_requests positioner_zero.


(** ** The ping timer and the end of a client *)

(** [wlr_xdg_client_ping_timeout], the callback of the client's ping
    timer: every surface on the client's list gets the ping_timeout
    signal, so each must be live. *)
Definition wlr_xdg_client_ping_timeout (w : xdg_world) (client : ptr)
  : option (xdg_world * list xdg_event) :=
  c ← xdg_clients w !! client;
  if forallb (fun x => bool_decide (is_Some (xdg_surfaces w !! x)))
       (surfaces c)
  then
    let evs := map (fun x => signal (events_ping_timeout x)) (surfaces c) in
    let c := mk_client (wl_client c) (surfaces c) 0 (ping_timer c) in
    Some (set_xdg_clients (<[client := c]> (xdg_clients w)) w, evs)
  else None.

(** [wlr_xdg_client_destroy], the destructor of the client's resource: the
    surfaces on the client's list are destroyed from its head on, then the
    timer is removed and the client is unlinked and freed. *)
Definition wlr_xdg_client_destroy (calloc_ok : bool) (w : xdg_world)
    (client : ptr) : option (xdg_world * list event) :=
  c ← xdg_clients w !! client;
  '(w, evs) ← xdg_surface_destroy_all calloc_ok w (surfaces c);
  _ ← xdg_clients w !! client;
  Some (set_xdg_clients (delete client (xdg_clients w)) w, evs).

(** ** All requests *)

(** The requests and calls of [xdg_request] together with those of this
    part. *)
Inductive xdg_shell_request :=
| request (r : xdg_request)
| get_toplevel (set_role_ok calloc_ok resource_ok : bool) (self : ptr)
| get_popup (set_role_ok calloc_ok resource_ok : bool) (self parent : ptr)
    (positioner : wlr_xdg_positioner)
| ping_timer_fired (client : ptr)
| client_destroy (calloc_ok : bool) (client : ptr).

(** The result of a handler of [xdg_request], its events as
    [xdg_event]s. *)
Definition with_events (r : option (xdg_world * list event))
  : option (xdg_world * list xdg_event) :=
  match r with
  | Some (w, evs) => Some (w, map ev evs)
  | None => None
  end.

(** The handler of each request. *)
Definition xdg_shell_handle (r : xdg_shell_request) (w : xdg_world)
  : option (xdg_world * list xdg_event) :=
  match r with
  | request r => with_events (xdg_shell_dispatch r w)
  | get_toplevel set_role_ok calloc_ok resource_ok self =>
      xdg_surface_get_toplevel set_role_ok calloc_ok resource_ok w self
  | get_popup set_role_ok calloc_ok resource_ok self parent positioner =>
      xdg_surface_get_popup set_role_ok calloc_ok resource_ok w self parent
        positioner
  | ping_timer_fired client => wlr_xdg_client_ping_timeout w client
  | client_destroy calloc_ok client =>
      with_events (wlr_xdg_client_destroy calloc_ok w client)
  end.

(** Requests handled one after the other, their events in order. *)
Fixpoint xdg_shell_handle_all (rs : list xdg_shell_request) (w : xdg_world)
  : option (xdg_world * list xdg_event) :=
  match rs with
  | [] => Some (w, [])
  | r :: rs =>
      '(w, evs) ← xdg_shell_handle r w;
      '(w, evs') ← xdg_shell_handle_all rs w;
      Some (w, evs ++ evs')
  end.

(** ** Statements about the first configure *)

(** A surface without a role that has not been configured and has no idle
    task pending, over a live underlying surface without a buffer, in a
    shell whose event loop has no idle source and whose display can hand
    out one more serial without wrapping around. *)
Definition awaits_role (w : xdg_world) (self : ptr) (s : wlr_xdg_surface)
  : Prop :=
  xdg_surfaces w !! self = Some s /\
  role_data s = role_none /\ configured s = false /\
  configure_idle s = None /\
  (exists base,
     wlr_surfaces w !! surface s = Some base /\ has_buffer base = false) /\
  idle (display w) = [] /\
  0 <= display_serial (display w) /\ display_serial (display w) + 1 < 2 ^ 32.

(** The surface becomes a popup, commits and the event loop runs the idle
    task: the parent is told of the popup, and the client gets the popup
    configure with the geometry computed from the positioner, followed by
    the surface configure with the display's next serial. *)
Definition popup_first_configure_spec (array_add_ok : nat -> bool)
    (w : xdg_world) (self parent : ptr) (positioner : wlr_xdg_positioner)
  : Prop :=
  let g := xdg_positioner_get_geometry positioner in
  exists w',
    xdg_shell_handle_all
      [get_popup true true true self parent positioner;
       request (surface_committed self);
       request (dispatch_idle true array_add_ok)] w
    = Some (w',
            [signal (events_new_popup parent self);
             ev (xdg_popup_send_configure (xdg_popup_resource self)
                   (box_x g) (box_y g) (box_width g) (box_height g));
             ev (xdg_surface_send_configure (xdg_surface_resource self)
                   (display_serial (display w) + 1))]).

(** The surface becomes a toplevel, commits and the event loop runs the
    idle task: the client gets the toplevel configure without states and
    with the size of the window geometry (0 by 0 unless one was set),
    followed by the surface configure with the display's next serial. *)
Definition toplevel_first_configure_spec (array_add_ok : nat -> bool)
    (w : xdg_world) (self : ptr) (s : wlr_xdg_surface) : Prop :=
  let g := if has_next_geometry s then next_geometry s else geometry s in
  exists w',
    xdg_shell_handle_all
      [get_toplevel true true true self;
       request (surface_committed self);
       request (dispatch_idle true array_add_ok)] w
    = Some (w',
            [ev (xdg_toplevel_send_configure (xdg_toplevel_resource self)
                   (to_uint32 (box_width g)) (to_uint32 (box_height g)) []);
             ev (xdg_surface_send_configure (xdg_surface_resource self)
                   (display_serial (display w) + 1))]).

(** The shell [world_0] with a fourth surface of its client, created over
    the underlying surface 104 while that has no buffer. *)
Definition world_role_less : xdg_world :=
  dispatched
    (get_xdg_surface (mk_surface_alloc (Some 4%positive) true true true)
       10%positive 104%positive)
    (set_wlr_surfaces
       (<[104%positive := mk_wlr_surface false 0 0 None []]>
          (wlr_surfaces world_0))
       world_0).

(** ** Statements about a popup and its parent *)

(** A popup is created and destroyed again: the parent is told of the
    popup, the destroy signal is emitted, and the surfaces of the shell are
    the ones from before without the popup's surface, the parent with the
    list of popups it had; grab chains, seats and display are untouched. *)
Definition popup_round_trip_spec (calloc_ok : bool) (w : xdg_world)
    (self parent : ptr) (positioner : wlr_xdg_positioner) : Prop :=
  exists w',
    xdg_shell_handle_all
      [get_popup true true true self parent positioner;
       request (surface_destroy calloc_ok self)] w
    = Some (w',
            [signal (events_new_popup parent self);
             ev (wlr_signal_emit_safe (events_destroy self))]) /\
    xdg_surfaces w' = delete self (xdg_surfaces w) /\
    popup_grabs w' = popup_grabs w /\ seats w' = seats w /\
    display w' = display w.


(** ** Statements about ping and pong *)

(** The client of the surface has no ping outstanding and a ping timer,
    and the display can hand out two more serials without wrapping
    around. *)
Definition ping_ready (w : xdg_world) (self : ptr) (s : wlr_xdg_surface)
    (c : wlr_xdg_client) : Prop :=
  xdg_surfaces w !! self = Some s /\
  xdg_clients w !! client s = Some c /\
  ping_serial c = 0 /\ is_Some (ping_timer c) /\
  0 <= display_serial (display w) /\ display_serial (display w) + 2 < 2 ^ 32.

(** The ping event on the resource of the client at [client]. *)
Definition send_ping (client : ptr) (serial : uint32_t) : xdg_event :=
  ev (xdg_wm_base_send_ping (xdg_client_resource client) serial).

(** A ping is answered by the pong with its serial and by no other pong:
    after the right pong the next ping is sent, with the next serial, and
    after a wrong one it is not. *)
Definition ping_pong_spec (w : xdg_world) (self : ptr) (s : wlr_xdg_surface)
  : Prop :=
  let n := display_serial (display w) + 1 in
  (exists w',
     xdg_shell_handle_all
       [request (surface_ping self); request (pong (client s) n);
        request (surface_ping self)] w
     = Some (w', [send_ping (client s) n; send_ping (client s) (n + 1)])) /\
  (forall serial, serial <> n ->
     exists w',
       xdg_shell_handle_all
         [request (surface_ping self); request (pong (client s) serial);
          request (surface_ping self)] w
       = Some (w', [send_ping (client s) n])).

(** A ping runs into the timeout: every surface of the client gets the
    ping_timeout signal, in the order of the client's list, and the next
    ping is sent. *)
Definition ping_timeout_spec (w : xdg_world) (self : ptr)
    (s : wlr_xdg_surface) (c : wlr_xdg_client) : Prop :=
  let n := display_serial (display w) + 1 in
  exists w',
    xdg_shell_handle_all
      [request (surface_ping self); ping_timer_fired (client s);
       request (surface_ping self)] w
    = Some (w',
            send_ping (client s) n
            :: map (fun x => signal (events_ping_timeout x)) (surfaces c)
            ++ [send_ping (client s) (n + 1)]).


(** ** Statements about the end of a grab *)




(** ** Statements about the end of a client *)

(** The surfaces for which a list of events has the destroy signal, in
    order. *)
Definition destroy_signals (evs : list event) : list ptr :=
  omap (fun e =>
          match e with
          | wlr_signal_emit_safe (events_destroy x) => Some x
          | _ => None
          end) evs.

(** The client at [client], which held [c], is gone with every surface of
    its list; each of these got the destroy signal once, in the order of
    the list, and no surface was added. *)
Definition client_destroy_spec (w : xdg_world) (client : ptr)
    (c : wlr_xdg_client) (w' : xdg_world) (evs : list event) : Prop :=
  xdg_clients w' !! client = None /\
  (forall x, In x (surfaces c) -> xdg_surfaces w' !! x = None) /\
  (forall x, xdg_surfaces w !! x = None -> xdg_surfaces w' !! x = None) /\
  destroy_signals evs = surfaces c.


(** ** Statements about moving the anchor *)

(** The anchor rectangle moved by [dx] and [dy], in [int] arithmetic. *)
Definition move_anchor_rect (dx dy : int32_t) (p : wlr_xdg_positioner)
  : wlr_xdg_positioner :=
  let a := anchor_rect p in
  set_positioner_anchor_rect
    (mk_box (add32 (box_x a) dx) (add32 (box_y a) dy) (box_width a)
       (box_height a)) p.

(** The offset moved by [dx] and [dy]. *)
Definition move_offset (dx dy : int32_t) (p : wlr_xdg_positioner)
  : wlr_xdg_positioner :=
  set_positioner_offset (add32 (offset_x p) dx) (add32 (offset_y p) dy) p.

(** The box moved by [dx] and [dy]. *)
Definition move_box (dx dy : int32_t) (b : wlr_box) : wlr_box :=
  mk_box (add32 (box_x b) dx) (add32 (box_y b) dy) (box_width b)
    (box_height b).

(** ** The invariant of the configure queues over all requests *)

(** The surface a request creates is at an address that holds no
    surface. *)
Definition fresh_surface_for (r : xdg_shell_request) (w : xdg_world)
  : Prop :=
  match r with
  | request r => fresh_surface r w
  | _ => True
  end.


(** ** Statements about changes within one turn of the event loop *)








(** * Theorems *)

Lemma to_int32_id z : in_int32 z -> to_int32 z = z.
Proof.
  unfold in_int32, to_int32. intros Hz.
  rewrite Z.mod_small; lia.
Qed.

Lemma to_uint32_id z : in_uint32 z -> to_uint32 z = z.
Proof.
  unfold in_uint32, to_uint32. intros Hz. apply Z.mod_small; lia.
Qed.

Lemma to_int32_range z : in_int32 (to_int32 z).
Proof.
  unfold in_int32, to_int32.
  pose proof (Z.mod_pos_bound (z + 2 ^ 31) (2 ^ 32)). lia.
Qed.

Lemma add32_0_l a b : add32 0 (add32 a b) = add32 a b.
Proof.
  unfold add32. rewrite Z.add_0_l. apply to_int32_id, to_int32_range.
Qed.

(** C9: with anchor NONE, gravity NONE and offset (0,0) the geometry is
    centred on the midpoint of the anchor rectangle:
    x = anchor_rect.x + anchor_rect.w/2 - size.w/2 and
    y = anchor_rect.y + anchor_rect.h/2 - size.h/2, in C's [int]
    arithmetic and so, when the sums stay inside [int], as integers; the
    size is the positioner's size. Size (10,10) over the anchor rectangle
    (0,0,100,100) gives (45,45,10,10). *)
Theorem C9_positioner_centered :
  (forall p : wlr_xdg_positioner,
     anchor p = XDG_POSITIONER_ANCHOR_NONE ->
     gravity p = XDG_POSITIONER_GRAVITY_NONE ->
     offset_x p = 0 -> offset_y p = 0 ->
     positioner_centered_spec p) /\
  xdg_positioner_get_geometry positioner_10_in_100 = mk_box 45 45 10 10.
Proof.
  split; [|reflexivity].
  intros p Ha Hg Hx Hy. unfold positioner_centered_spec.
  assert (Hrun : xdg_positioner_get_geometry p =
    mk_box (sub32 (add32 (box_x (anchor_rect p))
                     (box_width (anchor_rect p) ÷ 2)) (size_width p ÷ 2))
           (sub32 (add32 (box_y (anchor_rect p))
                     (box_height (anchor_rect p) ÷ 2)) (size_height p ÷ 2))
           (size_width p) (size_height p)).
  { unfold xdg_positioner_get_geometry. rewrite Ha, Hg, Hx, Hy.
    rewrite !add32_0_l.
    destruct (_ =? _); reflexivity. }
  split; [exact Hrun|].
  intros Bx By Bx' By'. rewrite Hrun. unfold add32, sub32.
  rewrite (to_int32_id _ Bx), (to_int32_id _ By).
  rewrite (to_int32_id _ Bx'), (to_int32_id _ By').
  reflexivity.
Qed.

Lemma C9_positioner_centered_witness :
  positioner_centered_spec positioner_10_in_100.
Proof.
  apply (proj1 C9_positioner_centered positioner_10_in_100); reflexivity.
Defined.

(** ** Acknowledging a configure *)

(** The walk drops the longest prefix of smaller serials and then looks at
    one entry. *)
Lemma ack_configure_loop_split serial l :
  exists discarded rest,
    l = discarded ++ rest /\
    Forall (fun c => cfg_serial c < serial) discarded /\
    (forall c rest', rest = c :: rest' -> serial <= cfg_serial c) /\
    ack_configure_loop serial l =
      match rest with
      | c :: rest' =>
          if cfg_serial c =? serial then (rest', Some c) else (rest, None)
      | [] => ([], None)
      end.
Proof.
  induction l as [|c l IH]; simpl.
  - exists [], []. repeat split; auto. intros; discriminate.
  - destruct (Z.ltb_spec (cfg_serial c) serial) as [Hlt|Hge].
    + destruct IH as (dis & rest & -> & Hall & Hhd & Heq).
      exists (c :: dis), rest. repeat split; auto.
    + exists [], (c :: l). split; [reflexivity|]. split; [constructor|].
      split.
      * intros c' rest' [= <- <-]. exact Hge.
      * destruct (cfg_serial c =? serial); reflexivity.
Qed.

(** A walk that finds nothing when no entry carries the serial. *)
Lemma ack_configure_loop_absent serial l :
  (forall c, In c l -> cfg_serial c <> serial) ->
  snd (ack_configure_loop serial l) = None.
Proof.
  induction l as [|c l IH]; simpl; intros Hno; [reflexivity|].
  destruct (cfg_serial c <? serial); [apply IH; auto|].
  destruct (Z.eqb_spec (cfg_serial c) serial) as [He|]; [|reflexivity].
  exfalso. apply (Hno c); auto.
Qed.

(** C1: for a surface with a role, ack_configure(S) walks the queue from its
    head, discards every entry whose serial is below S, dequeues an entry
    whose serial is S and stops at the first entry with a greater serial; on
    a match the surface is configured with configure_serial S and no error
    is posted; without a match, and so whenever no entry carries S,
    INVALID_SURFACE_STATE is posted on the client and the entries below S
    are gone all the same. *)
Theorem C1_ack_configure (self : ptr) (s : wlr_xdg_surface)
    (serial : uint32_t) :
  role s <> WLR_XDG_SURFACE_ROLE_NONE ->
  ack_configure_spec self s serial.
Proof.
  intros Hrole.
  destruct (ack_configure_loop_split serial (configure_list s))
    as (dis & rest & Hl & Hall & Hhd & Hloop).
  exists dis, rest. split; [exact Hl|]. split; [exact Hall|].
  split; [exact Hhd|].
  assert (Hrun : xdg_surface_ack_configure self s serial =
    let '(l, found) := ack_configure_loop serial (configure_list s) in
    match found with
    | None => (set_configure_list l s, [invalid_surface_state s])
    | Some configure =>
        (set_configure_serial serial (set_configured true
           match role_data s with
           | role_toplevel t =>
               set_role_data
                 (role_toplevel (wlr_xdg_toplevel_ack_configure t configure))
                 (set_configure_list l s)
           | _ => set_configure_list l s
           end), [])
    end).
  { unfold xdg_surface_ack_configure, role in *.
    destruct (role_data s) eqn:E; [congruence| |];
      destruct (ack_configure_loop _ _) as [l [c|]];
      simpl; rewrite ?E; reflexivity. }
  split.
  - unfold ack_configure_outcome. rewrite Hrun, Hloop.
    destruct rest as [|c rest'].
    + repeat split; reflexivity.
    + destruct (cfg_serial c =? serial).
      * destruct (role_data s); repeat split; reflexivity.
      * repeat split; reflexivity.
  - intros Hno. rewrite Hrun.
    pose proof (ack_configure_loop_absent serial _ Hno) as Hnone.
    rewrite Hloop in Hnone |- *.
    destruct rest as [|c rest']; [split; reflexivity|].
    destruct (cfg_serial c =? serial); [discriminate|].
    split; reflexivity.
Qed.

Lemma C1_ack_configure_witness :
  ack_configure_spec 1%positive surface_345 4.
Proof.
  apply (C1_ack_configure 1%positive surface_345 4). discriminate.
Defined.


(** ** Scheduling a configure *)

Ltac case_eqb :=
  repeat match goal with
    | |- context [Bool.eqb ?a ?b] => destruct (Bool.eqb_spec a b)
    | |- context [Z.eqb ?a ?b] => destruct (Z.eqb_spec a b)
    end.

(** A surface that was never configured never compares as same. *)
Lemma compare_unconfigured base s t :
  configured s = false ->
  wlr_xdg_surface_toplevel_state_compare base s t = false.
Proof.
  intros H. unfold wlr_xdg_surface_toplevel_state_compare. rewrite H.
  reflexivity.
Qed.

(** With a configure in flight the comparison is against the last one
    queued. *)
Lemma compare_queued base s t configure :
  configured s = true ->
  last (configure_list s) = Some configure ->
  wlr_xdg_surface_toplevel_state_compare base s t = true <->
  same_flags (pending t) (cfg_state configure) /\
  ((st_width (pending t) = st_width (cfg_state configure) /\
    st_height (pending t) = st_height (cfg_state configure))
   \/ (st_width (pending t) = 0 /\ st_height (pending t) = 0)).
Proof.
  intros Hc Hl. unfold wlr_xdg_surface_toplevel_state_compare, same_flags.
  rewrite Hc, Hl. simpl.
  case_eqb; simpl; intuition congruence.
Qed.

(** With an empty queue the code compares both pending dimensions with the
    width of the underlying surface. *)
Lemma compare_current base s t :
  configured s = true ->
  configure_list s = [] ->
  wlr_xdg_surface_toplevel_state_compare base s t = true <->
  same_flags (pending t) (current t) /\
  ((st_width (pending t) = to_uint32 (current_width base) /\
    st_height (pending t) = to_uint32 (current_width base))
   \/ (st_width (pending t) = 0 /\ st_height (pending t) = 0)).
Proof.
  intros Hc Hl. unfold wlr_xdg_surface_toplevel_state_compare, same_flags.
  rewrite Hc, Hl. simpl.
  case_eqb; simpl; intuition congruence.
Qed.

Lemma schedule_configure_run self base s d same :
  pending_same base s = Some same ->
  wlr_xdg_surface_schedule_configure self base s d
    = Some (schedule_configure_outcome self s d same).
Proof.
  intros H. unfold wlr_xdg_surface_schedule_configure. rewrite H. simpl.
  unfold schedule_configure_outcome.
  destruct (configure_idle s) as [source|], same; reflexivity.
Qed.

(** C2 (as amended): for a surface with a role, let pending_same be false
    for a popup and for a toplevel that was never configured, and for a
    configured toplevel the result of comparing the pending state with the
    authoritative snapshot (against the last queued configure: equal flags,
    and equal size or a pending size of (0,0)). With an idle task pending,
    schedule_configure returns the reserved serial and changes nothing when
    pending_same is false, and otherwise cancels the idle task and returns
    0; with no idle task pending it returns 0 and changes nothing when
    pending_same is true, and otherwise reserves the next serial of the
    display, adds exactly one idle task and returns that serial. *)
Theorem C2_schedule_configure (self : ptr) (base : wlr_surface)
    (s : wlr_xdg_surface) (d : wl_display) :
  role s <> WLR_XDG_SURFACE_ROLE_NONE ->
  schedule_configure_spec self base s d.
Proof.
  intros Hrole. unfold schedule_configure_spec, pending_same, role in *.
  destruct (role_data s) as [|t|p] eqn:E; [congruence| |].
  - exists (wlr_xdg_surface_toplevel_state_compare base s t).
    split; [reflexivity|]. split.
    { apply schedule_configure_run. unfold pending_same. now rewrite E. }
    split; [discriminate|]. split; [apply compare_unconfigured|].
    intros t' configure [= <-] Hc Hl. now apply compare_queued.
  - exists false. split; [reflexivity|]. split.
    { apply schedule_configure_run. unfold pending_same. now rewrite E. }
    split; [reflexivity|]. split; [reflexivity|]. discriminate.
Qed.

Lemma C2_schedule_configure_witness :
  schedule_configure_spec 1%positive base_800x600 surface_345 display_0.
Proof.
  apply (C2_schedule_configure 1%positive base_800x600 surface_345 display_0).
  discriminate.
Defined.

(** A toplevel that was never configured has its pending state equal to its
    current state, the size of the underlying surface included, an empty
    queue and no idle task; scheduling does not return 0: it reserves
    serial 1 and adds an idle task. *)
Lemma C2_unconfigured_counterexample :
  pending toplevel_fresh = current toplevel_fresh /\
  st_width (pending toplevel_fresh) = to_uint32 (current_width base_empty) /\
  st_height (pending toplevel_fresh) = to_uint32 (current_height base_empty) /\
  configure_list surface_fresh = [] /\
  configure_idle surface_fresh = None /\
  wlr_xdg_surface_schedule_configure 1%positive base_empty surface_fresh
    display_0
  = Some (set_configure_idle (Some 1%positive)
            (set_configure_next_serial 1 surface_fresh),
          mk_display 1 [(1%positive, 1%positive)] 2%positive, 1).
Proof. repeat split; reflexivity. Qed.

(** C3: the comparison at a configured toplevel with an empty queue over an
    underlying surface of 800 by 600. With the pending state equal to the
    current state and the pending size 800 by 600 the code answers
    "different", and with the pending size 800 by 800 it answers "same",
    because it reads the height to compare with from the surface's width;
    the comparison of the specification answers "same" and "different". *)
Theorem C3_compare_height_from_width :
  configured surface_800x600 = true /\
  configure_list surface_800x600 = [] /\
  wlr_xdg_surface_toplevel_state_compare base_800x600 surface_800x600
    toplevel_800x600 = false /\
  toplevel_state_compare_spec base_800x600 toplevel_800x600 = true /\
  wlr_xdg_surface_toplevel_state_compare base_800x600 surface_800x800
    toplevel_800x800 = true /\
  toplevel_state_compare_spec base_800x600 toplevel_800x800 = false.
Proof. repeat split; reflexivity. Qed.

(** ** Sending a toplevel configure *)





(** ** Toplevel requests that change state *)

Lemma with_next_updates s t f evs :
  role_data s = role_toplevel t ->
  updates_next_only s t f evs (s' ← with_next f s; Some (s', evs)).
Proof.
  intros E. unfold with_next. rewrite E. simpl.
  eexists _, _. split; [reflexivity|]. simpl. auto.
Qed.

(** C8 (as amended): on a toplevel, set_maximized and unset_maximized write
    the maximized flag of the next state and emit request_maximize;
    set_fullscreen and unset_fullscreen write its fullscreen flag and emit
    request_fullscreen; set_max_size and set_min_size write its maximal and
    minimal size and emit no signal; set_minimized emits request_minimize
    and writes no state. None of them changes the pending or the current
    state. *)
Theorem C8_state_requests (self : ptr) (s : wlr_xdg_surface)
    (t : wlr_xdg_toplevel) :
  role_data s = role_toplevel t ->
  state_requests_spec self s t.
Proof.
  intros E. unfold state_requests_spec.
  repeat split; intros; try (now apply with_next_updates).
Qed.

Lemma C8_state_requests_witness :
  state_requests_spec 1%positive surface_800x600 toplevel_800x600.
Proof.
  apply (C8_state_requests 1%positive surface_800x600 toplevel_800x600).
  reflexivity.
Defined.

(** set_max_size on a toplevel emits nothing, so no request signal, and
    set_minimized leaves the next state as it was. *)
Lemma C8_no_signal_counterexample :
  snd <$> xdg_toplevel_protocol_set_max_size 1%positive surface_800x600
            1024 768 = Some [] /\
  fst <$> xdg_toplevel_protocol_set_minimized 1%positive surface_800x600
    = Some surface_800x600.
Proof. split; reflexivity. Qed.


(** ** Ping *)

(** C10: while the client of a surface has a nonzero outstanding ping
    serial, pinging the surface again does nothing: no serial is reserved,
    the timer is not armed again, no ping is sent, and the client's ping
    state stays as it is. *)
Theorem C10_ping_outstanding (w : xdg_world) (self : ptr)
    (s : wlr_xdg_surface) (c : wlr_xdg_client) :
  xdg_surfaces w !! self = Some s ->
  xdg_clients w !! client s = Some c ->
  ping_serial c <> 0 ->
  wlr_xdg_surface_ping w self = Some (w, []).
Proof.
  intros Hs Hc Hp. unfold wlr_xdg_surface_ping.
  rewrite Hs. simpl. rewrite Hc. simpl.
  destruct (Z.eqb_spec (ping_serial c) 0); [contradiction|reflexivity].
Qed.

Lemma C10_ping_outstanding_witness :
  wlr_xdg_surface_ping world_pinged 1%positive = Some (world_pinged, []).
Proof.
  apply (C10_ping_outstanding world_pinged 1%positive surface_T
           (mk_client 11%positive [3%positive; 2%positive; 1%positive] 7
              (Some 10000))).
  - reflexivity.
  - reflexivity.
  - discriminate.
Defined.

(** Without an outstanding ping the same call reserves a serial, arms the
    timer and sends the ping. *)
Example ping_world_0 :
  wlr_xdg_surface_ping world_0 1%positive
  = Some (set_xdg_clients
            (<[10%positive :=
                 mk_client 11%positive [3%positive; 2%positive; 1%positive] 1
                   (Some 10000)]> (xdg_clients world_0))
            (set_display (mk_display 1 [] 1%positive) world_0),
          [xdg_wm_base_send_ping (xdg_client_resource 10%positive) 1]).
Proof. reflexivity. Qed.


(** ** Popup grabs *)

Lemma popup_grab_lookup_seat grabs seat g :
  popup_grab_lookup grabs seat = Some g -> grab_seat g = seat.
Proof.
  induction grabs as [|x grabs IH]; simpl; [discriminate|].
  destruct (decide (grab_seat x = seat)); [congruence|exact IH].
Qed.



(** What [xdg_shell_popup_grab_from_seat] returns when the chain can be
    had. *)
Lemma popup_grab_from_seat_available calloc_ok w seat :
  chain_available calloc_ok w seat ->
  exists grabs g,
    xdg_shell_popup_grab_from_seat calloc_ok (popup_grabs w) seat
    = Some (grabs, g) /\
    popup_grab_lookup grabs seat = Some g /\
    grab_popups g = chain_popups (popup_grabs w) seat /\
    (forall seat', chain_popups grabs seat'
                   = chain_popups (popup_grabs w) seat') /\
    (is_Some (popup_grab_lookup (popup_grabs w) seat) ->
     grabs = popup_grabs w).
Proof.
  intros Hav. unfold xdg_shell_popup_grab_from_seat, chain_popups.
  destruct (popup_grab_lookup (popup_grabs w) seat) as [g|] eqn:E.
  - exists (popup_grabs w), g. rewrite E. auto.
  - destruct Hav as [->|[g Hg]]; [|congruence].
    exists (mk_popup_grab None seat [] :: popup_grabs w),
           (mk_popup_grab None seat []).
    simpl. rewrite decide_True by reflexivity.
    repeat split; auto.
    + intros seat'. destruct (decide (seat = seat')) as [<-|]; [|reflexivity].
      now rewrite E.
    + intros [g Hg]; discriminate.
Qed.






(** The grabs of the scenario: P1 on T, then P2 on P1. *)
Example grab_P1_then_P2 :
  exists w1 w2,
    xdg_popup_protocol_grab true world_0 2%positive 20%positive 0
    = Some (w1, []) /\
    xdg_popup_protocol_grab true w1 3%positive 20%positive 0
    = Some (w2, []) /\
    chain_popups (popup_grabs w2) 20%positive = [3%positive; 2%positive] /\
    seats w2 !! 20%positive
    = Some (mk_seat (xdg_popup_grab 20%positive) (xdg_popup_grab 20%positive)).
Proof.
  eexists _, _. split; [vm_compute; reflexivity|].
  split; [vm_compute; reflexivity|]. split; reflexivity.
Qed.


Example world_grabbed_by_grabs :
  ('(w1, _) ← xdg_popup_protocol_grab true world_0 2%positive 20%positive 0;
   xdg_popup_protocol_grab true w1 3%positive 20%positive 0)
  = Some (world_grabbed, []).
Proof. vm_compute. reflexivity. Qed.


(** ** Destroying popups *)

Lemma popup_grab_lookup_remove popup grabs seat :
  popup_grab_lookup (grab_link_remove popup grabs) seat
  = (fun g => mk_popup_grab (grab_client g) (grab_seat g)
                (filter (fun q => q <> popup) (grab_popups g)))
    <$> popup_grab_lookup grabs seat.
Proof.
  induction grabs as [|x grabs IH]; simpl; [reflexivity|].
  destruct (decide (grab_seat x = seat)); [reflexivity|exact IH].
Qed.

Lemma chain_popups_remove popup grabs seat :
  chain_popups (grab_link_remove popup grabs) seat
  = filter (fun q => q <> popup) (chain_popups grabs seat).
Proof.
  unfold chain_popups. rewrite popup_grab_lookup_remove.
  destruct (popup_grab_lookup grabs seat); reflexivity.
Qed.

Lemma filter_other_id (popup : ptr) (l : list ptr) :
  ~ In popup l -> filter (fun q => q <> popup) l = l.
Proof.
  induction l as [|x l IH]; intros Hni; [reflexivity|].
  rewrite filter_cons. destruct (decide (x <> popup)) as [Hx|Hx].
  - f_equal. apply IH. intros Hin. apply Hni. now right.
  - exfalso. apply Hni. left. destruct (decide (x = popup)); tauto.
Qed.

Lemma filter_self_head (popup : ptr) (l : list ptr) :
  NoDup (popup :: l) -> filter (fun q => q <> popup) (popup :: l) = l.
Proof.
  intros Hnd. apply NoDup_cons in Hnd as [Hni _].
  rewrite filter_cons, decide_False by tauto.
  apply filter_other_id. now rewrite <- list_elem_of_In.
Qed.

(** Taking a popup out of its chain: the error is posted exactly when the
    popup is not on top, the chains lose the popup, the seat stays. *)
Lemma destroy_grab_run calloc_ok w self s seat :
  is_Some (xdg_clients w !! client s) ->
  is_Some (seats w !! seat) ->
  chain_available calloc_ok w seat ->
  exists w',
    xdg_surface_destroy_grab calloc_ok w self s seat
    = Some (w', if decide (head (chain_popups (popup_grabs w) seat) = Some self)
                then [] else [not_the_topmost_popup s]) /\
    xdg_surfaces w' = xdg_surfaces w /\ wlr_surfaces w' = wlr_surfaces w /\
    xdg_clients w' = xdg_clients w /\ display w' = display w /\
    (forall seat', is_Some (seats w !! seat') -> is_Some (seats w' !! seat')) /\
    (forall seat', chain_popups (popup_grabs w') seat'
                   = filter (fun q => q <> self)
                       (chain_popups (popup_grabs w) seat')).
Proof.
  intros [c Hc] [st Hst] Hav. unfold xdg_surface_destroy_grab.
  rewrite Hc. simpl.
  destruct (popup_grab_from_seat_available _ _ _ Hav)
    as (grabs & g & -> & Hg & Hpop & Hchains & _).
  simpl. rewrite popup_grab_lookup_remove, Hg. simpl.
  assert (Htop : xdg_popup_grab_get_topmost g
                 = head (chain_popups (popup_grabs w) seat)).
  { unfold xdg_popup_grab_get_topmost. rewrite Hpop.
    now destruct (chain_popups _ _). }
  rewrite Htop.
  assert (Hrem : forall seat',
    chain_popups (grab_link_remove self grabs) seat'
    = filter (fun q => q <> self) (chain_popups (popup_grabs w) seat')).
  { intros seat'. now rewrite chain_popups_remove, Hchains. }
  destruct (filter _ (grab_popups g)) as [|top rest] eqn:Hf.
  - rewrite Hst. simpl.
    destruct (decide (pointer_state_grab st = xdg_popup_grab seat));
      simpl; rewrite ?Hf; simpl; rewrite app_nil_r;
      (eexists; split; [reflexivity|]; simpl; repeat split; auto;
       intros seat' Hs; destruct (decide (seat = seat')) as [<-|Hne];
       [rewrite lookup_insert_eq; eauto | now rewrite lookup_insert_ne]).
  - eexists. split; [reflexivity|]. simpl. repeat split; auto.
Qed.


(** Destroying a popup that holds a grab: what is emitted, and what is left
    of the other objects. *)
Lemma destroy_popup_run calloc_ok w self s p seat :
  live_grabbed_popup w seat self s p ->
  is_Some (seats w !! seat) ->
  chain_available calloc_ok w seat ->
  exists w',
    xdg_surface_destroy calloc_ok w self
    = Some (w', wlr_signal_emit_safe (events_destroy self)
                :: if decide (head (chain_popups (popup_grabs w) seat)
                              = Some self)
                   then [] else [not_the_topmost_popup s]) /\
    (forall q sq, q <> self -> xdg_surfaces w !! q = Some sq ->
       exists sq', xdg_surfaces w' !! q = Some sq' /\
                   role_data sq' = role_data sq /\ client sq' = client sq /\
                   surface sq' = surface sq) /\
    (forall c, is_Some (xdg_clients w !! c) -> is_Some (xdg_clients w' !! c)) /\
    (forall b, is_Some (wlr_surfaces w !! b) ->
               is_Some (wlr_surfaces w' !! b)) /\
    (forall seat', is_Some (seats w !! seat') -> is_Some (seats w' !! seat')) /\
    (forall seat', chain_popups (popup_grabs w') seat'
                   = filter (fun q => q <> self)
                       (chain_popups (popup_grabs w) seat')).
Proof.
  intros (Hs & Hr & Hseat & Hc & [base Hb] & [parent Hp]) Hst Hav.
  unfold xdg_surface_destroy.
  rewrite Hs. simpl. rewrite Hr, Hseat.
  set (w0 := match configure_idle s with
             | Some source =>
                 set_display (wl_event_source_remove (display w) source) w
             | None => w
             end).
  assert (Hw0 : xdg_surfaces w0 = xdg_surfaces w /\
                xdg_clients w0 = xdg_clients w /\ seats w0 = seats w /\
                popup_grabs w0 = popup_grabs w /\
                wlr_surfaces w0 = wlr_surfaces w).
  { subst w0. destruct (configure_idle s); simpl; auto. }
  destruct Hw0 as (Hs0 & Hc0 & Hst0 & Hg0 & Hb0).
  destruct (destroy_grab_run calloc_ok w0 self s seat)
    as (w1 & -> & Hs1 & Hb1 & Hc1 & _ & Hst1 & Hch1).
  { now rewrite Hc0. }
  { now rewrite Hst0. }
  { unfold chain_available in *. now rewrite Hg0. }
  simpl. rewrite Hs1, Hs0, Hp. simpl.
  rewrite Hc1, Hc0. destruct Hc as [c Hc]. rewrite Hc. simpl.
  rewrite Hb1, Hb0, Hb. simpl. rewrite Hg0.
  eexists. split; [reflexivity|]. simpl.
  split; [|split; [|split; [|split]]].
  - intros q sq Hq Hsq. rewrite lookup_delete_ne by congruence.
    rewrite lookup_insert.
    destruct (decide _) as [<-|]; [|eauto].
    rewrite Hp in Hsq. injection Hsq as <-. eauto.
  - intros c' Hsome. rewrite lookup_insert.
    destruct (decide _); [eauto|assumption].
  - intros b Hsome. rewrite lookup_insert.
    destruct (decide _); [eauto|assumption].
  - intros seat' Hsome. apply Hst1. now rewrite Hst0.
  - intros seat'. rewrite Hch1. now rewrite Hg0.
Qed.

(** Destroying the topmost popup of a chain posts no error and leaves the
    rest of the chain in order. *)
Lemma destroy_topmost calloc_ok w seat self l :
  chain_wf w seat (self :: l) ->
  exists w',
    xdg_surface_destroy calloc_ok w self
    = Some (w', [wlr_signal_emit_safe (events_destroy self)]) /\
    chain_wf w' seat l.
Proof.
  intros (Hch & Hnd & Hst & Hall).
  destruct (Hall [] self l eq_refl) as (s & p & Hlive & _).
  destruct (destroy_popup_run calloc_ok w self s p seat)
    as (w' & Hrun & Hsurf & Hcl & Hbase & Hseats & Hchains); auto.
  { right. unfold chain_popups in Hch.
    destruct (popup_grab_lookup _ _); [eauto|discriminate]. }
  exists w'. split.
  - rewrite Hrun, Hch. simpl. rewrite decide_True by reflexivity.
    reflexivity.
  - split; [|split; [|split]].
    + rewrite Hchains, Hch. now apply filter_self_head.
    + now apply NoDup_cons in Hnd as [_ Hnd].
    + now apply Hseats.
    + intros above q below ->.
      destruct (Hall (self :: above) q below eq_refl)
        as (sq & pq & (Hsq & Hrq & Hseatq & Hcq & Hbq & [par Hpar]) & Hni).
      assert (Hne : q <> self).
      { intros ->. apply NoDup_cons in Hnd as [Hni' _].
        apply Hni', list_elem_of_In, in_or_app. right. now left. }
      assert (Hpne : popup_parent pq <> self).
      { intros Heq. apply Hni. now left. }
      destruct (Hsurf q sq Hne Hsq) as (sq' & Hsq' & Hrole & Hclient & Hsurface).
      destruct (Hsurf _ par Hpne Hpar) as (par' & Hpar' & _).
      exists sq', pq. split.
      * unfold live_grabbed_popup. rewrite Hrole, Hclient, Hsurface.
        repeat split; eauto.
      * intros Hin. apply Hni. now right.
Qed.

Lemma destroy_chain calloc_ok l :
  forall w seat,
    chain_wf w seat l ->
    exists w' evs,
      xdg_surface_destroy_all calloc_ok w l = Some (w', evs) /\
      (forall e, In e evs -> ~ is_not_the_topmost_popup e) /\
      chain_popups (popup_grabs w') seat = [].
Proof.
  induction l as [|self l IH]; intros w seat Hwf.
  - exists w, []. simpl. split; [reflexivity|]. split; [tauto|].
    now destruct Hwf.
  - destruct (destroy_topmost calloc_ok w seat self l Hwf)
      as (w1 & Hrun & Hwf1).
    destruct (IH w1 seat Hwf1) as (w2 & evs & Hrest & Hnone & Hempty).
    exists w2, (wlr_signal_emit_safe (events_destroy self) :: evs).
    simpl. rewrite Hrun. simpl. rewrite Hrest. simpl.
    split; [reflexivity|]. split; [|exact Hempty].
    intros e [<-|He]; [intros [r Hr]; discriminate|now apply Hnone].
Qed.

(** C7: destroying a live popup that holds a grab while it is not the
    topmost popup of its seat's chain posts NOT_THE_TOPMOST_POPUP on the
    client; destroying the popups of a chain from the topmost down, the
    reverse of the order in which they were pushed, posts no such error. *)
Theorem C7_popup_destroy (calloc_ok : bool) : popup_destroy_spec calloc_ok.
Proof.
  split.
  - intros w self s p seat Hlive Hst Hav Hnot.
    destruct (destroy_popup_run calloc_ok w self s p seat)
      as (w' & Hrun & _); auto.
    eexists _, _. split; [exact Hrun|].
    rewrite decide_False by assumption. right. now left.
  - intros w seat l. apply destroy_chain.
Qed.

Lemma C7_popup_destroy_witness :
  (exists w' evs,
     xdg_surface_destroy true world_grabbed 2%positive = Some (w', evs) /\
     In (not_the_topmost_popup
           (set_role_data (role_popup (popup_grabbed 1)) surface_P1)) evs) /\
  (exists w' evs,
     xdg_surface_destroy_all true world_grabbed [3%positive; 2%positive]
     = Some (w', evs) /\
     (forall e, In e evs -> ~ is_not_the_topmost_popup e) /\
     chain_popups (popup_grabs w') 20%positive = []).
Proof.
  split.
  - apply (proj1 (C7_popup_destroy true) world_grabbed 2%positive
             (set_role_data (role_popup (popup_grabbed 1)) surface_P1)
             (popup_grabbed 1) 20%positive).
    + repeat split; try reflexivity; eexists; reflexivity.
    + eexists; reflexivity.
    + left; reflexivity.
    + discriminate.
  - apply (proj2 (C7_popup_destroy true) world_grabbed 20%positive
             [3%positive; 2%positive]).
    split; [reflexivity|]. split.
    { apply NoDup_cons. split; [|apply NoDup_singleton].
      intros H. apply list_elem_of_In in H. simpl in H.
      destruct H as [H|[]]. discriminate H. }
    split; [eexists; reflexivity|].
    intros above q below Hl.
    destruct above as [|a above]; [|destruct above as [|b above]].
    + simpl in Hl. injection Hl as <- <-.
      exists (set_role_data (role_popup (popup_grabbed 2)) surface_P2),
             (popup_grabbed 2).
      split; [|intros []].
      repeat split; try reflexivity; eexists; reflexivity.
    + simpl in Hl. injection Hl as <- <- <-.
      exists (set_role_data (role_popup (popup_grabbed 1)) surface_P1),
             (popup_grabbed 1).
      split; [|intros [H|[]]; discriminate H].
      repeat split; try reflexivity; eexists; reflexivity.
    + exfalso. simpl in Hl. injection Hl as _ _ Hl.
      destruct above; discriminate Hl.
Defined.

(** The scenario: with P2 on top of P1, destroying P1 first posts the
    error; destroying P2 and then P1 emits the two destroy signals only. *)
Example destroy_P1_first :
  snd <$> xdg_surface_destroy true world_grabbed 2%positive
  = Some [wlr_signal_emit_safe (events_destroy 2%positive);
          wl_resource_post_error (xdg_client_resource 10%positive)
            XDG_WM_BASE_ERROR_NOT_THE_TOPMOST_POPUP].
Proof. vm_compute. reflexivity. Qed.

Example destroy_P2_then_P1 :
  snd <$> xdg_surface_destroy_all true world_grabbed [3%positive; 2%positive]
  = Some [wlr_signal_emit_safe (events_destroy 3%positive);
          wlr_signal_emit_safe (events_destroy 2%positive)].
Proof. vm_compute. reflexivity. Qed.


(** ** Buffers on unconfigured surfaces *)

Lemma world_eta w :
  mk_world (xdg_surfaces w) (wlr_surfaces w) (xdg_clients w) (seats w)
    (popup_grabs w) (ping_timeout w) (display w) = w.
Proof. now destruct w. Qed.

(** The rejected situations do what the statement says. *)
Lemma buffer_rejected_run r w resource :
  buffer_rejected r w resource ->
  xdg_shell_dispatch r w = Some (w, [unconfigured_buffer resource]).
Proof.
  destruct r; simpl; try tauto.
  - intros ([self Hself] & Hg & Hn & Hr & base & Hb & Hbuf & ->).
    unfold xdg_shell_get_xdg_surface.
    rewrite Hself, Hg, Hn, Hr, Hb. simpl.
    unfold wlr_surface_has_buffer. now rewrite Hbuf.
  - intros (s & base & Hs & Hb & Hbuf & Hconf & ->).
    unfold on_surface_display. rewrite Hs. simpl. rewrite Hb. simpl.
    unfold handle_wlr_surface_committed, wlr_surface_has_buffer.
    rewrite Hbuf, Hconf. simpl.
    rewrite insert_id by assumption.
    unfold set_display, set_xdg_surfaces. simpl. now rewrite world_eta.
Qed.


Ltac split_events :=
  repeat match goal with
    | H : False |- _ => destruct H
    | H : _ \/ _ |- _ => destruct H as [H|H]
    | H : In _ [] |- _ => destruct H
    | H : In _ (_ :: _) |- _ => destruct H as [H|H]
    | H : In _ (_ ++ _) |- _ => apply in_app_or in H as [H|H]
    | H : In _ (map _ _) |- _ => apply in_map_iff in H as (? & H & _)
    | H : _ = unconfigured_buffer _ |- _ => discriminate H
    end.

Ltac run_handler :=
  repeat (simplify_option_eq || case_match); simpl in *; split_events.

(** A commit posts the error only when the surface has a buffer and is not
    configured. *)
Lemma committed_unconfigured self base s d s' d' evs resource :
  handle_wlr_surface_committed self base s d = Some (s', d', evs) ->
  In (unconfigured_buffer resource) evs ->
  has_buffer base = true /\ configured s = false /\
  resource = xdg_surface_resource self.
Proof.
  unfold handle_wlr_surface_committed, wlr_surface_has_buffer.
  destruct (has_buffer base && negb (configured s)) eqn:Hrej.
  - intros [= <- <- <-] [Hin|[]]. injection Hin as <-.
    apply andb_true_iff in Hrej as [-> Hc].
    apply negb_true_iff in Hc. auto.
  - unfold wlr_xdg_surface_toplevel_committed,
      wlr_xdg_surface_popup_committed.
    intros H Hin. exfalso. run_handler.
Qed.

(** No other request posts the error. *)
Lemma buffer_rejected_only r w w' evs resource :
  xdg_shell_dispatch r w = Some (w', evs) ->
  In (unconfigured_buffer resource) evs ->
  buffer_rejected r w resource.
Proof.
  destruct r; simpl; intros H Hin.
  - unfold xdg_shell_get_xdg_surface, wlr_surface_has_buffer in H.
    destruct (alloc_surface a) as [self|] eqn:Hself; [|run_handler].
    destruct (alloc_geometry a); [|run_handler].
    destruct (alloc_next_geometry a); [|run_handler].
    destruct (alloc_resource a); [|run_handler].
    simpl in H.
    destruct (wlr_surfaces w !! surface_resource) as [base|] eqn:Hb;
      [|discriminate].
    simpl in H. destruct (has_buffer base) eqn:Hbuf; [|run_handler].
    injection H as <- <-. destruct Hin as [Hin|[]]. injection Hin as <-.
    repeat split; eauto.
  - exfalso. unfold xdg_shell_pong in H. run_handler.
  - exfalso. revert H Hin.
    unfold xdg_surface_destroy, xdg_surface_destroy_grab,
      wlr_seat_pointer_end_grab, xdg_pointer_grab_end.
    intros H Hin. run_handler.
  - exfalso. unfold on_surface, xdg_surface_ack_configure in H. run_handler.
  - exfalso. unfold on_surface, xdg_surface_set_window_geometry in H.
    run_handler.
  - unfold on_surface_display in H.
    destruct (xdg_surfaces w !! self) as [s|] eqn:Hs; [|discriminate].
    simpl in H.
    destruct (wlr_surfaces w !! surface s) as [base|] eqn:Hb; [|discriminate].
    simpl in H.
    destruct (handle_wlr_surface_committed self base s (display w))
      as [[[s' d'] evs']|] eqn:Hrun; [|discriminate].
    injection H as <- <-.
    destruct (committed_unconfigured _ _ _ _ _ _ _ _ Hrun Hin)
      as (Hbuf & Hconf & ->).
    eauto 10.
  - exfalso.
    unfold on_surface, xdg_toplevel_protocol_set_max_size, with_next in H.
    run_handler.
  - exfalso.
    unfold on_surface, xdg_toplevel_protocol_set_min_size, with_next in H.
    run_handler.
  - exfalso.
    unfold on_surface, xdg_toplevel_protocol_set_maximized, with_next in H.
    run_handler.
  - exfalso.
    unfold on_surface, xdg_toplevel_protocol_unset_maximized, with_next in H.
    run_handler.
  - exfalso.
    unfold on_surface, xdg_toplevel_protocol_set_fullscreen, with_next in H.
    run_handler.
  - exfalso.
    unfold on_surface, xdg_toplevel_protocol_unset_fullscreen, with_next in H.
    run_handler.
  - exfalso. unfold on_surface, xdg_toplevel_protocol_set_minimized in H.
    run_handler.
  - exfalso. unfold xdg_popup_protocol_grab in H. run_handler.
  - exfalso.
    unfold on_surface, wlr_xdg_surface_send_configure,
      wlr_xdg_toplevel_send_configure in H.
    run_handler.
  - exfalso.
    unfold on_surface_display, without_events in H. run_handler.
  - exfalso.
    unfold on_surface_display, without_events in H. run_handler.
  - exfalso.
    unfold on_surface_display, without_events in H. run_handler.
  - exfalso.
    unfold on_surface_display, without_events in H. run_handler.
  - exfalso.
    unfold on_surface_display, without_events in H. run_handler.
  - exfalso. unfold wlr_xdg_surface_ping in H. run_handler.
Qed.

Ltac unfold_handlers H :=
  unfold xdg_shell_get_xdg_surface, xdg_shell_pong, xdg_surface_destroy,
    xdg_surface_destroy_grab, wlr_seat_pointer_end_grab, on_surface,
    on_surface_display, xdg_surface_ack_configure,
    xdg_surface_set_window_geometry, handle_wlr_surface_committed,
    wlr_xdg_surface_toplevel_committed, wlr_xdg_surface_popup_committed,
    xdg_toplevel_protocol_set_max_size, xdg_toplevel_protocol_set_min_size,
    xdg_toplevel_protocol_set_maximized,
    xdg_toplevel_protocol_unset_maximized,
    xdg_toplevel_protocol_set_fullscreen,
    xdg_toplevel_protocol_unset_fullscreen,
    xdg_toplevel_protocol_set_minimized, with_next, xdg_popup_protocol_grab,
    wlr_xdg_surface_send_configure, wlr_xdg_toplevel_send_configure,
    without_events, wlr_xdg_toplevel_set_size,
    wlr_xdg_toplevel_set_activated, wlr_xdg_toplevel_set_maximized,
    wlr_xdg_toplevel_set_fullscreen, wlr_xdg_toplevel_set_resizing,
    with_pending, wlr_xdg_surface_schedule_configure, wlr_xdg_surface_ping
    in H.

Ltac run_maps :=
  repeat (case_match || simplify_option_eq);
  repeat match goal with
    | H : <[_ := _]> _ !! _ = Some _ |- _ =>
        rewrite lookup_insert in H; case_decide; simplify_eq/=
    | H : delete _ _ !! _ = Some _ |- _ =>
        rewrite lookup_delete in H; case_decide; simplify_eq/=
    end.

(** The configured flag is raised by ack_configure only. *)
Lemma configured_by_ack r w w' evs self s s' :
  xdg_shell_dispatch r w = Some (w', evs) ->
  xdg_surfaces w !! self = Some s ->
  xdg_surfaces w' !! self = Some s' ->
  configured s = false -> configured s' = true ->
  exists serial, r = ack_configure self serial.
Proof.
  intros H Hs Hs' Hc Hc'.
  destruct r; simpl in H; unfold_handlers H;
    try (exfalso; run_maps; simpl in *; congruence).
  destruct (decide (self0 = self)) as [->|Hne]; [eauto|].
  exfalso; run_maps; simpl in *; congruence.
Qed.

(** C5: a buffer is rejected with UNCONFIGURED_BUFFER in exactly two
    situations, creating an xdg_surface over an underlying surface that
    already has a buffer and committing a buffer on a surface whose
    configured flag is still false, a flag that only an ack_configure
    raises; in both the error is all that happens. No other request or
    call posts that error. *)
Theorem C5_unconfigured_buffer : unconfigured_buffer_spec.
Proof.
  split; [|split].
  - apply buffer_rejected_run.
  - apply buffer_rejected_only.
  - apply configured_by_ack.
Qed.

Lemma C5_unconfigured_buffer_witness :
  xdg_shell_dispatch
    (get_xdg_surface (mk_surface_alloc (Some 4%positive) true true true)
       10%positive 104%positive) world_0
  = Some (world_0, [unconfigured_buffer (wl_surface_resource 104%positive)])
  /\
  xdg_shell_dispatch (surface_committed 3%positive) world_0
  = Some (world_0, [unconfigured_buffer (xdg_surface_resource 3%positive)]).
Proof.
  split.
  - apply (proj1 C5_unconfigured_buffer). simpl.
    split; [eexists; reflexivity|]. do 3 (split; [reflexivity|]).
    exists (base_of 4 true). repeat split; reflexivity.
  - apply (proj1 C5_unconfigured_buffer). simpl.
    exists surface_P2, (base_of 3 true). repeat split; reflexivity.
Defined.

(** ** The scenarios of the handshake *)

(** First configure: the first commit of a toplevel, without a buffer,
    schedules a configure; the idle task sends size (0,0) with no states
    and then the surface configure with the reserved serial; the surface is
    not announced yet. *)
Example first_configure :
  exists w,
    xdg_shell_run [surface_committed 1%positive;
                   dispatch_idle true (fun _ => true)] world_fresh
    = Some (w, [xdg_toplevel_send_configure (xdg_toplevel_resource 1%positive)
                  0 0 [];
                xdg_surface_send_configure (xdg_surface_resource 1%positive) 1])
    /\ added <$> xdg_surfaces w !! 1%positive = Some false
    /\ (fun s => cfg_serial <$> configure_list s)
         <$> xdg_surfaces w !! 1%positive
       = Some [1].
Proof. eexists. split; [vm_compute; reflexivity|]. split; reflexivity. Qed.

(** Coalesced state changes: three mutations in one turn of the event loop
    are answered by one configure. *)
Example coalesced_configure :
  snd <$> xdg_shell_run [toplevel_set_activated 1%positive true;
                         toplevel_set_maximized 1%positive true;
                         toplevel_set_size 1%positive 1024 768;
                         dispatch_idle true (fun _ => true);
                         dispatch_idle true (fun _ => true)] world_0
  = Some [xdg_toplevel_send_configure (xdg_toplevel_resource 1%positive)
            1024 768
            [XDG_TOPLEVEL_STATE_MAXIMIZED; XDG_TOPLEVEL_STATE_ACTIVATED];
          xdg_surface_send_configure (xdg_surface_resource 1%positive) 1].
Proof. vm_compute. reflexivity. Qed.

(** Stale ack: with 3, 4 and 5 outstanding, acknowledging 4 dequeues 3 and
    4 and leaves 5. *)
Example stale_ack :
  let '(s, evs) := xdg_surface_ack_configure 1%positive surface_345 4 in
  evs = [] /\ cfg_serial <$> configure_list s = [5] /\
  configure_serial s = 4 /\ configured s = true.
Proof. repeat split; reflexivity. Qed.

(** Unknown ack: acknowledging 7 while only 6 is outstanding is an error,
    and 6 is gone. *)
Example unknown_ack :
  xdg_surface_ack_configure 1%positive
    (set_configure_list [configure_n 6] surface_345) 7
  = (set_configure_list [] surface_345, [invalid_surface_state surface_345]).
Proof. reflexivity. Qed.


(** * Further properties *)

(** ** The order of the queue *)

Lemma later_than_all serial l :
  Forall (fun c => serial < cfg_serial c) l -> later_than serial l = l.
Proof.
  induction 1 as [|c l Hc Hl IH]; [reflexivity|].
  unfold later_than in *. rewrite filter_cons, decide_True by assumption.
  now rewrite IH.
Qed.

Lemma queue_increasing_tail c l :
  queue_increasing (c :: l) ->
  queue_increasing l /\ Forall (fun c' => cfg_serial c < cfg_serial c') l.
Proof. intros H. apply StronglySorted_inv in H. exact H. Qed.

(** The walk over an increasing queue. *)
Lemma ack_configure_loop_increasing serial l :
  queue_increasing l ->
  fst (ack_configure_loop serial l) = later_than serial l /\
  (is_Some (snd (ack_configure_loop serial l)) <->
   exists c, In c l /\ cfg_serial c = serial).
Proof.
  induction l as [|c l IH]; intros Hinc; simpl.
  - split; [reflexivity|]. split; [intros [x Hx]; discriminate|].
    intros (c & [] & _).
  - apply queue_increasing_tail in Hinc as [Hl Hall].
    destruct (IH Hl) as [IHq IHf].
    destruct (Z.ltb_spec (cfg_serial c) serial) as [Hlt|Hge].
    + unfold later_than. rewrite filter_cons, decide_False by lia.
      split; [exact IHq|]. rewrite IHf. split.
      * intros (c' & Hin & Heq). exists c'. split; [now right|exact Heq].
      * intros (c' & [<-|Hin] & Heq); [lia|eauto].
    + destruct (Z.eqb_spec (cfg_serial c) serial) as [Heq|Hne]; simpl.
      * split.
        { unfold later_than. rewrite filter_cons, decide_False by lia.
          symmetry. apply later_than_all.
          eapply Forall_impl; [exact Hall|]. simpl. intros; lia. }
        split; [intros _; exists c; split; [now left|exact Heq]|eauto].
      * split.
        { symmetry. apply later_than_all. constructor; [lia|].
          eapply Forall_impl; [exact Hall|]. simpl. intros; lia. }
        split; [intros [x Hx]; discriminate|].
        intros (c' & [<-|Hin] & Heq); [congruence|].
        rewrite Forall_forall in Hall.
        apply list_elem_of_In, Hall in Hin. lia.
Qed.

Lemma later_than_increasing serial l :
  queue_increasing l -> queue_increasing (later_than serial l).
Proof.
  induction l as [|c l IH]; intros Hinc; [constructor|].
  apply queue_increasing_tail in Hinc as [Hl Hall].
  unfold later_than in *. rewrite filter_cons.
  destruct (decide _); [|now apply IH].
  constructor; [now apply IH|].
  apply Forall_forall. intros c' Hin.
  apply list_elem_of_In, list_elem_of_In, list_elem_of_filter in Hin
    as [_ Hin].
  rewrite Forall_forall in Hall. now apply Hall.
Qed.

Lemma ack_increasing (self : ptr) (s : wlr_xdg_surface)
    (serial : uint32_t) :
  role s <> WLR_XDG_SURFACE_ROLE_NONE ->
  queue_increasing (configure_list s) ->
  ack_increasing_spec self s serial.
Proof.
  intros Hrole Hinc. unfold ack_increasing_spec.
  destruct (ack_configure_loop_increasing serial _ Hinc) as [Hq Hf].
  unfold xdg_surface_ack_configure, role in *.
  destruct (ack_configure_loop serial (configure_list s)) as [l found].
  simpl in Hq, Hf. subst l.
  pose proof (later_than_increasing serial _ Hinc) as Hinc'.
  destruct (role_data s) eqn:E; [congruence| |];
    destruct found as [c|]; simpl; rewrite ?E; simpl;
    (split; [auto|]);
    (split; [|repeat split; auto; unfold role; simpl; now rewrite E]);
    (split; [intros H; try discriminate H; apply Hf; eauto
            |intros H; apply Hf in H as [x Hx]; try discriminate Hx;
             reflexivity]).
Qed.

Lemma ack_client self s serial :
  client (fst (xdg_surface_ack_configure self s serial)) = client s.
Proof.
  unfold xdg_surface_ack_configure.
  destruct (role s); [reflexivity| |];
    destruct (ack_configure_loop _ _) as [l [c|]]; simpl;
    try reflexivity; destruct (role_data s); reflexivity.
Qed.

(** After an ack of [serial], matched or not, every serial up to [serial]
    is unknown. *)
Lemma ack_again self s serial serial' :
  role s <> WLR_XDG_SURFACE_ROLE_NONE ->
  queue_increasing (configure_list s) ->
  serial' <= serial ->
  snd (xdg_surface_ack_configure self
         (fst (xdg_surface_ack_configure self s serial)) serial')
  = [invalid_surface_state s].
Proof.
  intros Hrole Hinc Hle.
  pose proof (ack_increasing self s serial Hrole Hinc) as H1.
  pose proof (ack_client self s serial) as Hcl.
  unfold ack_increasing_spec in H1.
  destruct (xdg_surface_ack_configure self s serial) as [s1 evs1].
  simpl in *. destruct H1 as (_ & _ & Hq & Hinc1 & Hrole1).
  assert (Hr1 : role s1 <> WLR_XDG_SURFACE_ROLE_NONE) by congruence.
  pose proof (ack_increasing self s1 serial' Hr1 Hinc1) as H2.
  unfold ack_increasing_spec in H2.
  destruct (xdg_surface_ack_configure self s1 serial') as [s2 evs2].
  simpl. destruct H2 as ([-> | ->] & Hiff & _).
  - exfalso. destruct Hiff as [Hiff _].
    destruct (Hiff eq_refl) as (c & Hin & Hc).
    rewrite Hq in Hin. unfold later_than in Hin.
    apply list_elem_of_In, list_elem_of_filter in Hin as [Hgt _]. lia.
  - unfold invalid_surface_state. now rewrite Hcl.
Qed.

(** X1: on a surface with a role whose queue is strictly increasing,
    ack_configure(S) posts no error exactly when S is outstanding, and in
    either case leaves exactly the entries with a serial greater than S, in
    order. *)
Theorem X1_ack_increasing (self : ptr) (s : wlr_xdg_surface)
    (serial : uint32_t) :
  role s <> WLR_XDG_SURFACE_ROLE_NONE ->
  queue_increasing (configure_list s) ->
  ack_increasing_spec self s serial.
Proof. apply ack_increasing. Qed.

Lemma queue_345_increasing : queue_increasing (configure_list surface_345).
Proof.
  repeat constructor; vm_compute; reflexivity.
Qed.

Lemma X1_ack_increasing_witness : ack_increasing_spec 1%positive surface_345 4.
Proof.
  apply (X1_ack_increasing 1%positive surface_345 4).
  - discriminate.
  - exact queue_345_increasing.
Defined.

(** X2: on a surface with a role whose queue is strictly increasing, once
    S was acknowledged (or its acknowledgement was refused), acknowledging
    any serial up to S, S itself included, posts INVALID_SURFACE_STATE. *)
Theorem X2_ack_again (self : ptr) (s : wlr_xdg_surface)
    (serial serial' : uint32_t) :
  role s <> WLR_XDG_SURFACE_ROLE_NONE ->
  queue_increasing (configure_list s) ->
  serial' <= serial ->
  snd (xdg_surface_ack_configure self
         (fst (xdg_surface_ack_configure self s serial)) serial')
  = [invalid_surface_state s].
Proof. apply ack_again. Qed.

Lemma X2_ack_again_witness :
  snd (xdg_surface_ack_configure 1%positive
         (fst (xdg_surface_ack_configure 1%positive surface_345 4)) 4)
  = [invalid_surface_state surface_345].
Proof.
  apply (X2_ack_again 1%positive surface_345 4 4).
  - discriminate.
  - exact queue_345_increasing.
  - lia.
Defined.

(** ** Scheduling, and the handshake as a whole *)

Lemma schedule_configure_defined self base s d :
  role s <> WLR_XDG_SURFACE_ROLE_NONE ->
  exists r, wlr_xdg_surface_schedule_configure self base s d = Some r.
Proof.
  unfold role, wlr_xdg_surface_schedule_configure, pending_same.
  destruct (role_data s); [congruence| |]; intros _; simpl;
    destruct (configure_idle s);
    repeat match goal with |- context [if ?b then _ else _] => destruct b end;
    eauto.
Qed.

Lemma pending_same_schedule self base s d s1 d1 n :
  wlr_xdg_surface_schedule_configure self base s d = Some (s1, d1, n) ->
  pending_same base s1 = pending_same base s.
Proof.
  unfold wlr_xdg_surface_schedule_configure.
  destruct (pending_same base s) as [same|] eqn:E; [|discriminate].
  simpl. destruct (configure_idle s), same; simpl; intros [= <- <- <-];
    rewrite <- E; reflexivity.
Qed.

(** A second call changes nothing and returns what the first returned. *)
Lemma schedule_configure_again self base s d s1 d1 n :
  wlr_xdg_surface_schedule_configure self base s d = Some (s1, d1, n) ->
  wlr_xdg_surface_schedule_configure self base s1 d1 = Some (s1, d1, n).
Proof.
  intros H. pose proof (pending_same_schedule _ _ _ _ _ _ _ H) as Hsame.
  revert H. unfold wlr_xdg_surface_schedule_configure. rewrite Hsame.
  destruct (pending_same base s) as [same|]; [|discriminate].
  simpl. destruct (configure_idle s) eqn:Ei, same; simpl;
    intros [= <- <- <-]; simpl; rewrite ?Ei; reflexivity.
Qed.

Lemma schedule_configure_times_fixed n self base s d m :
  wlr_xdg_surface_schedule_configure self base s d = Some (s, d, m) ->
  schedule_configure_times n self base s d = Some (s, d).
Proof.
  intros H. induction n as [|n IH]; [reflexivity|].
  simpl. rewrite H. simpl. exact IH.
Qed.

Lemma schedule_configure_idle_length self base s d s1 d1 m :
  wlr_xdg_surface_schedule_configure self base s d = Some (s1, d1, m) ->
  (length (idle d1) <= S (length (idle d)))%nat.
Proof.
  unfold wlr_xdg_surface_schedule_configure.
  destruct (pending_same base s) as [same|]; [|discriminate].
  simpl. destruct (configure_idle s), same; simpl; intros [= <- <- <-];
    simpl; rewrite ?length_app; simpl; try lia.
  pose proof (length_filter (fun e : ptr * ptr => fst e <> p) (idle d)). lia.
Qed.

Lemma schedule_configure_total self base s d :
  role s <> WLR_XDG_SURFACE_ROLE_NONE ->
  is_Some (wlr_xdg_surface_schedule_configure self base s d).
Proof.
  intros Hrole.
  destruct (schedule_configure_defined self base s d Hrole) as [x ->].
  eauto.
Qed.

(** X3: on a surface with a role, schedule_configure called any number of
    times in a row (at least once) leaves the state that one call leaves
    and returns the same serial again; the event loop gains at most one
    idle task. *)
Theorem X3_schedule_configure_repeated (self : ptr) (base : wlr_surface)
    (s : wlr_xdg_surface) (d : wl_display) :
  role s <> WLR_XDG_SURFACE_ROLE_NONE ->
  exists s1 d1 m,
    wlr_xdg_surface_schedule_configure self base s d = Some (s1, d1, m) /\
    wlr_xdg_surface_schedule_configure self base s1 d1 = Some (s1, d1, m) /\
    (forall n, schedule_configure_times (S n) self base s d = Some (s1, d1)) /\
    (length (idle d1) <= S (length (idle d)))%nat.
Proof.
  intros Hrole.
  destruct (schedule_configure_total self base s d Hrole) as [[[s1 d1] m] H].
  exists s1, d1, m. split; [exact H|].
  pose proof (schedule_configure_again _ _ _ _ _ _ _ H) as H2.
  split; [exact H2|]. split.
  - intros n. simpl. rewrite H. simpl.
    now apply schedule_configure_times_fixed with (m := m).
  - now apply schedule_configure_idle_length in H.
Qed.

Lemma X3_schedule_configure_repeated_witness :
  exists s1 d1 m,
    wlr_xdg_surface_schedule_configure 1%positive base_empty surface_fresh
      display_0 = Some (s1, d1, m) /\
    wlr_xdg_surface_schedule_configure 1%positive base_empty s1 d1
    = Some (s1, d1, m) /\
    (forall n, schedule_configure_times (S n) 1%positive base_empty
                 surface_fresh display_0 = Some (s1, d1)) /\
    (length (idle d1) <= S (length (idle display_0)))%nat.
Proof.
  apply (X3_schedule_configure_repeated 1%positive base_empty surface_fresh
           display_0).
  discriminate.
Defined.

(** The comparison reads the surface's configured flag and queue only. *)
Lemma compare_surface_ext base s s' t :
  configured s' = configured s -> configure_list s' = configure_list s ->
  wlr_xdg_surface_toplevel_state_compare base s' t
  = wlr_xdg_surface_toplevel_state_compare base s t.
Proof.
  intros Hc Hl. unfold wlr_xdg_surface_toplevel_state_compare.
  now rewrite Hc, Hl.
Qed.

Lemma set_st_size_back st w h :
  set_st_size (st_width st) (st_height st) (set_st_size w h st) = st.
Proof. now destruct st. Qed.

Lemma set_pending_back t st : set_pending (pending t) (set_pending st t) = t.
Proof. now destruct t. Qed.

Lemma filter_source_fresh (d : wl_display) (self : ptr) :
  next_source_fresh d ->
  filter (fun e : ptr * ptr => fst e <> next_source d)
    (idle d ++ [(next_source d, self)]) = idle d.
Proof.
  unfold next_source_fresh. intros Hfresh.
  rewrite filter_app, filter_cons, decide_False, filter_nil, app_nil_r
    by (simpl; tauto).
  induction Hfresh as [|e l He Hl IH]; [reflexivity|].
  rewrite filter_cons, decide_True by assumption. now rewrite IH.
Qed.

Lemma set_size_undone self base s t d w h :
  role_data s = role_toplevel t ->
  configure_idle s = None ->
  wlr_xdg_surface_toplevel_state_compare base s t = true ->
  wlr_xdg_surface_toplevel_state_compare base s
    (set_pending (set_st_size w h (pending t)) t) = false ->
  next_source_fresh d ->
  set_size_undone_spec self base s d w h
    (st_width (pending t)) (st_height (pending t)).
Proof.
  intros Hr Hidle Hsame Hdiff Hfresh. unfold set_size_undone_spec.
  unfold wlr_xdg_toplevel_set_size, with_pending. rewrite Hr.
  unfold wlr_xdg_surface_schedule_configure at 1, pending_same. simpl.
  rewrite (compare_surface_ext base s (set_role_data _ s) _ eq_refl eq_refl).
  rewrite Hdiff, Hidle. simpl.
  eexists _, _, _, _. split; [reflexivity|]. split; [reflexivity|].
  simpl. rewrite set_st_size_back, set_pending_back.
  unfold wlr_xdg_surface_schedule_configure, pending_same. simpl.
  erewrite (compare_surface_ext base s) by reflexivity.
  rewrite Hsame. simpl.
  split; [reflexivity|]. simpl.
  repeat split; auto. now apply filter_source_fresh.
Qed.

(** X4: a size change that is taken back within the same turn sends no
    configure. On a toplevel with no idle task pending whose pending state
    compares as same, set_size to a size that compares as different
    reserves the next serial and adds an idle task; set_size back to the old
    pending size cancels that task and returns 0, and the queue, the role
    state and the idle sources are as before. *)
Theorem X4_set_size_undone (self : ptr) (base : wlr_surface)
    (s : wlr_xdg_surface) (t : wlr_xdg_toplevel) (d : wl_display)
    (w h : uint32_t) :
  role_data s = role_toplevel t ->
  configure_idle s = None ->
  wlr_xdg_surface_toplevel_state_compare base s t = true ->
  wlr_xdg_surface_toplevel_state_compare base s
    (set_pending (set_st_size w h (pending t)) t) = false ->
  next_source_fresh d ->
  set_size_undone_spec self base s d w h
    (st_width (pending t)) (st_height (pending t)).
Proof. apply set_size_undone. Qed.

Lemma X4_set_size_undone_witness :
  set_size_undone_spec 1%positive base_800x600 surface_345 display_0
    1024 768 0 0.
Proof.
  apply (X4_set_size_undone 1%positive base_800x600 surface_345
           toplevel_fresh display_0 1024 768); try reflexivity.
  constructor.
Defined.

Lemma ack_configure_loop_last serial l configure :
  Forall (fun c => cfg_serial c < serial) l ->
  cfg_serial configure = serial ->
  ack_configure_loop serial (l ++ [configure]) = ([], Some configure).
Proof.
  intros Hall Heq. induction Hall as [|c l Hc Hl IH]; simpl.
  - rewrite Heq, Z.ltb_irrefl, Z.eqb_refl. reflexivity.
  - apply Z.ltb_lt in Hc. now rewrite Hc.
Qed.

Lemma toplevel_send_configure_entry ok self s t configure :
  fst (wlr_xdg_toplevel_send_configure ok self s t configure)
  = mk_configure (cfg_serial configure) (pending t).
Proof.
  unfold wlr_xdg_toplevel_send_configure.
  destruct (_ ≫= _); [|reflexivity].
  destruct (_ || _); reflexivity.
Qed.

Lemma handshake ok self base s t d :
  role_data s = role_toplevel t ->
  Forall (fun c => cfg_serial c < configure_next_serial s) (configure_list s) ->
  has_buffer base = true ->
  handshake_spec ok self base s t d.
Proof.
  intros Hr Hall Hbuf. unfold handshake_spec.
  set (configure := mk_configure (configure_next_serial s) (pending t)).
  set (s1 := set_configure_list (configure_list s ++ [configure])
               (set_configure_idle None s)).
  set (s2 := set_configure_serial (configure_next_serial s)
               (set_configured true
                  (set_role_data
                     (role_toplevel (wlr_xdg_toplevel_ack_configure t configure))
                     (set_configure_list [] s1)))).
  assert (H1 : exists evs1,
             wlr_xdg_surface_send_configure true ok self s = Some (s1, evs1)).
  { unfold wlr_xdg_surface_send_configure. simpl. rewrite Hr.
    pose proof (toplevel_send_configure_entry ok self
                  (set_configure_idle None s) t
                  (mk_configure (configure_next_serial s) zero_toplevel_state))
      as Hentry.
    destruct (wlr_xdg_toplevel_send_configure _ _ _ _ _) as [c evs].
    simpl in Hentry. subst c. eauto. }
  assert (H2 : xdg_surface_ack_configure self s1 (configure_next_serial s)
               = (s2, [])).
  { unfold xdg_surface_ack_configure, role. simpl. rewrite Hr.
    rewrite ack_configure_loop_last by (assumption || reflexivity).
    simpl. rewrite ?Hr. reflexivity. }
  assert (H3 : exists s3 evs3 t3,
             handle_wlr_surface_committed self base s2 d = Some (s3, d, evs3)
             /\ role_data s3 = role_toplevel t3
             /\ current t3 = pending t /\ next t3 = pending t
             /\ pending t3 = set_st_size 0 0 (pending t)
             /\ configure_list s3 = [] /\ configured s3 = true
             /\ configure_serial s3 = configure_next_serial s).
  { unfold handle_wlr_surface_committed, wlr_surface_has_buffer,
      wlr_xdg_surface_toplevel_committed.
    rewrite Hbuf. simpl.
    destruct (has_next_geometry s); simpl;
      unfold wlr_xdg_surface_toplevel_committed, wlr_surface_has_buffer;
      rewrite ?Hbuf; simpl;
      destruct (added s); simpl;
      (eexists _, _, _; split; [reflexivity|]; simpl; repeat split). }
  destruct H1 as [evs1 H1]. destruct H3 as (s3 & evs3 & t3 & H3).
  exists s1, evs1, s2, s3, evs3, t3. auto.
Qed.

(** X5: the handshake round trip of a toplevel whose queued serials are all
    below the reserved one. The idle task sends the pending state, the
    client acknowledges the serial sent and commits a buffer: then the
    current and the next state are the pending state of the time of
    sending, the pending size is (0,0), the queue is empty and the surface
    is configured with that serial. *)
Theorem X5_handshake (array_add_ok : nat -> bool) (self : ptr)
    (base : wlr_surface) (s : wlr_xdg_surface) (t : wlr_xdg_toplevel)
    (d : wl_display) :
  role_data s = role_toplevel t ->
  Forall (fun c => cfg_serial c < configure_next_serial s) (configure_list s) ->
  has_buffer base = true ->
  handshake_spec array_add_ok self base s t d.
Proof. apply handshake. Qed.

Lemma X5_handshake_witness :
  handshake_spec (fun _ => true) 1%positive base_800x600
    (set_configure_next_serial 6 surface_0x600) toplevel_0x600 display_0.
Proof.
  apply (X5_handshake (fun _ => true) 1%positive base_800x600
           (set_configure_next_serial 6 surface_0x600) toplevel_0x600
           display_0); try reflexivity.
  constructor.
Defined.

Lemma commit_defined self base s d :
  is_Some (handle_wlr_surface_committed self base s d).
Proof.
  unfold handle_wlr_surface_committed.
  destruct (_ && negb (configured s)); [eauto|].
  set (s0 := if has_next_geometry s then _ else s).
  destruct (role_data s0) as [|t|p] eqn:E; simpl.
  - destruct (_ && _); eauto.
  - unfold wlr_xdg_surface_toplevel_committed.
    destruct (_ && negb (toplevel_added t)).
    + destruct (schedule_configure_defined self base s0 d) as [[[s1 d1] n] ->].
      { unfold role. now rewrite E. }
      simpl. destruct (_ && _); eauto.
    + destruct (negb _); simpl; destruct (_ && _); eauto.
  - unfold wlr_xdg_surface_popup_committed.
    destruct (negb (popup_committed p)).
    + destruct (schedule_configure_defined self base s0 d) as [[[s1 d1] n] ->].
      { unfold role. now rewrite E. }
      simpl. destruct (_ && _); eauto.
    + simpl. destruct (_ && _); eauto.
Qed.

Lemma schedule_configure_geometry self base s d s1 d1 n :
  wlr_xdg_surface_schedule_configure self base s d = Some (s1, d1, n) ->
  geometry s1 = geometry s /\ has_next_geometry s1 = has_next_geometry s.
Proof.
  unfold wlr_xdg_surface_schedule_configure.
  destruct (pending_same base s) as [same|]; [|discriminate]. simpl.
  destruct (configure_idle s), same; simpl; intros [= <- <- <-]; auto.
Qed.

Lemma window_geometry self base s d x y width height :
  role s <> WLR_XDG_SURFACE_ROLE_NONE ->
  window_geometry_spec self base s d x y width height.
Proof.
  intros Hrole. unfold window_geometry_spec.
  unfold xdg_surface_set_window_geometry.
  destruct (role s) eqn:Er; [congruence| |];
    (eexists; split; [reflexivity|]; split; [reflexivity|]; split;
     [ intros Hrej; unfold handle_wlr_surface_committed,
         wlr_surface_has_buffer; simpl; rewrite Hrej; eauto
     | intros Hok;
       destruct (commit_defined self base
                   (set_next_geometry (mk_box x y width height)
                      (set_has_next_geometry true s)) d)
         as [[[s2 d2] evs] Hrun];
       exists s2, d2, evs; split; [exact Hrun|];
       revert Hrun;
       unfold handle_wlr_surface_committed, wlr_surface_has_buffer,
         wlr_xdg_surface_toplevel_committed, wlr_xdg_surface_popup_committed;
       simpl; rewrite Hok; simpl; intros Hrun;
       repeat (case_match || simplify_option_eq);
       repeat match goal with
         | H : wlr_xdg_surface_schedule_configure _ _ _ _ = Some _ |- _ =>
             apply schedule_configure_geometry in H as [? ?]
         end;
       simpl in *; split; congruence ]).
Qed.

(** X6: the window geometry is double-buffered. On a surface with a role,
    set_window_geometry posts no error and leaves the geometry as it is; a
    commit that is not rejected makes the geometry the one that was set and
    clears the pending flag; a commit rejected for an unconfigured buffer
    changes nothing, so the geometry set stays pending. *)
Theorem X6_window_geometry (self : ptr) (base : wlr_surface)
    (s : wlr_xdg_surface) (d : wl_display) (x y width height : int32_t) :
  role s <> WLR_XDG_SURFACE_ROLE_NONE ->
  window_geometry_spec self base s d x y width height.
Proof. apply window_geometry. Qed.

Lemma X6_window_geometry_witness :
  window_geometry_spec 1%positive base_800x600 surface_800x600 display_0
    10 20 780 560.
Proof.
  apply (X6_window_geometry 1%positive base_800x600 surface_800x600
           display_0 10 20 780 560).
  discriminate.
Defined.


(** ** The invariant of the configure queues *)

Lemma queue_step_refl self s d s' :
  configure_list s' = configure_list s ->
  configure_idle s' = configure_idle s ->
  configure_next_serial s' = configure_next_serial s ->
  queue_step self s d s' d.
Proof. intros. split; auto. Qed.

Lemma schedule_queue_step self base s d s' d' n :
  wlr_xdg_surface_schedule_configure self base s d = Some (s', d', n) ->
  queue_step self s d s' d' /\ role_data s' = role_data s.
Proof.
  unfold wlr_xdg_surface_schedule_configure.
  destruct (pending_same base s) as [same|]; [|discriminate]. simpl.
  destruct (configure_idle s) as [source|] eqn:Ei, same; simpl;
    intros [= <- <- <-]; (split; [|reflexivity]); split; try reflexivity;
    simpl; rewrite ?Ei; eauto 10.
Qed.

Lemma queue_step_after self s d s1 d1 s2 :
  queue_step self s d s1 d1 ->
  configure_list s2 = configure_list s1 ->
  configure_idle s2 = configure_idle s1 ->
  configure_next_serial s2 = configure_next_serial s1 ->
  queue_step self s d s2 d1.
Proof.
  intros [Hl Hcases] Hl2 Hi2 Hn2. split; [congruence|].
  rewrite Hi2, Hn2. exact Hcases.
Qed.

Lemma queue_step_before self s0 s d s1 d1 :
  queue_step self s d s1 d1 ->
  configure_list s = configure_list s0 ->
  configure_idle s = configure_idle s0 ->
  configure_next_serial s = configure_next_serial s0 ->
  queue_step self s0 d s1 d1.
Proof.
  intros [Hl Hcases] Hl2 Hi2 Hn2. split; [congruence|].
  rewrite <- Hi2, <- Hn2. exact Hcases.
Qed.

Lemma commit_queue_step self base s d s' d' evs :
  handle_wlr_surface_committed self base s d = Some (s', d', evs) ->
  queue_step self s d s' d'.
Proof.
  unfold handle_wlr_surface_committed, wlr_xdg_surface_toplevel_committed,
    wlr_xdg_surface_popup_committed.
  intros H.
  repeat (case_match || simplify_option_eq);
    try (apply queue_step_refl; reflexivity);
    match goal with
    | H : wlr_xdg_surface_schedule_configure _ _ _ _ = Some _ |- _ =>
        apply schedule_queue_step in H as [H _]
    end;
    (eapply queue_step_after; [eapply queue_step_before; [eassumption|..]|..]);
    reflexivity.
Qed.

Lemma with_pending_queue_step f self base s d s' d' n :
  with_pending f self base s d = Some (s', d', n) ->
  queue_step self s d s' d'.
Proof.
  unfold with_pending. destruct (role_data s); try discriminate.
  intros H. apply schedule_queue_step in H as [H _].
  eapply queue_step_before; [exact H|..]; reflexivity.
Qed.

(** The display side. *)
Lemma NoDup_fst_filter (P : ptr * ptr -> Prop) `{!forall e, Decision (P e)}
    (l : list (ptr * ptr)) :
  NoDup (fst <$> l) -> NoDup (fst <$> filter P l).
Proof.
  induction l as [|e l IH]; [intros; constructor|].
  rewrite fmap_cons, NoDup_cons. intros [Hni Hnd].
  rewrite filter_cons. destruct (decide (P e)); [|now apply IH].
  rewrite fmap_cons, NoDup_cons. split; [|now apply IH].
  intros Hin. apply Hni.
  apply list_elem_of_fmap in Hin as (x & -> & Hx).
  apply list_elem_of_filter in Hx as [_ Hx].
  now apply list_elem_of_fmap_2.
Qed.

Lemma sources_wf_remove d source :
  sources_wf d -> sources_wf (wl_event_source_remove d source).
Proof.
  intros [Hnd Hlt]. split; simpl.
  - now apply NoDup_fst_filter.
  - apply Forall_forall. intros e He.
    apply list_elem_of_filter in He as [_ He].
    rewrite Forall_forall in Hlt. now apply Hlt.
Qed.

Lemma sources_wf_add d serial self :
  sources_wf d ->
  sources_wf (mk_display serial (idle d ++ [(next_source d, self)])
                (Pos.succ (next_source d))).
Proof.
  intros [Hnd Hlt]. split; simpl.
  - rewrite fmap_app. apply NoDup_app. split; [exact Hnd|]. split.
    + intros x Hx Hin. simpl in Hin. apply list_elem_of_singleton in Hin.
      subst x. apply list_elem_of_fmap in Hx as (e & He & Hin).
      rewrite Forall_forall in Hlt. apply Hlt in Hin. simpl in Hin.
      unfold ptr in *. rewrite <- He in Hin. lia.
    + simpl. apply NoDup_singleton.
  - apply Forall_app. split.
    + eapply Forall_impl; [exact Hlt|]. simpl. intros; lia.
    + constructor; [simpl; lia|constructor].
Qed.

Lemma sources_wf_serial d serial :
  sources_wf d -> sources_wf (mk_display serial (idle d) (next_source d)).
Proof. intros H. exact H. Qed.

(** The surface side. *)
Lemma surface_queue_inv_mono s s' d d' :
  surface_queue_inv s d ->
  configure_list s' = configure_list s ->
  configure_idle s' = configure_idle s ->
  configure_next_serial s' = configure_next_serial s ->
  display_serial d <= display_serial d' ->
  surface_queue_inv s' d'.
Proof.
  intros (Hinc & Hle & Hidle) Hl Hi Hn Hd.
  unfold surface_queue_inv. rewrite Hl, Hi, Hn.
  split; [exact Hinc|]. split.
  - eapply Forall_impl; [exact Hle|]. simpl. intros; lia.
  - intros Hsome. destruct (Hidle Hsome). split; [assumption|lia].
Qed.

Lemma to_uint32_succ z : 0 <= z -> z + 1 < 2 ^ 32 -> to_uint32 (z + 1) = z + 1.
Proof. intros. unfold to_uint32. apply Z.mod_small. lia. Qed.

Lemma queue_step_serial self s d s' d' :
  queue_step self s d s' d' ->
  0 <= display_serial d -> display_serial d + 1 < 2 ^ 32 ->
  display_serial d <= display_serial d'.
Proof.
  intros [_ [(_ & _ & ->)|[(source & _ & _ & _ & ->)|(_ & _ & _ & ->)]]] H0 Hw;
    simpl; try lia.
  rewrite to_uint32_succ by assumption. lia.
Qed.

Lemma queue_step_surface self s d s' d' :
  queue_step self s d s' d' ->
  0 <= display_serial d -> display_serial d + 1 < 2 ^ 32 ->
  surface_queue_inv s d -> surface_queue_inv s' d'.
Proof.
  intros [Hl [(Hi & Hn & ->)|[(source & Hi & Hi' & Hn & ->)|(Hi & Hi' & Hn & ->)]]]
    H0 Hw (Hinc & Hle & Hidle); unfold surface_queue_inv;
    rewrite Hl, Hi', Hn || rewrite Hl, Hi, Hn; simpl.
  - auto.
  - split; [exact Hinc|]. split; [exact Hle|]. intros [x Hx]; discriminate.
  - rewrite to_uint32_succ by assumption.
    split; [exact Hinc|]. split.
    + eapply Forall_impl; [exact Hle|]. simpl. intros; lia.
    + intros _. split; [|lia].
      eapply Forall_impl; [exact Hle|]. simpl. intros; lia.
Qed.

Lemma queue_step_sources self s d s' d' :
  queue_step self s d s' d' -> sources_wf d -> sources_wf d'.
Proof.
  intros [_ [(_ & _ & ->)|[(source & _ & _ & _ & ->)|(_ & _ & _ & ->)]]] H.
  - exact H.
  - now apply sources_wf_remove.
  - now apply sources_wf_add.
Qed.

(** One surface takes a step, the other surfaces stay. *)
Lemma queue_inv_step m d self s s' d' :
  queue_inv_on m d ->
  display_serial d + 1 < 2 ^ 32 ->
  m !! self = Some s ->
  queue_step self s d s' d' ->
  queue_inv_on (<[self := s']> m) d'.
Proof.
  intros (H0 & Hwf & Hsurf & Hidle) Hw Hs Hstep.
  pose proof (queue_step_serial _ _ _ _ _ Hstep H0 Hw) as Hser.
  split; [lia|]. split; [eapply queue_step_sources; eassumption|]. split.
  - intros x sx Hx. rewrite lookup_insert in Hx.
    destruct (decide (self = x)) as [<-|Hne].
    + injection Hx as <-. eapply queue_step_surface; eauto.
    + eapply surface_queue_inv_mono; eauto.
  - intros source x Hin.
    destruct Hstep as
      [Hl [(Hi & Hn & ->)|[(src & Hi & Hi' & Hn & ->)|(Hi & Hi' & Hn & ->)]]].
    + destruct (Hidle _ _ Hin) as (sx & Hsx & Hix).
      destruct (decide (self = x)) as [<-|Hne].
      * exists s'. rewrite lookup_insert_eq. split; [reflexivity|]. congruence.
      * exists sx. now rewrite lookup_insert_ne.
    + simpl in Hin.
      apply list_elem_of_In, list_elem_of_filter in Hin as [Hsrc Hin].
      apply list_elem_of_In in Hin.
      destruct (Hidle _ _ Hin) as (sx & Hsx & Hix).
      destruct (decide (self = x)) as [<-|Hne].
      * exfalso. simpl in Hsrc. congruence.
      * exists sx. now rewrite lookup_insert_ne.
    + simpl in Hin. apply in_app_or in Hin as [Hin|[Heq|[]]].
      * destruct (Hidle _ _ Hin) as (sx & Hsx & Hix).
        destruct (decide (self = x)) as [<-|Hne]; [congruence|].
        exists sx. now rewrite lookup_insert_ne.
      * injection Heq as <- <-. exists s'.
        now rewrite lookup_insert_eq.
Qed.

Lemma queue_inv_same m d x s s' :
  queue_inv_on m d ->
  m !! x = Some s ->
  configure_list s' = configure_list s ->
  configure_idle s' = configure_idle s ->
  configure_next_serial s' = configure_next_serial s ->
  queue_inv_on (<[x := s']> m) d.
Proof.
  intros (H0 & Hwf & Hsurf & Hidle) Hs Hl Hi Hn.
  split; [exact H0|]. split; [exact Hwf|]. split.
  - intros y sy Hy. rewrite lookup_insert in Hy.
    destruct (decide (x = y)) as [<-|Hne]; [|eauto].
    injection Hy as <-. eapply surface_queue_inv_mono; eauto. lia.
  - intros source y Hin. destruct (Hidle _ _ Hin) as (sy & Hsy & Hiy).
    destruct (decide (x = y)) as [<-|Hne].
    + exists s'. rewrite lookup_insert_eq. split; [reflexivity|]. congruence.
    + exists sy. now rewrite lookup_insert_ne.
Qed.

Lemma queue_inv_update m d x s s' :
  queue_inv_on m d ->
  m !! x = Some s ->
  configure_idle s' = configure_idle s ->
  surface_queue_inv s' d ->
  queue_inv_on (<[x := s']> m) d.
Proof.
  intros (H0 & Hwf & Hsurf & Hidle) Hs Hi Hinv.
  split; [exact H0|]. split; [exact Hwf|]. split.
  - intros y sy Hy. rewrite lookup_insert in Hy.
    destruct (decide (x = y)) as [<-|Hne]; [|eauto].
    now injection Hy as <-.
  - intros source y Hin. destruct (Hidle _ _ Hin) as (sy & Hsy & Hiy).
    destruct (decide (x = y)) as [<-|Hne].
    + exists s'. rewrite lookup_insert_eq. split; [reflexivity|]. congruence.
    + exists sy. now rewrite lookup_insert_ne.
Qed.

Lemma queue_inv_remove m d source :
  queue_inv_on m d -> queue_inv_on m (wl_event_source_remove d source).
Proof.
  intros (H0 & Hwf & Hsurf & Hidle).
  split; [exact H0|]. split; [now apply sources_wf_remove|]. split.
  - intros x s Hx. eapply surface_queue_inv_mono; eauto. simpl. lia.
  - intros src x Hin. simpl in Hin.
    apply list_elem_of_In, list_elem_of_filter in Hin as [_ Hin].
    apply list_elem_of_In in Hin. eauto.
Qed.

Lemma queue_inv_delete m d x :
  queue_inv_on m d ->
  (forall source, ~ In (source, x) (idle d)) ->
  queue_inv_on (delete x m) d.
Proof.
  intros (H0 & Hwf & Hsurf & Hidle) Hno.
  split; [exact H0|]. split; [exact Hwf|]. split.
  - intros y sy Hy. apply lookup_delete_Some in Hy as [_ Hy]. eauto.
  - intros source y Hin. destruct (Hidle _ _ Hin) as (sy & Hsy & Hiy).
    exists sy. split; [|exact Hiy]. apply lookup_delete_Some. split; [|exact Hsy].
    intros <-. exact (Hno _ Hin).
Qed.

Lemma queue_inv_insert_fresh m d x s :
  queue_inv_on m d ->
  m !! x = None ->
  configure_list s = [] -> configure_idle s = None ->
  queue_inv_on (<[x := s]> m) d.
Proof.
  intros (H0 & Hwf & Hsurf & Hidle) Hx Hl Hi.
  split; [exact H0|]. split; [exact Hwf|]. split.
  - intros y sy Hy. rewrite lookup_insert in Hy.
    destruct (decide (x = y)) as [<-|Hne]; [|eauto].
    injection Hy as <-. unfold surface_queue_inv. rewrite Hl, Hi.
    split; [constructor|]. split; [constructor|].
    intros [? ?]; discriminate.
  - intros source y Hin. destruct (Hidle _ _ Hin) as (sy & Hsy & Hiy).
    exists sy. split; [|exact Hiy]. rewrite lookup_insert_ne; [exact Hsy|].
    intros <-. congruence.
Qed.

Lemma queue_inv_next_serial m d :
  queue_inv_on m d ->
  display_serial d + 1 < 2 ^ 32 ->
  queue_inv_on m (snd (wl_display_next_serial d)).
Proof.
  intros (H0 & Hwf & Hsurf & Hidle) Hw. simpl.
  split; [simpl; rewrite to_uint32_succ by assumption; lia|].
  split; [exact Hwf|]. split; [|exact Hidle].
  intros x s Hx. eapply surface_queue_inv_mono; eauto. simpl.
  rewrite to_uint32_succ by assumption. lia.
Qed.

(** No idle source of a surface is left once the source it holds has been
    removed. *)
Lemma queue_inv_no_source m d x s :
  queue_inv_on m d ->
  m !! x = Some s ->
  forall source,
    ~ In (source, x)
        (idle (match configure_idle s with
               | Some source => wl_event_source_remove d source
               | None => d
               end)).
Proof.
  intros (H0 & Hwf & Hsurf & Hidle) Hs source Hin.
  destruct (configure_idle s) as [src|] eqn:Ei.
  - simpl in Hin. apply list_elem_of_In, list_elem_of_filter in Hin as [Hne Hin].
    apply list_elem_of_In in Hin.
    destruct (Hidle _ _ Hin) as (sx & Hsx & Hix). simpl in Hne. congruence.
  - destruct (Hidle _ _ Hin) as (sx & Hsx & Hix). congruence.
Qed.

(** The walk of ack_configure leaves a suffix of the queue. *)
Lemma ack_configure_loop_suffix serial l :
  exists pre, l = pre ++ fst (ack_configure_loop serial l).
Proof.
  induction l as [|c l [pre IH]]; [now exists []|]. simpl.
  destruct (cfg_serial c <? serial).
  - exists (c :: pre). simpl. now rewrite <- IH.
  - destruct (cfg_serial c =? serial); [now exists [c]|now exists []].
Qed.

Lemma queue_increasing_suffix pre l :
  queue_increasing (pre ++ l) -> queue_increasing l.
Proof.
  induction pre as [|c pre IH]; [auto|]. simpl. intros H.
  apply queue_increasing_tail in H as [H _]. auto.
Qed.

Lemma surface_queue_inv_suffix pre s s' d :
  surface_queue_inv s d ->
  configure_list s = pre ++ configure_list s' ->
  configure_idle s' = configure_idle s ->
  configure_next_serial s' = configure_next_serial s ->
  surface_queue_inv s' d.
Proof.
  intros (Hinc & Hle & Hidle) Hl Hi Hn. rewrite Hl in *.
  apply queue_increasing_suffix in Hinc. apply Forall_app in Hle as [_ Hle].
  unfold surface_queue_inv. rewrite Hi, Hn. split; [exact Hinc|].
  split; [exact Hle|]. intros Hsome. destruct (Hidle Hsome) as [Hlt Hd].
  apply Forall_app in Hlt as [_ Hlt]. auto.
Qed.

Lemma ack_queue_inv self s serial d :
  surface_queue_inv s d ->
  surface_queue_inv (fst (xdg_surface_ack_configure self s serial)) d /\
  configure_idle (fst (xdg_surface_ack_configure self s serial))
  = configure_idle s.
Proof.
  intros Hinv.
  destruct (ack_configure_loop_suffix serial (configure_list s)) as [pre Hpre].
  unfold xdg_surface_ack_configure.
  destruct (role s); [auto| |];
    destruct (ack_configure_loop _ _) as [l [c|]]; simpl in *;
    (split; [|try reflexivity; destruct (role_data s); reflexivity]);
    eapply (surface_queue_inv_suffix pre); eauto;
    try destruct (role_data s); simpl; auto.
Qed.

(** The idle task of a surface: it queues a configure with the reserved
    serial, or none when the entry could not be allocated. *)
Lemma queue_increasing_snoc l c :
  queue_increasing l ->
  Forall (fun c' => cfg_serial c' < cfg_serial c) l ->
  queue_increasing (l ++ [c]).
Proof.
  induction l as [|c' l IH]; intros Hinc Hlt; simpl.
  - repeat constructor.
  - apply queue_increasing_tail in Hinc as [Hinc Hall].
    apply Forall_cons in Hlt as [Hc Hlt].
    constructor; [apply IH; assumption|]. apply Forall_app.
    split; [exact Hall|].
    now repeat constructor.
Qed.

Lemma send_configure_queue_inv ok ok' self s d s' evs :
  surface_queue_inv s d ->
  is_Some (configure_idle s) ->
  wlr_xdg_surface_send_configure ok ok' self s = Some (s', evs) ->
  surface_queue_inv s' d /\ configure_idle s' = None.
Proof.
  intros (Hinc & Hle & Hidle) Hsome. destruct (Hidle Hsome) as [Hlt Hd].
  assert (Hsnoc : forall st,
    queue_increasing
      (configure_list s ++ [mk_configure (configure_next_serial s) st]) /\
    Forall (fun c => cfg_serial c <= display_serial d)
      (configure_list s ++ [mk_configure (configure_next_serial s) st])).
  { intros st. split.
    - apply queue_increasing_snoc; [exact Hinc|exact Hlt].
    - apply Forall_app. split; [exact Hle|]. now repeat constructor. }
  unfold wlr_xdg_surface_send_configure. destruct ok; simpl.
  - destruct (role_data s) as [|t|p]; [discriminate| |].
    + pose proof (toplevel_send_configure_entry ok' self
                    (set_configure_idle None s) t
                    (mk_configure (configure_next_serial s)
                       zero_toplevel_state)) as He.
      destruct (wlr_xdg_toplevel_send_configure _ _ _ _ _) as [c evs'].
      simpl in He. subst c. intros [= <- <-].
      split; [|reflexivity]. unfold surface_queue_inv. simpl.
      destruct (Hsnoc (pending t)) as [H1 H2].
      split; [exact H1|]. split; [exact H2|]. intros [? ?]; discriminate.
    + intros [= <- <-]. split; [|reflexivity]. unfold surface_queue_inv. simpl.
      destruct (Hsnoc zero_toplevel_state) as [H1 H2].
      split; [exact H1|]. split; [exact H2|]. intros [? ?]; discriminate.
  - intros [= <- <-]. split; [|reflexivity]. unfold surface_queue_inv. simpl.
    split; [exact Hinc|]. split; [exact Hle|]. intros [? ?]; discriminate.
Qed.


(** ** The invariant over the requests *)

Lemma on_surface_inv w self f w' evs :
  on_surface w self f = Some (w', evs) ->
  exists s s',
    xdg_surfaces w !! self = Some s /\ f s = Some (s', evs) /\
    w' = set_xdg_surfaces (<[self := s']> (xdg_surfaces w)) w.
Proof.
  unfold on_surface. intros H.
  destruct (xdg_surfaces w !! self) as [s|]; [|discriminate]. simpl in H.
  destruct (f s) as [[s' evs']|] eqn:Hf; [|discriminate]. simpl in H.
  injection H as <- <-. exists s, s'. auto.
Qed.

Lemma on_surface_display_inv w self f w' evs :
  on_surface_display w self f = Some (w', evs) ->
  exists s base s' d',
    xdg_surfaces w !! self = Some s /\
    f base s (display w) = Some (s', d', evs) /\
    w' = set_display d'
           (set_xdg_surfaces (<[self := s']> (xdg_surfaces w)) w).
Proof.
  unfold on_surface_display. intros H.
  destruct (xdg_surfaces w !! self) as [s|]; [|discriminate]. simpl in H.
  destruct (wlr_surfaces w !! surface s) as [base|]; [|discriminate].
  simpl in H.
  destruct (f base s (display w)) as [[[s' d'] evs']|] eqn:Hf;
    [|discriminate].
  simpl in H. injection H as <- <-. exists s, base, s', d'. auto.
Qed.

Lemma with_next_fields f s s' :
  with_next f s = Some s' ->
  configure_list s' = configure_list s /\
  configure_idle s' = configure_idle s /\
  configure_next_serial s' = configure_next_serial s.
Proof.
  unfold with_next. destruct (role_data s); try discriminate.
  now intros [= <-].
Qed.

(** A handler that leaves the queue fields alone keeps the invariant. *)
Lemma on_surface_same w self f w' evs :
  world_queue_inv w ->
  (forall s s' evs, f s = Some (s', evs) ->
     configure_list s' = configure_list s /\
     configure_idle s' = configure_idle s /\
     configure_next_serial s' = configure_next_serial s) ->
  on_surface w self f = Some (w', evs) ->
  world_queue_inv w'.
Proof.
  intros Hinv Hf H.
  apply on_surface_inv in H as (s & s' & Hs & Hfs & ->).
  destruct (Hf _ _ _ Hfs) as (Hl & Hi & Hn).
  unfold world_queue_inv. simpl. eapply queue_inv_same; eauto.
Qed.

Lemma on_surface_display_step w self f w' evs :
  world_queue_inv w ->
  display_serial (display w) + 1 < 2 ^ 32 ->
  (forall base s d s' d' evs, f base s d = Some (s', d', evs) ->
     queue_step self s d s' d') ->
  on_surface_display w self f = Some (w', evs) ->
  world_queue_inv w'.
Proof.
  intros Hinv Hw Hf H.
  apply on_surface_display_inv in H as (s & base & s' & d' & Hs & Hfs & ->).
  unfold world_queue_inv. simpl. eapply queue_inv_step; eauto.
Qed.

Lemma without_events_step f self base s d s' d' evs :
  without_events (with_pending f self base s d) = Some (s', d', evs) ->
  queue_step self s d s' d'.
Proof.
  unfold without_events.
  destruct (with_pending f self base s d) as [[[s1 d1] n]|] eqn:E;
    [|discriminate].
  simpl. intros [= <- <- <-]. eapply with_pending_queue_step; eauto.
Qed.

Lemma destroy_grab_world ok w self s seat w' evs :
  xdg_surface_destroy_grab ok w self s seat = Some (w', evs) ->
  xdg_surfaces w' = xdg_surfaces w /\ display w' = display w.
Proof.
  unfold xdg_surface_destroy_grab. intros H.
  repeat (case_match || simplify_option_eq); auto.
Qed.

Lemma destroy_world ok w self w' evs :
  xdg_surface_destroy ok w self = Some (w', evs) ->
  exists s,
    xdg_surfaces w !! self = Some s /\
    display w' = match configure_idle s with
                 | Some source => wl_event_source_remove (display w) source
                 | None => display w
                 end /\
    (xdg_surfaces w' = delete self (xdg_surfaces w) \/
     exists x parent parent',
       xdg_surfaces w !! x = Some parent /\
       configure_list parent' = configure_list parent /\
       configure_idle parent' = configure_idle parent /\
       configure_next_serial parent' = configure_next_serial parent /\
       xdg_surfaces w' = delete self (<[x := parent']> (xdg_surfaces w))).
Proof.
  unfold xdg_surface_destroy. intros H.
  destruct (xdg_surfaces w !! self) as [s|] eqn:Hs; [|discriminate].
  simpl in H. exists s. split; [reflexivity|].
  set (w1 := match configure_idle s with
             | Some source =>
                 set_display (wl_event_source_remove (display w) source) w
             | None => w
             end) in *.
  assert (Hw1 : xdg_surfaces w1 = xdg_surfaces w /\
                display w1 = match configure_idle s with
                             | Some source =>
                                 wl_event_source_remove (display w) source
                             | None => display w
                             end).
  { subst w1. destruct (configure_idle s); auto. }
  destruct Hw1 as [Hm1 Hd1]. clearbody w1.
  destruct (role_data s) as [|t|p].
  - simpl in H. simplify_option_eq. simpl. rewrite Hm1. auto.
  - simpl in H. simplify_option_eq. simpl. rewrite Hm1. auto.
  - destruct (popup_seat p) as [seat|].
    + destruct (xdg_surface_destroy_grab ok w1 self s seat)
        as [[w2 evs2]|] eqn:Hg; [|discriminate].
      apply destroy_grab_world in Hg as [Hm2 Hd2]. simpl in H.
      destruct (xdg_surfaces w2 !! popup_parent p) as [parent|] eqn:Hp;
        [|discriminate].
      simpl in H. simplify_option_eq. split; [congruence|]. right.
      exists (popup_parent p), parent,
        (set_popups (filter (fun x => x <> self) (popups parent)) parent).
      rewrite <- Hm1, <- Hm2. auto 10.
    + simpl in H.
      destruct (xdg_surfaces w1 !! popup_parent p) as [parent|] eqn:Hp;
        [|discriminate].
      simpl in H. simplify_option_eq. split; [congruence|]. right.
      exists (popup_parent p), parent,
        (set_popups (filter (fun x => x <> self) (popups parent)) parent).
      rewrite <- Hm1. auto 10.
Qed.

Lemma destroy_queue_inv ok w self w' evs :
  world_queue_inv w ->
  xdg_surface_destroy ok w self = Some (w', evs) ->
  world_queue_inv w'.
Proof.
  intros Hinv H. apply destroy_world in H as (s & Hs & Hd & Hm).
  unfold world_queue_inv in *. rewrite Hd.
  pose proof (queue_inv_no_source _ _ _ _ Hinv Hs) as Hno.
  assert (Hinv1 : queue_inv_on (xdg_surfaces w)
            match configure_idle s with
            | Some source => wl_event_source_remove (display w) source
            | None => display w
            end).
  { destruct (configure_idle s); [now apply queue_inv_remove|exact Hinv]. }
  destruct Hm as [->|(x & parent & parent' & Hx & Hl & Hi & Hn & ->)].
  - now apply queue_inv_delete.
  - apply queue_inv_delete; [|exact Hno].
    eapply queue_inv_same; eauto.
Qed.

Lemma get_xdg_surface_queue_inv a w client surface_resource w' evs :
  world_queue_inv w ->
  fresh_surface (get_xdg_surface a client surface_resource) w ->
  xdg_shell_get_xdg_surface a w client surface_resource = Some (w', evs) ->
  world_queue_inv w'.
Proof.
  unfold fresh_surface, xdg_shell_get_xdg_surface. intros Hinv Hfresh H.
  destruct (alloc_surface a) as [self|]; [|now injection H as <- <-].
  repeat (case_match || simplify_option_eq); auto.
  unfold world_queue_inv. simpl. now apply queue_inv_insert_fresh.
Qed.

Lemma ping_queue_inv w self w' evs :
  world_queue_inv w ->
  display_serial (display w) + 1 < 2 ^ 32 ->
  wlr_xdg_surface_ping w self = Some (w', evs) ->
  world_queue_inv w'.
Proof.
  unfold wlr_xdg_surface_ping. intros Hinv Hw H.
  repeat (case_match || simplify_option_eq); auto.
  unfold world_queue_inv. simpl.
  match goal with
  | H : wl_display_next_serial _ = (_, ?d) |- _ =>
      replace d with (snd (wl_display_next_serial (display w)))
        by now rewrite H
  end.
  now apply (queue_inv_next_serial _ _ Hinv).
Qed.

Lemma pong_queue_inv w client serial w' evs :
  world_queue_inv w ->
  xdg_shell_pong w client serial = Some (w', evs) ->
  world_queue_inv w'.
Proof.
  unfold xdg_shell_pong. intros Hinv H.
  repeat (case_match || simplify_option_eq); auto.
Qed.

Lemma popup_grab_queue_inv ok w self seat serial w' evs :
  world_queue_inv w ->
  xdg_popup_protocol_grab ok w self seat serial = Some (w', evs) ->
  world_queue_inv w'.
Proof.
  unfold xdg_popup_protocol_grab. intros Hinv H.
  destruct (xdg_surfaces w !! self) as [s|] eqn:Hs; [|discriminate].
  simpl in H. destruct (role_data s) as [|t|p] eqn:Hr; try discriminate.
  repeat (case_match || simplify_option_eq); auto;
    unfold world_queue_inv; simpl; eapply queue_inv_same; eauto.
Qed.

Lemma idle_queue_inv ok ok' w w' evs :
  world_queue_inv w ->
  xdg_shell_dispatch (dispatch_idle ok ok') w = Some (w', evs) ->
  world_queue_inv w'.
Proof.
  intros Hinv. simpl.
  destruct (idle (display w)) as [|[source self] l] eqn:Hidle;
    [now intros [= <- <-]|].
  destruct (on_surface w self _) as [[w1 evs1]|] eqn:H; [|discriminate].
  simpl. intros [= <- <-].
  apply on_surface_inv in H as (s & s' & Hs & Hf & ->).
  pose proof Hinv as (H0 & Hwf & Hsurf & Hsrc).
  destruct (Hsrc source self) as (s0 & Hs0 & Hi0); [rewrite Hidle; now left|].
  assert (s0 = s) as -> by congruence.
  destruct (send_configure_queue_inv _ _ _ _ _ _ _ (Hsurf _ _ Hs)
              (ltac:(eauto)) Hf) as [Hinv' Hi'].
  unfold world_queue_inv. simpl.
  split; [exact H0|]. split; [now apply sources_wf_remove|]. split.
  - intros x sx Hx. rewrite lookup_insert in Hx.
    destruct (decide (self = x)) as [<-|Hne].
    + injection Hx as <-.
      eapply (surface_queue_inv_mono s');
        [exact Hinv'|reflexivity..|simpl; lia].
    + eapply (surface_queue_inv_mono sx);
        [eapply Hsurf; exact Hx|reflexivity..|simpl; lia].
  - intros src x Hin. simpl in Hin.
    apply list_elem_of_In, list_elem_of_filter in Hin as [Hne Hin].
    apply list_elem_of_In in Hin.
    destruct (Hsrc _ _ Hin) as (sx & Hsx & Hix).
    destruct (decide (self = x)) as [<-|Hnx].
    + exfalso. simpl in Hne. congruence.
    + exists sx. now rewrite lookup_insert_ne.
Qed.

Lemma dispatch_queue_inv r w w' evs :
  world_queue_inv w ->
  display_serial (display w) + 1 < 2 ^ 32 ->
  fresh_surface r w ->
  xdg_shell_dispatch r w = Some (w', evs) ->
  world_queue_inv w'.
Proof.
  intros Hinv Hw Hfresh.
  destruct r; try (exact (idle_queue_inv _ _ _ _ _ Hinv)); simpl.
  - now apply get_xdg_surface_queue_inv.
  - now apply pong_queue_inv.
  - now apply destroy_queue_inv.
  - intros H. apply on_surface_inv in H as (s & s' & Hs & [= Hf] & ->).
    pose proof Hinv as (H0 & Hwf & Hsurf & Hsrc).
    destruct (ack_queue_inv self s serial _ (Hsurf _ _ Hs)) as [Hq Hi].
    rewrite Hf in Hq, Hi. simpl in Hq, Hi.
    unfold world_queue_inv. simpl. eapply queue_inv_update; eauto.
  - apply on_surface_same; [exact Hinv|]. intros s s' evs' [= H].
    revert H. unfold xdg_surface_set_window_geometry.
    destruct (role s); intros [= <- _]; auto.
  - apply on_surface_display_step; [exact Hinv|exact Hw|].
    intros base s d s' d' evs'. apply commit_queue_step.
  - apply on_surface_same; [exact Hinv|]. intros s s' evs'.
    unfold xdg_toplevel_protocol_set_max_size.
    destruct (with_next _ s) eqn:E; [|discriminate]. intros [= <- _].
    eapply with_next_fields; eauto.
  - apply on_surface_same; [exact Hinv|]. intros s s' evs'.
    unfold xdg_toplevel_protocol_set_min_size.
    destruct (with_next _ s) eqn:E; [|discriminate]. intros [= <- _].
    eapply with_next_fields; eauto.
  - apply on_surface_same; [exact Hinv|]. intros s s' evs'.
    unfold xdg_toplevel_protocol_set_maximized.
    destruct (with_next _ s) eqn:E; [|discriminate]. intros [= <- _].
    eapply with_next_fields; eauto.
  - apply on_surface_same; [exact Hinv|]. intros s s' evs'.
    unfold xdg_toplevel_protocol_unset_maximized.
    destruct (with_next _ s) eqn:E; [|discriminate]. intros [= <- _].
    eapply with_next_fields; eauto.
  - apply on_surface_same; [exact Hinv|]. intros s s' evs'.
    unfold xdg_toplevel_protocol_set_fullscreen.
    destruct (with_next _ s) eqn:E; [|discriminate]. intros [= <- _].
    eapply with_next_fields; eauto.
  - apply on_surface_same; [exact Hinv|]. intros s s' evs'.
    unfold xdg_toplevel_protocol_unset_fullscreen.
    destruct (with_next _ s) eqn:E; [|discriminate]. intros [= <- _].
    eapply with_next_fields; eauto.
  - apply on_surface_same; [exact Hinv|]. intros s s' evs'.
    unfold xdg_toplevel_protocol_set_minimized. intros [= <- _]. auto.
  - now apply popup_grab_queue_inv.
  - apply on_surface_display_step; [exact Hinv|exact Hw|].
    intros base s d s' d' evs'. apply without_events_step.
  - apply on_surface_display_step; [exact Hinv|exact Hw|].
    intros base s d s' d' evs'. apply without_events_step.
  - apply on_surface_display_step; [exact Hinv|exact Hw|].
    intros base s d s' d' evs'. apply without_events_step.
  - apply on_surface_display_step; [exact Hinv|exact Hw|].
    intros base s d s' d' evs'. apply without_events_step.
  - apply on_surface_display_step; [exact Hinv|exact Hw|].
    intros base s d s' d' evs'. apply without_events_step.
  - now apply ping_queue_inv.
Qed.

(** A shell whose surfaces have empty queues and no idle task, over an
    event loop without idle sources. *)
Lemma queue_inv_quiet m d :
  map_Forall (fun _ s => configure_list s = [] /\ configure_idle s = None) m ->
  idle d = [] -> 0 <= display_serial d ->
  queue_inv_on m d.
Proof.
  intros Hm Hidle H0. split; [exact H0|]. split; [|split].
  - unfold sources_wf. rewrite Hidle. split; constructor.
  - intros self s Hs. destruct (Hm _ _ Hs) as [Hl Hi].
    unfold surface_queue_inv. rewrite Hl, Hi.
    split; [constructor|]. split; [constructor|]. intros [? ?]; discriminate.
  - rewrite Hidle. intros ? ? [].
Qed.

Lemma world_0_queue_inv : world_queue_inv world_0.
Proof.
  apply queue_inv_quiet; [|reflexivity|simpl; lia].
  intros self s Hs. unfold world_0 in Hs. simpl in Hs.
  repeat (apply lookup_insert_Some in Hs as [[_ <-]|[_ Hs]];
          [split; reflexivity|]).
  apply lookup_singleton_Some in Hs as [_ <-]. split; reflexivity.
Qed.

(** The sources of one surface. *)
Lemma filter_none {A} (P : A -> Prop) `{!forall x, Decision (P x)}
    (l : list A) :
  (forall x, In x l -> ~ P x) -> filter P l = [].
Proof.
  induction l as [|x l IH]; intros Hno; [reflexivity|].
  rewrite filter_cons, decide_False by (apply Hno; now left).
  apply IH. intros y Hy. apply Hno. now right.
Qed.

Lemma idle_tasks_one (l : list (ptr * ptr)) self source :
  NoDup (fst <$> l) ->
  (forall src, In (src, self) l -> src = source) ->
  (length (filter (fun e => snd e = self) l) <= 1)%nat.
Proof.
  induction l as [|[src x] l IH]; intros Hnd Hsrc; [simpl; lia|].
  rewrite fmap_cons, NoDup_cons in Hnd. destruct Hnd as [Hni Hnd].
  rewrite filter_cons. simpl. destruct (decide (x = self)) as [->|Hne].
  - rewrite filter_none; [simpl; lia|].
    intros [src' y] Hin Hy. simpl in Hy. subst y.
    assert (src' = source) as -> by (apply Hsrc; now right).
    assert (src = source) as -> by (apply Hsrc; now left).
    apply Hni. simpl. apply list_elem_of_fmap. exists (source, self).
    split; [reflexivity|]. now apply list_elem_of_In.
  - apply IH; [exact Hnd|]. intros src' Hin. apply Hsrc. now right.
Qed.

Lemma queue_inv_idle_tasks w self :
  world_queue_inv w ->
  (length (idle_tasks_of self (display w)) <= 1)%nat.
Proof.
  intros (H0 & [Hnd Hlt] & Hsurf & Hsrc). unfold idle_tasks_of.
  destruct (xdg_surfaces w !! self) as [s|] eqn:Hs.
  - destruct (configure_idle s) as [source|] eqn:Hi.
    + apply (idle_tasks_one _ _ source); [exact Hnd|].
      intros src Hin. destruct (Hsrc _ _ Hin) as (s' & Hs' & Hi'). congruence.
    + rewrite filter_none; [simpl; lia|].
      intros [src y] Hin Hy. simpl in Hy. subst y.
      destruct (Hsrc _ _ Hin) as (s' & Hs' & Hi'). congruence.
  - rewrite filter_none; [simpl; lia|].
    intros [src y] Hin Hy. simpl in Hy. subst y.
    destruct (Hsrc _ _ Hin) as (s' & Hs' & Hi'). congruence.
Qed.


(** ** What only a commit does *)

(** The current state of a toplevel is written only by a commit that has
    a buffer, which copies the next state. *)
Lemma current_by_commit r w w' evs self s s' t t' :
  xdg_shell_dispatch r w = Some (w', evs) ->
  xdg_surfaces w !! self = Some s ->
  xdg_surfaces w' !! self = Some s' ->
  role_data s = role_toplevel t ->
  role_data s' = role_toplevel t' ->
  current t' <> current t ->
  r = surface_committed self /\
  current t' = next t /\ configured s = true /\
  exists base,
    wlr_surfaces w !! surface s = Some base /\ has_buffer base = true.
Proof.
  intros H Hs Hs' Hr Hr' Hc.
  destruct r; simpl in H; unfold_handlers H;
    try (exfalso; run_maps; simpl in *; congruence).
  destruct (decide (self0 = self)) as [->|Hne];
    [|exfalso; run_maps; simpl in *; congruence].
  split; [reflexivity|].
  unfold wlr_surface_has_buffer in H.
  rewrite Hs in H. simpl in H.
  destruct (wlr_surfaces w !! surface s) as [base|] eqn:Hb; [|discriminate].
  simpl in H.
  destruct (has_buffer base) eqn:Hbuf, (configured s) eqn:Hconf; simpl in H;
    try (exfalso; run_maps; simpl in *; congruence).
  split; [|split; [reflexivity|eauto]].
  run_maps; simpl in *; congruence.
Qed.

Ltac split_signal :=
  repeat match goal with
    | H : False |- _ => destruct H
    | H : _ \/ _ |- _ => destruct H as [H|H]
    | H : In _ [] |- _ => destruct H
    | H : In _ (_ :: _) |- _ => destruct H as [H|H]
    | H : In _ (_ ++ _) |- _ => apply in_app_or in H as [H|H]
    | H : In _ (map _ _) |- _ => apply in_map_iff in H as (? & H & _)
    | H : _ = wlr_signal_emit_safe _ |- _ => discriminate H
    end.

Lemma commit_new_surface self base s d s' d' evs x :
  handle_wlr_surface_committed self base s d = Some (s', d', evs) ->
  In (wlr_signal_emit_safe (events_new_surface x)) evs ->
  x = self /\ added s = false /\ added s' = true /\ configured s' = true.
Proof.
  intros H Hin. unfold_handlers H.
  repeat (case_match || simplify_option_eq); simpl in *; split_signal;
    try congruence;
    repeat match goal with
      | H : _ && _ = true |- _ => apply andb_true_iff in H as [? ?]
      | H : negb _ = true |- _ => apply negb_true_iff in H
      end;
    simpl in *; repeat split; congruence.
Qed.

(** Once announced, a surface stays announced and is not announced again. *)
Lemma commit_added self base s d s' d' evs :
  handle_wlr_surface_committed self base s d = Some (s', d', evs) ->
  added s = true ->
  added s' = true /\
  forall x, ~ In (wlr_signal_emit_safe (events_new_surface x)) evs.
Proof.
  intros H Hadded. split.
  - unfold_handlers H.
    repeat (case_match || simplify_option_eq); simpl in *; congruence.
  - intros x Hin.
    destruct (commit_new_surface _ _ _ _ _ _ _ _ H Hin) as (_ & Hf & _).
    congruence.
Qed.

(** The new_surface signal comes from a commit of a surface that was not
    announced yet, and the commit marks it as announced. *)
Lemma new_surface_by_commit r w w' evs x :
  xdg_shell_dispatch r w = Some (w', evs) ->
  In (wlr_signal_emit_safe (events_new_surface x)) evs ->
  r = surface_committed x /\
  exists s s',
    xdg_surfaces w !! x = Some s /\ added s = false /\
    xdg_surfaces w' !! x = Some s' /\ added s' = true /\
    configured s' = true.
Proof.
  intros H Hin.
  destruct r; simpl in H;
    try (exfalso; unfold_handlers H; unfold xdg_pointer_grab_end in *;
         repeat (case_match || simplify_option_eq); simpl in *;
         split_signal; congruence).
  unfold on_surface_display in H.
  destruct (xdg_surfaces w !! self) as [s|] eqn:Hs; [|discriminate].
  simpl in H.
  destruct (wlr_surfaces w !! surface s) as [base|]; [|discriminate].
  simpl in H.
  destruct (handle_wlr_surface_committed self base s (display w))
    as [[[s' d'] evs']|] eqn:Hrun; [|discriminate].
  injection H as <- <-.
  destruct (commit_new_surface _ _ _ _ _ _ _ _ Hrun Hin)
    as (-> & Ha & Ha' & Hc').
  split; [reflexivity|]. exists s, s'. simpl.
  rewrite lookup_insert_eq. auto.
Qed.

(** The announced flag is lowered by no request, short of a new surface
    being created at the same address. *)
Lemma added_kept r w w' evs self s s' :
  xdg_shell_dispatch r w = Some (w', evs) ->
  xdg_surfaces w !! self = Some s ->
  xdg_surfaces w' !! self = Some s' ->
  added s = true -> added s' = false ->
  exists a client surface_resource,
    r = get_xdg_surface a client surface_resource /\
    alloc_surface a = Some self.
Proof.
  intros H Hs Hs' Ha Ha'.
  destruct r; simpl in H; unfold_handlers H;
    try (exfalso; run_maps; simpl in *; congruence).
  run_maps; simpl in *; try congruence; eauto.
Qed.

(** X7: when a request changes the current state of a toplevel, the request
    is a commit of that surface, the surface is configured and has a buffer
    attached, and the new current state is the next state, the one the
    client's requests and the acknowledged configure wrote. *)
Theorem X7_current_by_commit (r : xdg_request) (w w' : xdg_world)
    (evs : list event) (self : ptr) (s s' : wlr_xdg_surface)
    (t t' : wlr_xdg_toplevel) :
  xdg_shell_dispatch r w = Some (w', evs) ->
  xdg_surfaces w !! self = Some s ->
  xdg_surfaces w' !! self = Some s' ->
  role_data s = role_toplevel t ->
  role_data s' = role_toplevel t' ->
  current t' <> current t ->
  current_by_commit_spec r w self s t t'.
Proof. apply current_by_commit. Qed.

Lemma X7_current_by_commit_witness :
  current_by_commit_spec (surface_committed 1) world_maximizing 1
    (set_role_data (role_toplevel toplevel_maximizing) surface_T)
    toplevel_maximizing
    (set_current (next toplevel_maximizing) toplevel_maximizing).
Proof.
  eapply (X7_current_by_commit (surface_committed 1) world_maximizing _ _ 1).
  - vm_compute. reflexivity.
  - vm_compute. reflexivity.
  - vm_compute. reflexivity.
  - reflexivity.
  - reflexivity.
  - vm_compute. discriminate.
Defined.

(** X8: when a request emits the new_surface signal for a surface, the
    request is a commit of that surface, the surface was not announced
    before, and after the commit it is announced and configured. *)
Theorem X8_new_surface_by_commit (r : xdg_request) (w w' : xdg_world)
    (evs : list event) (x : ptr) :
  xdg_shell_dispatch r w = Some (w', evs) ->
  In (wlr_signal_emit_safe (events_new_surface x)) evs ->
  new_surface_by_commit_spec r w w' x.
Proof. apply new_surface_by_commit. Qed.

Lemma X8_new_surface_by_commit_witness :
  new_surface_by_commit_spec (surface_committed 1) world_acked
    (dispatched (surface_committed 1) world_acked) 1.
Proof.
  eapply (X8_new_surface_by_commit (surface_committed 1) world_acked).
  - vm_compute. reflexivity.
  - vm_compute. left. reflexivity.
Defined.

Lemma announced_once r w w' evs self s :
  xdg_shell_dispatch r w = Some (w', evs) ->
  fresh_surface r w ->
  xdg_surfaces w !! self = Some s ->
  added s = true ->
  announced_once_spec w' evs self.
Proof.
  intros H Hfresh Hs Ha. split.
  - intros Hin.
    destruct (new_surface_by_commit _ _ _ _ _ H Hin)
      as (_ & s0 & s' & Hs0 & Ha0 & _).
    congruence.
  - intros s' Hs'. destruct (added s') eqn:Ha'; [reflexivity|].
    destruct (added_kept _ _ _ _ _ _ _ H Hs Hs' Ha Ha')
      as (a & c & sr & -> & Halloc).
    simpl in Hfresh. rewrite Halloc in Hfresh. congruence.
Qed.

(** X11: a surface that has been announced is not announced again, and no
    request takes the mark back, as long as a new surface is allocated at
    an address that is not in use. *)
Theorem X11_announced_once (r : xdg_request) (w w' : xdg_world)
    (evs : list event) (self : ptr) (s : wlr_xdg_surface) :
  xdg_shell_dispatch r w = Some (w', evs) ->
  fresh_surface r w ->
  xdg_surfaces w !! self = Some s ->
  added s = true ->
  announced_once_spec w' evs self.
Proof. apply announced_once. Qed.

Lemma X11_announced_once_witness :
  announced_once_spec (dispatched (surface_committed 1) world_0) [] 1.
Proof.
  eapply (X11_announced_once (surface_committed 1) world_0 _ _ 1).
  - vm_compute. reflexivity.
  - exact I.
  - vm_compute. reflexivity.
  - reflexivity.
Defined.


(** ** The positioner *)

Lemma sizes_set_together_set width height :
  (width <? 1) || (height <? 1) = false -> sizes_set_together width height.
Proof.
  intros H. apply orb_false_iff in H as [Hw Hh].
  apply Z.ltb_ge in Hw, Hh. now right.
Qed.

(** Every setter keeps the sizes in order. *)
Lemma positioner_dispatch_sizes r p :
  positioner_sizes_ok p ->
  positioner_sizes_ok (fst (xdg_positioner_dispatch r p)).
Proof.
  intros [Hs Ha]. destruct r as [width height|x y width height|n|n|n|x y];
    simpl.
  - unfold xdg_positioner_protocol_set_size.
    destruct (_ || _) eqn:E; simpl; [now split|].
    split; [now apply sizes_set_together_set|exact Ha].
  - unfold xdg_positioner_protocol_set_anchor_rect.
    destruct (_ || _) eqn:E; simpl; [now split|].
    split; [exact Hs|now apply sizes_set_together_set].
  - unfold xdg_positioner_protocol_set_anchor.
    destruct (_ <? _); [now split|].
    destruct (anchor_of_value n); now split.
  - unfold xdg_positioner_protocol_set_gravity.
    destruct (_ <? _); [now split|].
    destruct (gravity_of_value n); now split.
  - now split.
  - now split.
Qed.

Lemma positioner_fold_sizes rs p :
  positioner_sizes_ok p ->
  positioner_sizes_ok
    (fold_left (fun p r => fst (xdg_positioner_dispatch r p)) rs p).
Proof.
  revert p. induction rs as [|r rs IH]; intros p Hp; [exact Hp|].
  simpl. apply IH. now apply positioner_dispatch_sizes.
Qed.

Lemma positioner_after_sizes ok ok' wl_client rs p :
  positioner_after ok ok' wl_client rs = Some p -> positioner_sizes_ok p.
Proof.
  unfold positioner_after, xdg_shell_create_positioner.
  destruct ok, ok'; simpl; try discriminate. intros [= <-].
  apply positioner_fold_sizes. split; left; split; reflexivity.
Qed.

Lemma get_geometry_size p :
  box_width (xdg_positioner_get_geometry p) = size_width p /\
  box_height (xdg_positioner_get_geometry p) = size_height p.
Proof.
  unfold xdg_positioner_get_geometry.
  destruct (_ =? _); split; reflexivity.
Qed.

Lemma positioner_complete ok ok' wl_client rs p :
  positioner_after ok ok' wl_client rs = Some p ->
  positioner_incomplete p = false ->
  positioner_complete_spec p.
Proof.
  intros Hp H. apply orb_false_iff in H as [Hw Ha].
  apply Z.eqb_neq in Hw, Ha.
  destruct (positioner_after_sizes _ _ _ _ _ Hp)
    as [[[? ?]|[? ?]] [[? ?]|[? ?]]]; try contradiction.
  destruct (get_geometry_size p).
  repeat split; assumption.
Qed.

(** X12: whatever requests a client sends to a positioner it has created,
    in whatever order and whether they are refused or not, if the
    positioner then passes the completeness test of get_popup (which looks
    at the two widths only), its size and its anchor rectangle are at
    least 1 by 1 and the popup geometry computed from it has that size. *)
Theorem X12_positioner_complete (calloc_ok resource_ok : bool)
    (wl_client : ptr) (rs : list positioner_request)
    (p : wlr_xdg_positioner) :
  positioner_after calloc_ok resource_ok wl_client rs = Some p ->
  positioner_incomplete p = false ->
  positioner_complete_spec p.
Proof. apply positioner_complete. Qed.

Lemma X12_positioner_complete_witness :
  positioner_complete_spec menu_positioner.
Proof.
  apply (X12_positioner_complete true true 11%positive menu_requests).
  - reflexivity.
  - vm_compute. reflexivity.
Defined.


(** ** The first configure *)

(** The commit of a surface that has not scheduled anything yet, followed
    by the idle task: the surface is at [self] in the shell, unconfigured
    and without a buffer. *)
Lemma schedule_first self base s d :
  pending_same base s = Some false ->
  configure_idle s = None ->
  wlr_xdg_surface_schedule_configure self base s d
  = Some (set_configure_idle (Some (next_source d))
            (set_configure_next_serial (to_uint32 (display_serial d + 1)) s),
          mk_display (to_uint32 (display_serial d + 1))
            (idle d ++ [(next_source d, self)]) (Pos.succ (next_source d)),
          to_uint32 (display_serial d + 1)).
Proof.
  intros Hsame Hidle. unfold wlr_xdg_surface_schedule_configure.
  rewrite Hsame. simpl. rewrite Hidle. reflexivity.
Qed.

Lemma commit_then_idle ok w self s base :
  xdg_surfaces w !! self = Some s ->
  wlr_surfaces w !! surface s = Some base ->
  has_buffer base = false ->
  configured s = false ->
  configure_idle s = None ->
  idle (display w) = [] ->
  0 <= display_serial (display w) ->
  display_serial (display w) + 1 < 2 ^ 32 ->
  forall s0,
    s0 = (if has_next_geometry s
          then set_geometry (next_geometry s) (set_has_next_geometry false s)
          else s) ->
    (forall p,
       role_data s = role_popup p -> popup_committed p = false ->
       exists w',
         xdg_shell_handle_all
           [request (surface_committed self);
            request (dispatch_idle true ok)] w
         = Some (w',
                 [ev (xdg_popup_send_configure (xdg_popup_resource self)
                        (box_x (popup_geometry p)) (box_y (popup_geometry p))
                        (box_width (popup_geometry p))
                        (box_height (popup_geometry p)));
                  ev (xdg_surface_send_configure (xdg_surface_resource self)
                        (display_serial (display w) + 1))])) /\
    (forall t,
       role_data s = role_toplevel t -> toplevel_added t = false ->
       pending t = zero_toplevel_state ->
       exists w',
         xdg_shell_handle_all
           [request (surface_committed self);
            request (dispatch_idle true ok)] w
         = Some (w',
                 [ev (xdg_toplevel_send_configure (xdg_toplevel_resource self)
                        (to_uint32 (box_width (geometry s0)))
                        (to_uint32 (box_height (geometry s0))) []);
                  ev (xdg_surface_send_configure (xdg_surface_resource self)
                        (display_serial (display w) + 1))])).
Proof.
  intros Hs Hb Hbuf Hconf Hidle Hd H0 Hw s0 Hs0.
  assert (Hfields : role_data s0 = role_data s /\ configured s0 = false /\
                    configure_idle s0 = None /\ added s0 = added s).
  { subst s0. destruct (has_next_geometry s); simpl; auto. }
  destruct Hfields as (Hr0 & Hc0 & Hi0 & Ha0).
  pose proof (to_uint32_succ _ H0 Hw) as Hn.
  split.
  - intros p Hp Hcommitted.
    assert (Hsched := schedule_first self base s0 (display w)).
    unfold pending_same in Hsched. rewrite Hr0, Hp in Hsched.
    specialize (Hsched eq_refl Hi0). rewrite Hn, Hd in Hsched.
    simpl in Hsched.
    eexists. simpl. unfold with_events, on_surface_display.
    rewrite Hs. simpl. rewrite Hb. simpl.
    unfold handle_wlr_surface_committed, wlr_surface_has_buffer.
    rewrite Hbuf. simpl. rewrite <- Hs0. rewrite Hr0, Hp. simpl.
    unfold wlr_xdg_surface_popup_committed. rewrite Hcommitted. simpl.
    rewrite Hsched. simpl. rewrite Hc0. simpl.
    unfold on_surface. simpl. rewrite lookup_insert_eq. simpl.
    reflexivity.
  - intros t Ht Hadded Hpending.
    assert (Hsched := schedule_first self base s0 (display w)).
    unfold pending_same, wlr_xdg_surface_toplevel_state_compare in Hsched.
    rewrite Hr0, Ht, Hc0 in Hsched.
    specialize (Hsched eq_refl Hi0). rewrite Hn, Hd in Hsched.
    simpl in Hsched.
    eexists. simpl. unfold with_events, on_surface_display.
    rewrite Hs. simpl. rewrite Hb. simpl.
    unfold handle_wlr_surface_committed, wlr_surface_has_buffer.
    rewrite Hbuf. simpl. rewrite <- Hs0. rewrite Hr0, Ht. simpl.
    unfold wlr_xdg_surface_toplevel_committed, wlr_surface_has_buffer.
    rewrite Hbuf, Hadded. simpl.
    rewrite Hsched. simpl. rewrite Hc0. simpl.
    unfold on_surface. simpl. rewrite lookup_insert_eq. simpl.
    unfold wlr_xdg_surface_send_configure, wlr_xdg_toplevel_send_configure.
    simpl. rewrite Hpending. simpl. reflexivity.
Qed.

Lemma handle_all_cons r rs w w1 evs1 w2 evs2 :
  xdg_shell_handle r w = Some (w1, evs1) ->
  xdg_shell_handle_all rs w1 = Some (w2, evs2) ->
  xdg_shell_handle_all (r :: rs) w = Some (w2, evs1 ++ evs2).
Proof. intros H1 H2. simpl. rewrite H1. simpl. rewrite H2. reflexivity. Qed.

Lemma toplevel_first_configure ok w self s :
  awaits_role w self s ->
  toplevel_first_configure_spec ok w self s.
Proof.
  intros (Hs & Hr & Hc & Hi & (base & Hb & Hbuf) & Hd & H0 & Hw).
  set (s1 := set_role_data
               (role_toplevel
                  (mk_toplevel None false zero_toplevel_state
                     zero_toplevel_state zero_toplevel_state)) s).
  set (w1 := set_xdg_surfaces (<[self := s1]> (xdg_surfaces w)) w).
  assert (H1 : xdg_shell_handle (get_toplevel true true true self) w
               = Some (w1, [])).
  { simpl. unfold xdg_surface_get_toplevel. rewrite Hs. simpl.
    rewrite Hb. simpl. rewrite Hr. reflexivity. }
  assert (Hs1 : xdg_surfaces w1 !! self = Some s1)
    by (simpl; apply lookup_insert_eq).
  destruct (commit_then_idle ok w1 self s1 base Hs1 Hb Hbuf Hc Hi Hd H0 Hw
              _ eq_refl) as [_ Htop].
  destruct (Htop _ eq_refl eq_refl eq_refl) as [w' H2].
  exists w'. rewrite (handle_all_cons _ _ _ _ _ _ _ H1 H2). simpl.
  destruct (has_next_geometry s); reflexivity.
Qed.

Lemma popup_first_configure ok w self s parent positioner :
  awaits_role w self s ->
  is_Some (xdg_surfaces w !! parent) ->
  positioner_incomplete positioner = false ->
  popup_first_configure_spec ok w self parent positioner.
Proof.
  intros (Hs & Hr & Hc & Hi & (base & Hb & Hbuf) & Hd & H0 & Hw)
    Hparent Hcomplete.
  set (popup := mk_popup parent false None
                  (xdg_positioner_get_geometry positioner)).
  set (s1 := set_role_data (role_popup popup) s).
  assert (Hp : exists p,
             <[self := s1]> (xdg_surfaces w) !! parent = Some p /\
             forall p',
               <[parent := p']> (<[self := s1]> (xdg_surfaces w)) !! self
               = Some (if decide (parent = self) then p' else s1)).
  { destruct (decide (parent = self)) as [->|Hne].
    - exists s1. rewrite lookup_insert_eq. split; [reflexivity|].
      intros p'. now rewrite lookup_insert_eq.
    - destruct Hparent as [p Hp]. exists p.
      rewrite lookup_insert_ne by congruence. split; [exact Hp|].
      intros p'. rewrite lookup_insert_ne by congruence.
      now rewrite lookup_insert_eq. }
  destruct Hp as (p & Hp & Hself).
  set (w1 := set_xdg_surfaces
               (<[parent := set_popups (self :: popups p) p]>
                  (<[self := s1]> (xdg_surfaces w))) w).
  assert (H1 : xdg_shell_handle
                 (get_popup true true true self parent positioner) w
               = Some (w1, [signal (events_new_popup parent self)])).
  { simpl. unfold xdg_surface_get_popup. rewrite Hs. simpl.
    rewrite Hcomplete. rewrite Hb. simpl. rewrite Hr.
    fold popup. fold s1. rewrite Hp. reflexivity. }
  set (s1' := if decide (parent = self)
              then set_popups (self :: popups p) p else s1).
  assert (Hs1 : xdg_surfaces w1 !! self = Some s1') by (simpl; apply Hself).
  assert (Hfields : surface s1' = surface s /\ configured s1' = false /\
                    configure_idle s1' = None /\
                    role_data s1' = role_popup popup).
  { subst s1'. destruct (decide (parent = self)) as [->|Hne]; [|auto].
    rewrite lookup_insert_eq in Hp. injection Hp as <-. auto. }
  destruct Hfields as (Hsurf & Hc1 & Hi1 & Hr1).
  assert (Hb1 : wlr_surfaces w1 !! surface s1' = Some base)
    by (rewrite Hsurf; exact Hb).
  destruct (commit_then_idle ok w1 self s1' base Hs1 Hb1 Hbuf Hc1 Hi1 Hd H0 Hw
              _ eq_refl) as [Hpop _].
  destruct (Hpop _ Hr1 eq_refl) as [w' H2].
  exists w'. exact (handle_all_cons _ _ _ _ _ _ _ H1 H2).
Qed.

(** X13: the first configure of a popup. When a surface without a role
    (unconfigured, nothing scheduled, no buffer, no other idle task in the
    loop, the serial counter not at its end) is made a popup of a live
    parent with a complete positioner, commits, and the event loop runs
    the idle task, then the parent gets new_popup and the client gets the
    popup configure with the geometry computed from the positioner and
    the surface configure with the display's next serial, and nothing
    else. *)
Theorem X13_popup_first_configure (array_add_ok : nat -> bool)
    (w : xdg_world) (self : ptr) (s : wlr_xdg_surface) (parent : ptr)
    (positioner : wlr_xdg_positioner) :
  awaits_role w self s ->
  is_Some (xdg_surfaces w !! parent) ->
  positioner_incomplete positioner = false ->
  popup_first_configure_spec array_add_ok w self parent positioner.
Proof. apply popup_first_configure. Qed.

Lemma world_role_less_awaits_role :
  awaits_role world_role_less 4%positive
    (mk_surface 10%positive 104%positive role_none [] false false 0
       None 0 [] false (mk_box 0 0 0 0) (mk_box 0 0 0 0)).
Proof.
  repeat split; try reflexivity; try (vm_compute; congruence).
  eexists. split; vm_compute; reflexivity.
Qed.

Lemma X13_popup_first_configure_witness :
  popup_first_configure_spec (fun _ => true) world_role_less 4%positive
    1%positive menu_positioner.
Proof.
  apply (X13_popup_first_configure (fun _ => true) world_role_less 4%positive
           (mk_surface 10%positive 104%positive role_none [] false false 0
              None 0 [] false (mk_box 0 0 0 0) (mk_box 0 0 0 0))).
  - exact world_role_less_awaits_role.
  - vm_compute. eauto.
  - vm_compute. reflexivity.
Defined.

(** X14: the first configure of a toplevel. When a surface without a role
    (unconfigured, nothing scheduled, no buffer, no other idle task in the
    loop, the serial counter not at its end) is made a toplevel, commits,
    and the event loop runs the idle task, then the client gets the
    toplevel configure with no states and the size of the window geometry
    that the commit applied, and the surface configure with the display's
    next serial, and nothing else. *)
Theorem X14_toplevel_first_configure (array_add_ok : nat -> bool)
    (w : xdg_world) (self : ptr) (s : wlr_xdg_surface) :
  awaits_role w self s ->
  toplevel_first_configure_spec array_add_ok w self s.
Proof. apply toplevel_first_configure. Qed.

Lemma X14_toplevel_first_configure_witness :
  toplevel_first_configure_spec (fun _ => true) world_role_less 4%positive
    (mk_surface 10%positive 104%positive role_none [] false false 0
       None 0 [] false (mk_box 0 0 0 0) (mk_box 0 0 0 0)).
Proof.
  apply (X14_toplevel_first_configure (fun _ => true) world_role_less
           4%positive).
  exact world_role_less_awaits_role.
Defined.

(** ** A popup and its parent *)

Lemma set_popups_id p : set_popups (popups p) p = p.
Proof. now destruct p. Qed.

Lemma filter_ne_fresh (self : ptr) (l : list ptr) :
  self ∉ l -> filter (fun x => x <> self) l = l.
Proof.
  induction l as [|x l IH]; intros Hni; [reflexivity|].
  apply not_elem_of_cons in Hni as [Hne Hni].
  rewrite filter_cons, decide_True by congruence. now rewrite IH.
Qed.

Lemma popup_round_trip ok w self s parent p positioner c :
  xdg_surfaces w !! self = Some s ->
  role_data s = role_none ->
  configure_idle s = None ->
  is_Some (wlr_surfaces w !! surface s) ->
  xdg_clients w !! client s = Some c ->
  xdg_surfaces w !! parent = Some p ->
  parent <> self ->
  self ∉ popups p ->
  positioner_incomplete positioner = false ->
  popup_round_trip_spec ok w self parent positioner.
Proof.
  intros Hs Hr Hi [base Hb] Hc Hp Hne Hfresh Hcomplete.
  set (popup := mk_popup parent false None
                  (xdg_positioner_get_geometry positioner)).
  set (s1 := set_role_data (role_popup popup) s).
  set (p1 := set_popups (self :: popups p) p).
  set (w1 := set_xdg_surfaces
               (<[parent := p1]> (<[self := s1]> (xdg_surfaces w))) w).
  assert (H1 : xdg_shell_handle
                 (get_popup true true true self parent positioner) w
               = Some (w1, [signal (events_new_popup parent self)])).
  { simpl. unfold xdg_surface_get_popup. rewrite Hs. simpl.
    rewrite Hcomplete. rewrite Hb. simpl. rewrite Hr.
    fold popup. fold s1. rewrite lookup_insert_ne by congruence.
    rewrite Hp. reflexivity. }
  assert (Hs1 : xdg_surfaces w1 !! self = Some s1).
  { simpl. rewrite lookup_insert_ne by congruence. apply lookup_insert_eq. }
  assert (Hp1 : xdg_surfaces w1 !! parent = Some p1)
    by (simpl; apply lookup_insert_eq).
  assert (Hparent : set_popups
                      (filter (fun x => x <> self) (self :: popups p)) p1
                    = p).
  { subst p1. rewrite filter_cons, decide_False by auto.
    rewrite filter_ne_fresh by exact Hfresh. now destruct p. }
  assert (Hmap : delete self
                   (<[parent := p]>
                      (<[parent := p1]> (<[self := s1]> (xdg_surfaces w))))
                 = delete self (xdg_surfaces w)).
  { rewrite insert_insert_eq. rewrite delete_insert_ne by congruence.
    rewrite delete_insert_eq. apply insert_id.
    rewrite lookup_delete_ne by congruence. exact Hp. }
  eexists. split; [|split; [|split; [|split]]].
  - eapply (handle_all_cons _ _ _ _ _ _ _ H1). simpl.
    unfold with_events, xdg_surface_destroy. rewrite Hs1. simpl.
    rewrite Hi. simpl. rewrite lookup_insert_eq. simpl.
    rewrite Hparent. rewrite Hc. simpl. rewrite Hb. simpl.
    reflexivity.
  - simpl. exact Hmap.
  - reflexivity.
  - reflexivity.
  - reflexivity.
Qed.

(** X15: a popup created on a parent and destroyed again leaves the
    parent's list of popups as it was. For a surface without a role and
    without an idle task, whose client and underlying surface are live,
    and a live parent other than the surface that does not list it yet:
    get_popup with a complete positioner followed by the destruction of the
    surface emits new_popup and destroy and nothing else, and leaves the
    surfaces of the shell as before, less the destroyed one. *)
Theorem X15_popup_round_trip (calloc_ok : bool) (w : xdg_world)
    (self : ptr) (s : wlr_xdg_surface) (parent : ptr) (p : wlr_xdg_surface)
    (positioner : wlr_xdg_positioner) (c : wlr_xdg_client) :
  xdg_surfaces w !! self = Some s ->
  role_data s = role_none ->
  configure_idle s = None ->
  is_Some (wlr_surfaces w !! surface s) ->
  xdg_clients w !! client s = Some c ->
  xdg_surfaces w !! parent = Some p ->
  parent <> self ->
  self ∉ popups p ->
  positioner_incomplete positioner = false ->
  popup_round_trip_spec calloc_ok w self parent positioner.
Proof. apply popup_round_trip. Qed.

Lemma X15_popup_round_trip_witness :
  popup_round_trip_spec true world_role_less 4%positive 1%positive
    menu_positioner.
Proof.
  eapply (X15_popup_round_trip true world_role_less 4%positive _ 1%positive).
  - vm_compute. reflexivity.
  - reflexivity.
  - reflexivity.
  - vm_compute. eauto.
  - vm_compute. reflexivity.
  - vm_compute. reflexivity.
  - discriminate.
  - simpl. apply not_elem_of_cons. split; [discriminate|].
    apply not_elem_of_nil.
  - vm_compute. reflexivity.
Defined.


(** ** Ping and pong *)

(** A ping that is sent. *)
Lemma ping_sent w self s c :
  xdg_surfaces w !! self = Some s ->
  xdg_clients w !! client s = Some c ->
  ping_serial c = 0 -> is_Some (ping_timer c) ->
  0 <= display_serial (display w) ->
  display_serial (display w) + 1 < 2 ^ 32 ->
  xdg_shell_handle (request (surface_ping self)) w
  = Some (set_xdg_clients
            (<[client s :=
                 mk_client (wl_client c) (surfaces c)
                   (display_serial (display w) + 1)
                   (Some (ping_timeout w))]> (xdg_clients w))
            (set_display
               (mk_display (display_serial (display w) + 1)
                  (idle (display w)) (next_source (display w))) w),
          [send_ping (client s) (display_serial (display w) + 1)]).
Proof.
  intros Hs Hc Hserial [t Ht] H0 Hw. simpl.
  unfold wlr_xdg_surface_ping. rewrite Hs. simpl. rewrite Hc. simpl.
  rewrite Hserial. simpl. rewrite Ht. simpl.
  rewrite (to_uint32_succ _ H0 Hw). reflexivity.
Qed.

(** A ping that is not sent. *)
Lemma ping_suppressed w self s c :
  xdg_surfaces w !! self = Some s ->
  xdg_clients w !! client s = Some c ->
  ping_serial c <> 0 ->
  xdg_shell_handle (request (surface_ping self)) w = Some (w, []).
Proof.
  intros Hs Hc Hserial. simpl.
  unfold wlr_xdg_surface_ping. rewrite Hs. simpl. rewrite Hc. simpl.
  apply Z.eqb_neq in Hserial. rewrite Hserial. reflexivity.
Qed.

Lemma ping_pong w self s c :
  ping_ready w self s c -> ping_pong_spec w self s.
Proof.
  intros (Hs & Hc & Hserial & Htimer & H0 & Hw).
  set (n := display_serial (display w) + 1).
  pose proof (ping_sent w self s c Hs Hc Hserial Htimer H0 ltac:(lia)) as H1.
  fold n in H1.
  set (c1 := mk_client (wl_client c) (surfaces c) n (Some (ping_timeout w)))
    in *.
  set (w1 := set_xdg_clients _ _) in H1.
  assert (Hs1 : xdg_surfaces w1 !! self = Some s) by exact Hs.
  assert (Hc1 : xdg_clients w1 !! client s = Some c1)
    by (simpl; apply lookup_insert_eq).
  split.
  - set (c2 := mk_client (wl_client c) (surfaces c) 0 (Some 0)).
    set (w2 := set_xdg_clients (<[client s := c2]> (xdg_clients w1)) w1).
    assert (H2 : xdg_shell_handle (request (pong (client s) n)) w1
                 = Some (w2, [])).
    { simpl. unfold xdg_shell_pong. rewrite Hc1. simpl.
      rewrite Z.eqb_refl. reflexivity. }
    assert (Hc2 : xdg_clients w2 !! client s = Some c2)
      by (simpl; apply lookup_insert_eq).
    assert (H3 : exists w3,
               xdg_shell_handle (request (surface_ping self)) w2
               = Some (w3, [send_ping (client s) (n + 1)])).
    { eexists.
      rewrite (ping_sent w2 self s c2 Hs Hc2 eq_refl ltac:(eauto));
        [reflexivity|simpl; lia..]. }
    destruct H3 as [w3 H3].
    eexists.
    eapply (handle_all_cons _ _ _ _ _ _ _ H1).
    eapply (handle_all_cons _ _ _ _ _ _ _ H2).
    eapply (handle_all_cons _ _ _ _ _ _ _ H3). reflexivity.
  - intros serial Hne.
    assert (H2 : xdg_shell_handle (request (pong (client s) serial)) w1
                 = Some (w1, [])).
    { simpl. unfold xdg_shell_pong. rewrite Hc1. simpl.
      replace (n =? serial) with false; [reflexivity|].
      symmetry. apply Z.eqb_neq. subst n. congruence. }
    assert (H3 : xdg_shell_handle (request (surface_ping self)) w1
                 = Some (w1, []))
      by (apply (ping_suppressed w1 self s c1 Hs1 Hc1); simpl; lia).
    eexists.
    eapply (handle_all_cons _ _ _ _ _ _ _ H1).
    eapply (handle_all_cons _ _ _ _ _ _ _ H2).
    eapply (handle_all_cons _ _ _ _ _ _ _ H3). reflexivity.
Qed.

(** X16: ping and pong. For a surface whose client has no ping
    outstanding and has its timer (the serial counter two steps from its
    end at least): a ping is sent with the display's next serial; the pong
    with that serial lets the next ping through, which carries the serial
    after it; a pong with any other serial is ignored, so that the next
    ping is not sent. Nothing else goes out. *)
Theorem X16_ping_pong (w : xdg_world) (self : ptr) (s : wlr_xdg_surface)
    (c : wlr_xdg_client) :
  ping_ready w self s c -> ping_pong_spec w self s.
Proof. apply ping_pong. Qed.

Lemma world_0_ping_ready : ping_ready world_0 1%positive surface_T client_10.
Proof.
  repeat split; try reflexivity; try (vm_compute; congruence).
  vm_compute. eauto.
Qed.

Lemma X16_ping_pong_witness : ping_pong_spec world_0 1%positive surface_T.
Proof.
  apply (X16_ping_pong world_0 1%positive surface_T client_10).
  exact world_0_ping_ready.
Defined.

Lemma ping_timeout_run w self s c :
  ping_ready w self s c ->
  Forall (fun x => is_Some (xdg_surfaces w !! x)) (surfaces c) ->
  ping_timeout_spec w self s c.
Proof.
  intros (Hs & Hc & Hserial & Htimer & H0 & Hw) Hlive.
  set (n := display_serial (display w) + 1).
  pose proof (ping_sent w self s c Hs Hc Hserial Htimer H0 ltac:(lia)) as H1.
  fold n in H1.
  set (c1 := mk_client (wl_client c) (surfaces c) n (Some (ping_timeout w)))
    in *.
  set (w1 := set_xdg_clients _ _) in H1.
  assert (Hc1 : xdg_clients w1 !! client s = Some c1)
    by (simpl; apply lookup_insert_eq).
  set (c2 := mk_client (wl_client c) (surfaces c) 0
               (Some (ping_timeout w))).
  set (w2 := set_xdg_clients (<[client s := c2]> (xdg_clients w1)) w1).
  assert (H2 : xdg_shell_handle (ping_timer_fired (client s)) w1
               = Some (w2, map (fun x => signal (events_ping_timeout x))
                             (surfaces c))).
  { simpl. unfold wlr_xdg_client_ping_timeout. rewrite Hc1. simpl.
    replace (forallb _ (surfaces c)) with true; [reflexivity|].
    symmetry. apply forallb_forall. intros x Hx.
    apply bool_decide_eq_true. rewrite Forall_forall in Hlive.
    apply Hlive. now apply list_elem_of_In. }
  assert (Hc2 : xdg_clients w2 !! client s = Some c2)
    by (simpl; apply lookup_insert_eq).
  assert (H3 : exists w3,
             xdg_shell_handle (request (surface_ping self)) w2
             = Some (w3, [send_ping (client s) (n + 1)])).
  { eexists.
    rewrite (ping_sent w2 self s c2 Hs Hc2 eq_refl ltac:(eauto));
      [reflexivity|simpl; lia..]. }
  destruct H3 as [w3 H3].
  eexists.
  eapply (handle_all_cons _ _ _ _ _ _ _ H1).
  eapply (handle_all_cons _ _ _ _ _ _ _ H2).
  eapply (handle_all_cons _ _ _ _ _ _ _ H3). reflexivity.
Qed.

(** X17: the ping timeout. For a surface whose client has no ping
    outstanding and has its timer, the surfaces on the client's list being
    live (and the serial counter two steps from its end at least): after a
    ping, when the timer fires, every surface of the client gets the
    ping_timeout signal, in the order of the list, and the next ping is
    sent again, with the next serial. *)
Theorem X17_ping_timeout (w : xdg_world) (self : ptr) (s : wlr_xdg_surface)
    (c : wlr_xdg_client) :
  ping_ready w self s c ->
  Forall (fun x => is_Some (xdg_surfaces w !! x)) (surfaces c) ->
  ping_timeout_spec w self s c.
Proof. apply ping_timeout_run. Qed.

Lemma X17_ping_timeout_witness :
  ping_timeout_spec world_0 1%positive surface_T client_10.
Proof.
  apply (X17_ping_timeout world_0 1%positive surface_T client_10).
  - exact world_0_ping_ready.
  - repeat constructor; vm_compute; eauto.
Defined.


(** ** The end of a grab *)





(** ** The end of a client *)

(** A destroyed surface is gone and no surface appears. *)
Lemma destroy_surfaces ok w self w' evs :
  xdg_surface_destroy ok w self = Some (w', evs) ->
  xdg_surfaces w' !! self = None /\
  forall x, xdg_surfaces w !! x = None -> xdg_surfaces w' !! x = None.
Proof.
  intros H. apply destroy_world in H as (s & Hs & _ & Hm).
  destruct Hm as [->|(y & parent & parent' & Hy & _ & _ & _ & ->)].
  - split; [apply lookup_delete_eq|].
    intros x Hx. rewrite lookup_delete. now destruct (decide _).
  - split; [apply lookup_delete_eq|].
    intros x Hx. rewrite lookup_delete. destruct (decide _); [reflexivity|].
    rewrite lookup_insert_ne; [exact Hx|]. intros <-. congruence.
Qed.

Lemma destroy_grab_signals ok w self s seat w' evs :
  xdg_surface_destroy_grab ok w self s seat = Some (w', evs) ->
  destroy_signals evs = [].
Proof.
  unfold xdg_surface_destroy_grab, wlr_seat_pointer_end_grab,
    xdg_pointer_grab_end. intros H.
  assert (Hdone : forall l : list ptr,
            destroy_signals
              (map (fun popup =>
                      xdg_popup_send_popup_done (xdg_popup_resource popup)) l)
            = []).
  { induction l as [|x l IH]; [reflexivity|exact IH]. }
  repeat (case_match || simplify_option_eq);
    unfold destroy_signals; rewrite ?omap_app; simpl;
    try reflexivity; apply Hdone.
Qed.

(** The destruction of a surface emits the destroy signal of that surface
    and of no other. *)
Lemma destroy_signal ok w self w' evs :
  xdg_surface_destroy ok w self = Some (w', evs) ->
  destroy_signals evs = [self].
Proof.
  unfold xdg_surface_destroy. intros H.
  destruct (xdg_surfaces w !! self) as [s|]; [|discriminate]. simpl in H.
  destruct (role_data s) as [|t|p].
  - simplify_option_eq. reflexivity.
  - simplify_option_eq. reflexivity.
  - destruct (popup_seat p) as [seat|].
    + destruct (xdg_surface_destroy_grab _ _ _ _ _) as [[w1 evs1]|] eqn:Hg;
        [|discriminate].
      apply destroy_grab_signals in Hg.
      simplify_option_eq. simpl. unfold destroy_signals in *.
      simpl. now rewrite Hg.
    + simplify_option_eq. reflexivity.
Qed.

Lemma destroy_all_surfaces ok l :
  forall w w' evs,
    xdg_surface_destroy_all ok w l = Some (w', evs) ->
    (forall x, In x l -> xdg_surfaces w' !! x = None) /\
    (forall x, xdg_surfaces w !! x = None -> xdg_surfaces w' !! x = None) /\
    destroy_signals evs = l.
Proof.
  induction l as [|self l IH]; intros w w' evs H; simpl in H.
  - injection H as <- <-. repeat split; auto. intros x [].
  - destruct (xdg_surface_destroy ok w self) as [[w1 evs1]|] eqn:H1;
      [|discriminate].
    simpl in H.
    destruct (xdg_surface_destroy_all ok w1 l) as [[w2 evs2]|] eqn:H2;
      [|discriminate].
    injection H as <- <-.
    destruct (IH _ _ _ H2) as (Hgone & Hkeep & Hsig).
    destruct (destroy_surfaces _ _ _ _ _ H1) as [Hself Hkeep1].
    split; [|split].
    + intros x [<-|Hx]; [now apply Hkeep|now apply Hgone].
    + intros x Hx. apply Hkeep, Hkeep1, Hx.
    + unfold destroy_signals in *. rewrite omap_app.
      fold (destroy_signals evs1). rewrite (destroy_signal _ _ _ _ _ H1).
      now rewrite Hsig.
Qed.

Lemma client_destroy_run ok w client c w' evs :
  xdg_clients w !! client = Some c ->
  wlr_xdg_client_destroy ok w client = Some (w', evs) ->
  client_destroy_spec w client c w' evs.
Proof.
  intros Hc H. unfold wlr_xdg_client_destroy in H. rewrite Hc in H.
  simpl in H.
  destruct (xdg_surface_destroy_all ok w (surfaces c)) as [[w1 evs1]|] eqn:H1;
    [|discriminate].
  simpl in H. destruct (xdg_clients w1 !! client); [|discriminate].
  injection H as <- <-.
  destruct (destroy_all_surfaces _ _ _ _ _ H1) as (Hgone & Hkeep & Hsig).
  split; [apply lookup_delete_eq|]. auto.
Qed.

(** X19: the end of a client. When the destructor of a client's resource
    runs to its end, the client is gone from the shell with every surface
    of its list, each of these surfaces got the destroy signal exactly
    once, in the order of the list (the surface created last first), no
    other surface got it, and no surface was added. *)
Theorem X19_client_destroy (calloc_ok : bool) (w : xdg_world) (client : ptr)
    (c : wlr_xdg_client) (w' : xdg_world) (evs : list event) :
  xdg_clients w !! client = Some c ->
  wlr_xdg_client_destroy calloc_ok w client = Some (w', evs) ->
  client_destroy_spec w client c w' evs.
Proof. apply client_destroy_run. Qed.

Lemma X19_client_destroy_witness :
  exists w' evs,
    wlr_xdg_client_destroy true world_grabbed 10%positive = Some (w', evs) /\
    client_destroy_spec world_grabbed 10%positive client_10 w' evs.
Proof.
  eexists. eexists.
  assert (H : forall (A B : Prop), A -> (A -> B) -> A /\ B) by tauto.
  apply H.
  - vm_compute. reflexivity.
  - apply (X19_client_destroy true world_grabbed 10%positive client_10).
    vm_compute. reflexivity.
Defined.


(** ** Moving the anchor *)

Ltac wrap32 :=
  unfold add32, sub32, to_int32;
  change (2 ^ 32) with 4294967296; change (2 ^ 31) with 2147483648;
  Z.div_mod_to_equations; lia.

Lemma add32_move_r x a d : add32 x (add32 a d) = add32 (add32 x a) d.
Proof. wrap32. Qed.

Lemma add32_move_r2 x a d k :
  add32 x (add32 (add32 a d) k) = add32 (add32 x (add32 a k)) d.
Proof. wrap32. Qed.

Lemma add32_move_l x d k : add32 (add32 x d) k = add32 (add32 x k) d.
Proof. wrap32. Qed.

Lemma sub32_move x d k : sub32 (add32 x d) k = add32 (sub32 x k) d.
Proof. wrap32. Qed.

Lemma get_geometry_move_anchor_rect dx dy p :
  xdg_positioner_get_geometry (move_anchor_rect dx dy p)
  = move_box dx dy (xdg_positioner_get_geometry p).
Proof.
  unfold xdg_positioner_get_geometry, move_anchor_rect, move_box.
  simpl. destruct (constraint_adjustment p =? _);
    destruct (anchor p), (gravity p); simpl;
    rewrite ?add32_move_r2, ?add32_move_r, ?sub32_move; reflexivity.
Qed.

Lemma get_geometry_move_offset dx dy p :
  xdg_positioner_get_geometry (move_offset dx dy p)
  = move_box dx dy (xdg_positioner_get_geometry p).
Proof.
  unfold xdg_positioner_get_geometry, move_offset, move_box.
  simpl. destruct (constraint_adjustment p =? _);
    destruct (anchor p), (gravity p); simpl;
    rewrite ?(add32_move_l _ dx), ?(add32_move_l _ dy), ?sub32_move;
    reflexivity.
Qed.

(** X20: the popup geometry moves with the anchor rectangle and with the
    offset. For every positioner, whatever its anchor, gravity and
    constraint adjustment, moving the anchor rectangle by (dx, dy) moves
    the computed geometry by (dx, dy) and leaves its size, and so does
    moving the offset; the sums are those of the C code's [int]
    arithmetic, taken to wrap around. *)
Theorem X20_geometry_moves (dx dy : int32_t) (p : wlr_xdg_positioner) :
  xdg_positioner_get_geometry (move_anchor_rect dx dy p)
  = move_box dx dy (xdg_positioner_get_geometry p) /\
  xdg_positioner_get_geometry (move_offset dx dy p)
  = move_box dx dy (xdg_positioner_get_geometry p).
Proof.
  split; [apply get_geometry_move_anchor_rect|apply get_geometry_move_offset].
Qed.

(** ** The invariant of the configure queues over all requests *)

Lemma destroy_all_queue_inv ok l :
  forall w w' evs,
    world_queue_inv w ->
    xdg_surface_destroy_all ok w l = Some (w', evs) ->
    world_queue_inv w'.
Proof.
  induction l as [|self l IH]; intros w w' evs Hinv H; simpl in H.
  - now injection H as <- <-.
  - destruct (xdg_surface_destroy ok w self) as [[w1 evs1]|] eqn:H1;
      [|discriminate].
    simpl in H.
    destruct (xdg_surface_destroy_all ok w1 l) as [[w2 evs2]|] eqn:H2;
      [|discriminate].
    injection H as <- <-.
    eapply IH; [|exact H2]. eapply destroy_queue_inv; eauto.
Qed.

Lemma handle_queue_inv r w w' evs :
  world_queue_inv w ->
  display_serial (display w) + 1 < 2 ^ 32 ->
  fresh_surface_for r w ->
  xdg_shell_handle r w = Some (w', evs) ->
  world_queue_inv w'.
Proof.
  intros Hinv Hw Hfresh.
  destruct r as [r|? ? ? self|? ? ? self parent positioner|cl|ok cl]; simpl.
  - unfold with_events.
    destruct (xdg_shell_dispatch r w) as [[w1 evs1]|] eqn:H; [|discriminate].
    intros [= <- _]. eapply dispatch_queue_inv; eauto.
  - unfold xdg_surface_get_toplevel. intros H.
    destruct (xdg_surfaces w !! self) as [s|] eqn:Hs; [|discriminate].
    simpl in H.
    repeat (case_match || simplify_option_eq); auto.
    unfold world_queue_inv. simpl. eapply queue_inv_same; eauto.
  - unfold xdg_surface_get_popup. intros H.
    destruct (xdg_surfaces w !! self) as [s|] eqn:Hs; [|discriminate].
    simpl in H.
    repeat (case_match || simplify_option_eq); auto.
    unfold world_queue_inv. simpl.
    eapply queue_inv_same; [|eassumption|reflexivity..].
    eapply queue_inv_same; eauto.
  - unfold wlr_xdg_client_ping_timeout. intros H.
    repeat (case_match || simplify_option_eq); auto.
  - unfold with_events, wlr_xdg_client_destroy. intros H.
    destruct (xdg_clients w !! cl) as [c|]; [|discriminate].
    simpl in H.
    destruct (xdg_surface_destroy_all ok w (surfaces c))
      as [[w1 evs1]|] eqn:H1; [|discriminate].
    simpl in H. destruct (xdg_clients w1 !! cl); [|discriminate].
    simpl in H. injection H as <- _.
    apply (destroy_all_queue_inv _ _ _ _ _ Hinv H1).
Qed.

(** X9: every request and call handled in a shell whose configure queues
    are in order leaves them in order, as long as the serial counter of
    the display does not wrap around and a new surface is allocated at an
    address that is not in use: in every queue the serials grow strictly
    and are serials the display has handed out, the serial reserved for a
    pending idle task is greater than every queued serial, the idle
    sources have distinct addresses, and every idle source of the event
    loop is the pending idle task of a live surface. *)
Theorem X9_queue_invariant (r : xdg_shell_request) (w w' : xdg_world)
    (evs : list xdg_event) :
  world_queue_inv w ->
  display_serial (display w) + 1 < 2 ^ 32 ->
  fresh_surface_for r w ->
  xdg_shell_handle r w = Some (w', evs) ->
  world_queue_inv w'.
Proof. apply handle_queue_inv. Qed.

Lemma X9_queue_invariant_witness : world_queue_inv world_resized.
Proof.
  apply (X9_queue_invariant (request (toplevel_set_size 1 1024 768))
           world_0 _ []).
  - exact world_0_queue_inv.
  - vm_compute. reflexivity.
  - exact I.
  - vm_compute. reflexivity.
Defined.

(** X10: a request or call handled in a shell whose configure queues are
    in order, the serial counter of the display not wrapping around and a
    new surface being allocated at an address that is not in use, leaves no
    surface with more than one configure idle task in the event loop. *)
Theorem X10_one_idle_task (r : xdg_shell_request) (w w' : xdg_world)
    (evs : list xdg_event) (self : ptr) :
  world_queue_inv w ->
  display_serial (display w) + 1 < 2 ^ 32 ->
  fresh_surface_for r w ->
  xdg_shell_handle r w = Some (w', evs) ->
  (length (idle_tasks_of self (display w')) <= 1)%nat.
Proof.
  intros Hinv Hw Hfresh H. apply queue_inv_idle_tasks.
  eapply handle_queue_inv; eauto.
Qed.

Lemma X10_one_idle_task_witness :
  (length (idle_tasks_of 1%positive (display world_resized)) <= 1)%nat.
Proof.
  apply (X10_one_idle_task (request (toplevel_set_size 1 1024 768))
           world_0 _ []).
  - exact world_0_queue_inv.
  - vm_compute. reflexivity.
  - exact I.
  - vm_compute. reflexivity.
Defined.


(** ** Changes within one turn of the event loop *)











